(** * somi-app: the query pipeline of the Jira assistant

    A shallow embedding of the server with conversation memory (the larger
    of the two server files) and the properties of its pipeline: sanitizer,
    normalizer, intent classifier, synthesizer, execution controller,
    session store and rich-text extractor.

    Conventions.
    - A JavaScript string is a [string]; one [ascii] stands for one code
      unit in the range U+0000..U+00FF.  Code units above U+00FF are outside
      the model; the texts of the canned answers, which hold some, are kept
      as the bytes of this file.
    - A regular expression of the source is written as a term of [Re.regex]
      and run by [Re.run], a backtracking matcher that explores the
      alternatives in the order of the JavaScript engine (leftmost start,
      first alternative first, greedy repetition).
    - [process.env.JIRA_PROJECT_KEY] is a parameter: [key] where it is read
      while a request is served, [tkey] where it is read while the module is
      loaded.  It is spliced into patterns as literal text, which is what
      the source does for a key made of letters, digits and underscores.
    - What the remote services answer (the issue tracker, the generative
      model, and the functions of the server whose text comes from them) is
      given by a record of outcomes, [Handler.World]; the properties of the
      handler hold for every such record.
    - [conversationMemory], a plain object, is a finite map of sessions;
      its entry under [__proto__], a name no assignment gives an own
      property, stands for the prototype of the store once a reset has
      replaced it ([Handler.inherited_in]). *)

From Stdlib Require Import String Ascii List Bool Arith Lia.
From stdpp Require Import gmap strings pretty.
Import ListNotations.
Local Open Scope string_scope.
Local Open Scope list_scope.
Local Open Scope nat_scope.

(** ** Characters and strings of the JavaScript runtime *)

Module Js.

Definition code (c : ascii) : nat := nat_of_ascii c.

Definition is_digit (c : ascii) : bool := (48 <=? code c) && (code c <=? 57).
Definition is_upper (c : ascii) : bool := (65 <=? code c) && (code c <=? 90).
Definition is_lower (c : ascii) : bool := (97 <=? code c) && (code c <=? 122).

(** [\w] *)
Definition is_word (c : ascii) : bool :=
  is_digit c || is_upper c || is_lower c || (code c =? 95).

(** [\s], which is also the set [String.prototype.trim] removes: TAB, LF, VT,
    FF, CR, SP and NBSP are its members below U+0100. *)
Definition is_space (c : ascii) : bool :=
  ((9 <=? code c) && (code c <=? 13)) || (code c =? 32) || (code c =? 160).

(** Line terminators, which [.] does not match. *)
Definition is_newline (c : ascii) : bool := (code c =? 10) || (code c =? 13).

(** [toLowerCase] on one code unit. *)
Definition lower (c : ascii) : ascii :=
  if is_upper c
     || ((192 <=? code c) && (code c <=? 222) && negb (code c =? 215))
  then ascii_of_nat (code c + 32) else c.

(** Equality of code units under the [i] flag: only the ASCII letters have a
    case variant that an ASCII pattern character can match. *)
Definition fold_case (c : ascii) : ascii :=
  if is_upper c then ascii_of_nat (code c + 32) else c.
Definition eq_ci (c a : ascii) : bool := Ascii.eqb (fold_case a) (fold_case c).

Definition chars (s : string) : list ascii := list_ascii_of_string s.
Definition str (l : list ascii) : string := string_of_list_ascii l.

Definition toLowerCase (s : string) : string := str (map lower (chars s)).

Fixpoint drop_space (l : list ascii) : list ascii :=
  match l with
  | a :: t => if is_space a then drop_space t else l
  | [] => []
  end.

Definition trim_chars (l : list ascii) : list ascii :=
  rev (drop_space (rev (drop_space l))).

Definition trim (s : string) : string := str (trim_chars (chars s)).

(** [hay.includes(needle)] *)
Fixpoint includes (hay needle : string) : bool :=
  String.prefix needle hay
  || match hay with
     | EmptyString => false
     | String _ rest => includes rest needle
     end.

(** The double quote and the line feed, and a reader for the literals of this
    file: [text] turns every backquote of its argument into a double quote
    and every [\n] into a line feed, so that the source text
    [status = \x22Open\x22] is written [text "status = `Open`"]. *)
Definition dquote : ascii := "034"%char.
Definition linefeed : ascii := "010"%char.

Fixpoint unescape (l : list ascii) : list ascii :=
  match l with
  | "\"%char :: "n"%char :: t => linefeed :: unescape t
  | "`"%char :: t => dquote :: unescape t
  | a :: t => a :: unescape t
  | [] => []
  end.

Definition text (s : string) : string := str (unescape (chars s)).

(** The properties every plain object inherits from [Object.prototype]; each
    of them reads as a truthy value that is neither an array nor a record of
    this program. *)
Definition proto_keys : list string :=
  ["constructor"; "__proto__"; "hasOwnProperty"; "isPrototypeOf";
   "propertyIsEnumerable"; "toLocaleString"; "toString"; "valueOf";
   "__defineGetter__"; "__defineSetter__"; "__lookupGetter__";
   "__lookupSetter__"].
Definition inherited (k : string) : bool := existsb (String.eqb k) proto_keys.

(** A property name that is an array index: a canonical decimal numeral
    below 2^32 - 1.  Such names are enumerated first, in numeric order. *)
Definition array_index (k : string) : option N :=
  match chars k with
  | [] => None
  | d :: ds =>
      if forallb is_digit (d :: ds) && (negb (Ascii.eqb d "0"%char) || (length ds =? 0))
      then let n := fold_left (fun acc c => (acc * 10 + N.of_nat (code c - 48))%N)
                              (d :: ds) 0%N in
           if (n <? 4294967295)%N then Some n else None
      else None
  end.

End Js.

(** ** Regular expressions as the engine runs them *)

Module Re.

Inductive regex : Type :=
| Eps                           (* the empty pattern *)
| Cls (p : ascii -> bool)       (* one code unit of a class *)
| Cat (r1 r2 : regex)           (* r1 r2 *)
| Alt (r1 r2 : regex)           (* r1|r2 *)
| Star (r : regex)              (* r*, greedy *)
| Grp (n : nat) (r : regex)     (* capture group number n *)
| Bol                           (* ^ *)
| Eol                           (* $ *)
| Wb                            (* \b *)
| NLa (r : regex)               (* (?!r) *)
| NLb (p : ascii -> bool).      (* (?<![...]), one code unit *)

(** A position in the subject: the code units already passed, nearest
    first, and those still ahead. *)
Record pos : Type := Pos { before : list ascii; after : list ascii }.

Definition caps : Type := list (nat * list ascii).

(** The text between two positions of one subject. *)
Definition between (x y : pos) : list ascii :=
  rev (firstn (length (before y) - length (before x)) (before y)).

Definition word_before (x : pos) : bool :=
  match before x with a :: _ => Js.is_word a | [] => false end.
Definition word_after (x : pos) : bool :=
  match after x with a :: _ => Js.is_word a | [] => false end.

(** [run r x c k]: match [r] at [x], then hand the position reached and the
    captures to [k]; when [k] fails, backtrack into [r]. *)
Fixpoint run (r : regex) (x : pos) (c : caps)
    (k : pos -> caps -> option (pos * caps)) {struct r} : option (pos * caps) :=
  match r with
  | Eps => k x c
  | Cls p =>
      match after x with
      | a :: t => if p a then k (Pos (a :: before x) t) c else None
      | [] => None
      end
  | Cat r1 r2 => run r1 x c (fun y d => run r2 y d k)
  | Alt r1 r2 =>
      match run r1 x c k with
      | Some v => Some v
      | None => run r2 x c k
      end
  | Star r1 =>
      (fix iter (fuel : nat) (x : pos) (c : caps) {struct fuel} :=
         match fuel with
         | 0 => k x c
         | S f =>
             match run r1 x c (fun y d =>
                     if length (after y) <? length (after x)
                     then iter f y d else None) with
             | Some v => Some v
             | None => k x c
             end
         end) (S (length (after x))) x c
  | Grp n r1 => run r1 x c (fun y d => k y ((n, between x y) :: d))
  | Bol => match before x with [] => k x c | _ :: _ => None end
  | Eol => match after x with [] => k x c | _ :: _ => None end
  | Wb => if xorb (word_before x) (word_after x) then k x c else None
  | NLa r1 =>
      match run r1 x c (fun y d => Some (y, d)) with
      | Some _ => None
      | None => k x c
      end
  | NLb p =>
      match before x with
      | a :: _ => if p a then None else k x c
      | [] => k x c
      end
  end.

Definition match_at (r : regex) (x : pos) : option (pos * caps) :=
  run r x [] (fun y d => Some (y, d)).

(** The leftmost match at or after a position. *)
Fixpoint find (r : regex) (pre suf : list ascii) {struct suf}
    : option (pos * pos * caps) :=
  match match_at r (Pos pre suf) with
  | Some (y, d) => Some (Pos pre suf, y, d)
  | None =>
      match suf with
      | a :: t => find r (a :: pre) t
      | [] => None
      end
  end.

(** [re.test(s)] for a pattern without the [g] flag. *)
Definition test (r : regex) (s : string) : bool :=
  match find r [] (Js.chars s) with Some _ => true | None => false end.

(** [s.match(re)[0]] for a pattern without the [g] flag; [None] is [null]. *)
Definition match0 (r : regex) (s : string) : option string :=
  match find r [] (Js.chars s) with
  | Some (x, y, _) => Some (Js.str (between x y))
  | None => None
  end.

Definition group (n : nat) (c : caps) : list ascii :=
  match List.find (fun e => Nat.eqb (fst e) n) c with
  | Some e => snd e
  | None => []
  end.

(** [s.replace(re, ...)] for a pattern with the [g] flag: every match, left
    to right, the search resuming where the last match ended (one code unit
    further after an empty match). *)
Fixpoint replace_from (r : regex) (sub : caps -> list ascii) (fuel : nat)
    (pre suf : list ascii) {struct fuel} : list ascii :=
  match fuel with
  | 0 => suf
  | S f =>
      match find r pre suf with
      | None => suf
      | Some (x, y, d) =>
          firstn (length suf - length (after x)) suf ++ sub d ++
          (if length (after y) <? length (after x)
           then replace_from r sub f (before y) (after y)
           else match after y with
                | a :: t => a :: replace_from r sub f (a :: before y) t
                | [] => []
                end)
      end
  end.

Definition replace_all (r : regex) (sub : caps -> list ascii) (s : string) : string :=
  Js.str (replace_from r sub (S (String.length s)) [] (Js.chars s)).

(** Pattern syntax. *)
Definition chr (c : ascii) : regex := Cls (Ascii.eqb c).
Definition chr_i (c : ascii) : regex := Cls (Js.eq_ci c).
Definition plus (r : regex) : regex := Cat r (Star r).
Definition opt (r : regex) : regex := Alt r Eps.
Definition seq (rs : list regex) : regex := fold_right Cat Eps rs.
Definition lit (s : string) : regex := seq (map chr (Js.chars s)).
Definition lit_i (s : string) : regex := seq (map chr_i (Js.chars s)).
Fixpoint alts (rs : list regex) : regex :=
  match rs with
  | [] => NLa Eps
  | [r] => r
  | r :: rest => Alt r (alts rest)
  end.
(** [(?:a|b|c)] over literal alternatives, under the [i] flag. *)
Definition words_i (ws : list string) : regex := alts (map lit_i ws).

Definition one_of (s : string) (c : ascii) : bool :=
  existsb (Ascii.eqb c) (Js.chars s).
Definition none_of (s : string) (c : ascii) : bool := negb (one_of s c).

Definition space : regex := Cls Js.is_space.
Definition word : regex := Cls Js.is_word.
Definition digit : regex := Cls Js.is_digit.
Definition dot : regex := Cls (fun c => negb (Js.is_newline c)).

End Re.

(** ** The query sanitizer ([sanitizeJQL]) *)

Module Sanitizer.
Import Re.

Definition is_quote (c : ascii) : bool :=
  Ascii.eqb c Js.dquote || Ascii.eqb c "'"%char.

(** [/,(?![^(]*\))/g] *)
Definition bare_comma : regex :=
  Cat (chr ",") (NLa (Cat (Star (Cls (none_of "("))) (chr ")"))).

(** [/\s+is\s+empty\b/gi] and [/\s+is\s+not\s+empty\b/gi] *)
Definition is_empty_re : regex :=
  seq [plus space; lit_i "is"; plus space; lit_i "empty"; Wb].
Definition is_not_empty_re : regex :=
  seq [plus space; lit_i "is"; plus space; lit_i "not"; plus space;
       lit_i "empty"; Wb].

(** [/(\w+)\s*=\s*([^\x22'\s][^\s]*\s+[^\s\x22']*[^\x22'\s])/g], the double
    quote written [\x22] here and below. *)
Definition spaced_value : regex :=
  seq [Grp 1 (plus word); Star space; chr "="; Star space;
       Grp 2 (seq [Cls (fun c => negb (is_quote c || Js.is_space c));
                   Star (Cls (fun c => negb (Js.is_space c)));
                   plus space;
                   Star (Cls (fun c => negb (Js.is_space c || is_quote c)));
                   Cls (fun c => negb (is_quote c || Js.is_space c))])].

(** The replacement ['$1 = \x22$2\x22']. *)
Definition quote_value (c : caps) : list ascii :=
  group 1 c ++ Js.chars " = " ++ [Js.dquote] ++ group 2 c ++ [Js.dquote].

Definition reservedWords : list string :=
  ["limit"; "and"; "or"; "not"; "empty"; "null"; "order"; "by"; "asc"; "desc"].

(** [new RegExp(`\\b${word}\\b(?<![\x22'])`, 'gi')] *)
Definition reserved_re (w : string) : regex :=
  seq [Wb; lit_i w; Wb; NLb is_quote].

(** The replacement [`\x22${word}\x22`]. *)
Definition quoted (w : string) : list ascii :=
  [Js.dquote] ++ Js.chars w ++ [Js.dquote].

Definition const (s : string) (_ : caps) : list ascii := Js.chars s.

Section WithKey.
Variable key : string.

Definition scope : string := "project = " +:+ key.
Definition scope_quoted : string :=
  "project = " +:+ Js.str [Js.dquote] +:+ key +:+ Js.str [Js.dquote].

(** The value of [sanitized] after the comma pass. *)
Definition fix_commas (jql : string) : string :=
  replace_all bare_comma (const " AND ") jql.

(** The value of [sanitized] after the project clause is ensured. *)
Definition ensure_project (s : string) : string :=
  if negb (Js.includes s scope_quoted) && negb (Js.includes s scope)
  then scope +:+ " AND (" +:+ s +:+ ")"
  else s.

Definition fix_operators (s : string) : string :=
  replace_all is_not_empty_re (const " is not EMPTY")
    (replace_all is_empty_re (const " is EMPTY") s).

Definition quote_values (s : string) : string :=
  replace_all spaced_value quote_value s.

Definition quote_reserved (s : string) : string :=
  fold_left (fun acc w => replace_all (reserved_re w) (fun _ => quoted w) acc)
            reservedWords s.

(** [sanitizeJQL(jql)]; [None] is an absent argument. *)
Definition sanitizeJQL (jql : option string) : string :=
  match jql with
  | None | Some EmptyString => scope
  | Some s =>
      quote_reserved (quote_values (fix_operators (ensure_project (fix_commas s))))
  end.

End WithKey.
End Sanitizer.

(** ** The query normalizer ([preprocessQuery]) *)

Module Normalizer.
Import Re.

Record mapping : Type := Mapping { regex_of : regex; standardized : string }.

(** [(?:show|list|find|get) (?:all |the |)?(?:A) (?:tasks|issues|tickets)] *)
Definition task_query (kinds : list string) : regex :=
  seq [words_i ["show"; "list"; "find"; "get"]; lit_i " ";
       opt (alts [lit_i "all "; lit_i "the "; Eps]);
       words_i kinds; lit_i " "; words_i ["tasks"; "issues"; "tickets"]].

(** [what(?:'s| is)] and [what(?:'s| is)?] *)
Definition what_is : regex := seq [lit_i "what"; words_i ["'s"; " is"]].
Definition what_is_opt : regex := seq [lit_i "what"; opt (words_i ["'s"; " is"])].

(** [new RegExp(`(?:show|tell me about|what is|details for|info on)\\s+${KEY}-\\d+`, 'i')] *)
Definition issue_request (key : string) : regex :=
  seq [words_i ["show"; "tell me about"; "what is"; "details for"; "info on"];
       plus space; lit_i key; lit_i "-"; plus digit].

(** The table [queryMappings], in the order of the source; [query] is the
    trimmed, lower-cased text, which the last entry maps to itself. *)
Definition queryMappings (key query : string) : list mapping :=
  [ Mapping (seq [Bol; words_i ["how is"; "how's"; "what's"; "what is"]; lit_i " ";
                  opt (lit_i "the "); lit_i "project"; opt (lit_i "'s"); lit_i " ";
                  words_i ["status"; "progress"; "going"; "health"]])
            "show project status";
    Mapping (seq [Bol; words_i ["give me"; "show"; "display"]; lit_i " ";
                  opt (words_i ["the "; "a "]); words_i ["project"; "overall"];
                  lit_i " "; words_i ["status"; "overview"; "summary"; "health"]])
            "show project status";
    Mapping (seq [Bol; words_i ["project"; "status"]; lit_i " ";
                  words_i ["overview"; "health"; "summary"]])
            "show project status";
    Mapping (words_i ["timeline"; "schedule"; "roadmap"; "plan"; "calendar"; "deadlines"])
            "show project timeline";
    Mapping (seq [what_is_opt; lit_i " ";
                  words_i ["coming up"; "planned"; "scheduled"; "due"]])
            "show upcoming deadlines";
    Mapping (seq [what_is_opt; lit_i " due "; words_i ["this"; "next"]; lit_i " ";
                  words_i ["week"; "month"]])
            "show upcoming deadlines";
    Mapping (seq [lit_i "when "; words_i ["will"; "is"; "are"]; lit_i " "; Star dot;
                  lit_i " "; words_i ["due"; "finish"; "complete"; "done"]])
            "show project timeline";
    Mapping (seq [what_is; lit_i " "; opt (words_i ["the "; "our "]); lit_i "schedule"])
            "show project timeline";
    Mapping (words_i ["blocker"; "blocking issue"; "impediment"; "what's blocking";
                      "what is blocking"])
            "show project blockers";
    Mapping (seq [what_is_opt; lit_i " ";
                  words_i ["preventing"; "stopping"; "holding up"]])
            "show project blockers";
    Mapping (words_i ["risk"; "risks"; "at risk"; "critical issue"])
            "show high risk items";
    Mapping (seq [lit_i "who"; words_i ["'s"; " is"]; lit_i " ";
                  words_i ["working on"; "assigned to"; "responsible for"]])
            "show team workload";
    Mapping (seq [what_is; lit_i " "; words_i ["everyone"; "everybody"; "the team"];
                  lit_i " working on"])
            "show team workload";
    Mapping (words_i ["workload"; "bandwidth"; "capacity"; "allocation"])
            "show team workload";
    Mapping (seq [lit_i "who"; words_i ["'s"; " is"]; lit_i " ";
                  words_i ["overloaded"; "busy"; "free"; "available"]])
            "show team workload";
    Mapping (task_query ["open"; "active"; "current"]) "show open tasks";
    Mapping (task_query ["closed"; "completed"; "done"; "resolved"]) "show closed tasks";
    Mapping (task_query ["high priority"; "important"; "critical"])
            "show high priority tasks";
    Mapping (task_query ["unassigned"; "without assignee"]) "show unassigned tasks";
    Mapping (words_i ["recent"; "latest"; "last"; "newest"; "what's new"; "what is new"])
            "show recent updates";
    Mapping (seq [lit_i "what"; words_i ["'s"; " has"]; lit_i " changed"])
            "show recent updates";
    Mapping (seq [lit_i "what"; words_i ["'s"; " has"]; lit_i " happened"])
            "show recent updates";
    Mapping (seq [words_i ["current"; "active"; "ongoing"]; lit_i " sprint"])
            "show current sprint";
    Mapping (lit_i "sprint status") "show current sprint";
    Mapping (seq [words_i ["sprint"; "iteration"]; lit_i " progress"])
            "show current sprint";
    Mapping (seq [words_i ["latest"; "most recent"; "last"]; lit_i " ";
                  words_i ["edited"; "updated"; "modified"; "changed"]; lit_i " ";
                  words_i ["task"; "issue"; "ticket"]])
            "show most recently updated task";
    Mapping (issue_request key) query ].

(** The loop over [queryMappings]: the first entry whose pattern matches. *)
Definition first_match (ms : list mapping) (query : string) : option mapping :=
  List.find (fun m => test (regex_of m) query) ms.

(** [/[.,!?;]/g] *)
Definition punctuation : regex := Cls (one_of ".,!?;").

Definition strip_punctuation (s : string) : string :=
  replace_all punctuation (fun _ => []) s.

Definition preprocessQuery (key query : string) : string :=
  let query := Js.toLowerCase (Js.trim query) in
  match first_match (queryMappings key query) query with
  | Some m => standardized m
  | None => Js.trim (strip_punctuation query)
  end.

End Normalizer.

(** ** The intent classifier ([analyzeQueryIntent]) *)

Module Classifier.
Import Re.

(** The closed enumeration of intents; the source writes them as strings. *)
Definition intents : list string :=
  ["PROJECT_STATUS"; "TASK_LIST"; "ASSIGNED_TASKS"; "TASK_DETAILS"; "BLOCKERS";
   "TIMELINE"; "COMMENTS"; "WORKLOAD"; "SPRINT"; "GREETING"; "CONVERSATION";
   "GENERAL"].

Definition is_intent (s : string) : bool := existsb (String.eqb s) intents.

(** [a.*b] *)
Definition then_later (a b : string) : regex := seq [lit_i a; Star dot; lit_i b].

Definition sprint_re : regex :=
  words_i ["sprint"; "current sprint"; "active sprint"; "sprint status"; "sprint board"].

Definition greeting_re : regex :=
  seq [Bol; words_i ["hi"; "hello"; "hey"; "hi there"; "greetings"; "how are you";
                     "what can you do"; "what do you do"; "help me"; "how do you work"]].

(** [new RegExp(`${KEY}-\\d+`, 'i')] *)
Definition issue_key (key : string) : regex :=
  seq [lit_i key; lit_i "-"; plus digit].

(** [/^(?:show|tell|get|what is|about) ${process.env.JIRA_PROJECT_KEY}-\d+$/i]:
    a pattern literal, in which nothing is interpolated; its first [$] is the
    end-of-input assertion and the braces are ordinary characters. *)
Definition details_re : regex :=
  seq [Bol; words_i ["show"; "tell"; "get"; "what is"; "about"]; lit_i " "; Eol;
       lit_i "{process"; dot; lit_i "env"; dot; lit_i "JIRA_PROJECT_KEY}-";
       plus digit; Eol].

Definition project_status_re : regex :=
  alts [then_later "project" " status"; then_later "status" " project";
        then_later "how" " project"; then_later "project" " health";
        then_later "project" " overview"].

Definition timeline_re : regex :=
  alts [lit_i "timeline"; lit_i "roadmap"; lit_i "schedule"; lit_i "deadline";
        lit_i "due date"; then_later "what" " due"; lit_i "calendar"; lit_i "when"].

Definition blockers_re : regex :=
  words_i ["block"; "blocker"; "blocking"; "stuck"; "impediment"; "obstacle"; "risk";
           "critical"; "prevent"].

Definition workload_re : regex :=
  alts [lit_i "workload"; lit_i "capacity"; lit_i "bandwidth"; lit_i "overloaded";
        lit_i "busy"; then_later "who" "working"; then_later "team" " work"].

Definition assigned_re : regex :=
  words_i ["assign"; "working on"; "responsible"; "owner"; "who is"; "who's"].

Definition listing_re : regex :=
  words_i ["list"; "show"; "find"; "search"; "get"; "all"; "open"; "closed"; "high"].

Definition item_re : regex := words_i ["task"; "issue"; "ticket"].

Definition comments_re : regex :=
  words_i ["comment"; "said"; "mentioned"; "update"; "notes"].

(** The patterns of the keyword fallback that differ from those above. *)
Definition blockers_fallback_re : regex :=
  words_i ["block"; "blocker"; "blocking"; "stuck"; "impediment"; "obstacle"; "risk";
           "critical"].
Definition status_fallback_re : regex :=
  words_i ["status"; "progress"; "update"; "how is"; "how's"; "overview"].
Definition listing_fallback_re : regex :=
  words_i ["list"; "show"; "find"; "search"; "get"; "all"].
Definition workload_fallback_re : regex :=
  words_i ["workload"; "capacity"; "bandwidth"; "overloaded"; "busy"].

(** The [catch] block: intent detection by keywords. *)
Definition keyword_fallback (query : string) : string :=
  if test timeline_re query then "TIMELINE"
  else if test blockers_fallback_re query then "BLOCKERS"
  else if test assigned_re query then "ASSIGNED_TASKS"
  else if test status_fallback_re query then "PROJECT_STATUS"
  else if test listing_fallback_re query then "TASK_LIST"
  else if test comments_re query then "COMMENTS"
  else if test workload_fallback_re query then "WORKLOAD"
  else if test (lit_i "sprint") query then "SPRINT"
  else "GENERAL".

(** [analyzeQueryIntent(query)].  [reply] is the outcome of the chat
    completion: [Some content] when the call returns a message whose content
    is the string [content], [None] when the [try] block throws (the call
    fails, or the reply has no such content). *)
Definition analyzeQueryIntent (key : string) (reply : option string)
    (query : string) : string :=
  if test sprint_re query then "SPRINT"
  else if test greeting_re (Js.trim query) then "GREETING"
  else if test (issue_key key) query && test details_re (Js.trim query)
  then "TASK_DETAILS"
  else if test project_status_re query then "PROJECT_STATUS"
  else if test timeline_re query then "TIMELINE"
  else if test blockers_re query then "BLOCKERS"
  else if test workload_re query then "WORKLOAD"
  else if test assigned_re query then "ASSIGNED_TASKS"
  else if test listing_re query && test item_re query then "TASK_LIST"
  else if test comments_re query then "COMMENTS"
  else match reply with
       | Some content => Js.trim content
       | None => keyword_fallback query
       end.

End Classifier.

(** ** The structured-query synthesizer ([generateJQL]) *)

Module Synthesizer.
Import Re.

Section WithKeys.
(** [key] is the project key read when a request is served; [tkey] is the
    one read when the module is loaded and the template table is built
    (before [dotenv.config()] runs). *)
Variables key tkey : string.

Definition project : string := "project = " +:+ tkey.
Definition not_done : string := Js.text " AND status not in (`Done`, `Closed`, `Resolved`)".

(** The table [safeJqlTemplates]. *)
Definition PROJECT_STATUS : string := project +:+ " ORDER BY updated DESC".
Definition TIMELINE : string :=
  project +:+ " AND duedate IS NOT EMPTY ORDER BY duedate ASC".
Definition TIMELINE_UPCOMING : string :=
  project +:+ " AND duedate >= now() ORDER BY duedate ASC".
Definition TIMELINE_OVERDUE : string :=
  project +:+ Js.text " AND duedate < now() AND status != `Done` ORDER BY duedate ASC".
Definition BLOCKERS : string :=
  project +:+ Js.text " AND (priority in (`High`, `Highest`) OR status = `Blocked` OR labels = `blocker`)"
          +:+ not_done.
Definition HIGH_PRIORITY : string :=
  project +:+ Js.text " AND priority in (`High`, `Highest`)" +:+ not_done.
Definition OPEN_TASKS : string :=
  project +:+ Js.text " AND status in (`Open`, `In Progress`, `To Do`, `Reopened`)".
Definition CLOSED_TASKS : string :=
  project +:+ Js.text " AND status in (`Done`, `Closed`, `Resolved`)".
Definition ASSIGNED_TASKS : string := project +:+ " AND assignee IS NOT EMPTY" +:+ not_done.
Definition UNASSIGNED_TASKS : string := project +:+ " AND assignee IS EMPTY" +:+ not_done.
Definition RECENT_UPDATES : string := project +:+ " ORDER BY updated DESC".
Definition CURRENT_SPRINT : string := project +:+ " AND sprint in openSprints()".
Definition MOST_RECENT_TASK : string := project +:+ " ORDER BY updated DESC".

(** [fallbackGenerateJQL(query, intent)] *)
Definition fallbackGenerateJQL (query intent : string) : string :=
  let query := Js.toLowerCase query in
  let has ws := test (words_i ws) query in
  if String.eqb intent "PROJECT_STATUS" then PROJECT_STATUS
  else if String.eqb intent "TIMELINE" then TIMELINE
  else if String.eqb intent "BLOCKERS" then BLOCKERS
  else if String.eqb intent "TASK_LIST" && has ["open"; "active"; "current"]
  then OPEN_TASKS
  else if String.eqb intent "TASK_LIST" && has ["closed"; "completed"; "done"; "resolved"]
  then CLOSED_TASKS
  else if String.eqb intent "TASK_LIST" && has ["high"; "important"; "critical"; "priority"]
  then HIGH_PRIORITY
  else if String.eqb intent "TASK_LIST" && has ["unassigned"; "without assignee"]
  then UNASSIGNED_TASKS
  else if String.eqb intent "ASSIGNED_TASKS" then ASSIGNED_TASKS
  else if String.eqb intent "SPRINT" then CURRENT_SPRINT
  else if String.eqb intent "WORKLOAD" then ASSIGNED_TASKS
  else if has ["timeline"; "deadline"; "due"; "schedule"] then TIMELINE
  else if has ["blocker"; "blocking"; "impediment"; "risk"] then BLOCKERS
  else if has ["high"; "priority"; "important"; "urgent"; "critical"] then HIGH_PRIORITY
  else if has ["open"; "active"; "current"] && has ["task"; "issue"; "ticket"]
  then OPEN_TASKS
  else if has ["closed"; "completed"; "done"; "resolved"] then CLOSED_TASKS
  else if has ["assign"; "work"; "responsible"] then ASSIGNED_TASKS
  else if has ["recent"; "latest"; "new"; "update"] then RECENT_UPDATES
  else if has ["sprint"] then CURRENT_SPRINT
  else PROJECT_STATUS.

(** The lookup of the standardized phrases at the head of [generateJQL]. *)
Definition canonical : list (string * string) :=
  [("show project status", PROJECT_STATUS);
   ("show project timeline", TIMELINE);
   ("show upcoming deadlines", TIMELINE_UPCOMING);
   ("show project blockers", BLOCKERS);
   ("show high risk items", HIGH_PRIORITY);
   ("show team workload", ASSIGNED_TASKS);
   ("show open tasks", OPEN_TASKS);
   ("show closed tasks", CLOSED_TASKS);
   ("show high priority tasks", HIGH_PRIORITY);
   ("show unassigned tasks", UNASSIGNED_TASKS);
   ("show recent updates", RECENT_UPDATES);
   ("show current sprint", CURRENT_SPRINT);
   ("show most recently updated task", MOST_RECENT_TASK)].

Definition lookup_canonical (query : string) : option string :=
  option_map snd (List.find (fun e => String.eqb query (fst e)) canonical).

(** [new RegExp(`^\\s*${KEY}-\\d+\\s*$`, 'i')] *)
Definition only_issue_key : regex :=
  seq [Bol; Star space; lit_i key; lit_i "-"; plus digit; Star space; Eol].

(** [new RegExp(`${KEY}-\\d+`, 'i')] *)
Definition containsIssueKey : regex := Classifier.issue_key key.

(** [`key = \x22${k}\x22`] *)
Definition key_equals (k : string) : string :=
  "key = " +:+ Js.str [Js.dquote] +:+ k +:+ Js.str [Js.dquote].

Definition recent_re : regex :=
  words_i ["recent"; "latest"; "most recent"; "last"; "newest"].
Definition edited_re : regex :=
  words_i ["edited"; "updated"; "modified"; "changed"; "task"].

(** [generateJQL(query, intent)].  [reply] is the outcome of the chat
    completion, as for the classifier: [None] when the call or the reading of
    its reply throws, which the [catch] block turns into the fallback. *)
Definition generateJQL (reply : option string) (query intent : string) : string :=
  match lookup_canonical query with
  | Some template => template
  | None =>
      if test only_issue_key query then key_equals (Js.trim query)
      else match match0 containsIssueKey query with
      | Some issueKey => key_equals issueKey
      | None =>
          if String.eqb intent "CONVERSATION" || String.eqb intent "GREETING"
          then RECENT_UPDATES
          else if String.eqb intent "SPRINT" then CURRENT_SPRINT
          else if String.eqb intent "PROJECT_STATUS" then PROJECT_STATUS
          else if test recent_re query && test edited_re query then MOST_RECENT_TASK
          else match reply with
               | Some content => Sanitizer.sanitizeJQL key (Some (Js.trim content))
               | None => fallbackGenerateJQL query intent
               end
      end
  end.

End WithKeys.
End Synthesizer.

(** ** The rich-document text extractor ([extractTextFromADF]) *)

Module Adf.

(** Values handed to the extractor.  A number is held as its two
    observations here, whether it is truthy and the string it converts to.
    An object is seen through the three properties the extractor reads; a
    property it does not have reads [Undefined], and it converts to a string
    the way a plain object does. *)
#[warnings="-register-all"]
Inductive value : Type :=
| Undefined
| Null
| Bool (b : bool)
| Num (truthy : bool) (shown : string)
| Str (s : string)
| Arr (items : list value)
| Obj (text content type : value).

(** A call either completes or throws a [TypeError]. *)
Inductive outcome (A : Type) : Type :=
| Done (a : A)
| TypeError.
Arguments Done {A} a.
Arguments TypeError {A}.

Definition and_then {A B : Type} (m : outcome A) (f : A -> outcome B) : outcome B :=
  match m with Done a => f a | TypeError => TypeError end.
Notation "x <- m ;; k" := (and_then m (fun x => k))
  (at level 100, m at next level, right associativity).

Fixpoint mapM {A B : Type} (f : A -> outcome B) (l : list A) : outcome (list B) :=
  match l with
  | [] => Done []
  | a :: t => b <- f a ;; bs <- mapM f t ;; Done (b :: bs)
  end.

Definition truthy (v : value) : bool :=
  match v with
  | Undefined | Null => false
  | Bool b => b
  | Num t _ => t
  | Str s => negb (String.eqb s EmptyString)
  | Arr _ | Obj _ _ _ => true
  end.

(** Reading a property: of [undefined] and [null] it throws; of a value that
    has no such property it gives [undefined]. *)
Definition prop_text (v : value) : outcome value :=
  match v with
  | Undefined | Null => TypeError
  | Obj t _ _ => Done t
  | _ => Done Undefined
  end.
Definition prop_content (v : value) : outcome value :=
  match v with
  | Undefined | Null => TypeError
  | Obj _ c _ => Done c
  | _ => Done Undefined
  end.
Definition prop_type (v : value) : outcome value :=
  match v with
  | Undefined | Null => TypeError
  | Obj _ _ t => Done t
  | _ => Done Undefined
  end.

Definition isArray (v : value) : bool :=
  match v with Arr _ => true | _ => false end.

(** [v === s] for a string [s]. *)
Definition is_str (s : string) (v : value) : bool :=
  match v with Str t => String.eqb t s | _ => false end.

Definition concat_with (sep : string) (l : list string) : string :=
  match l with
  | [] => EmptyString
  | s :: t => fold_left (fun acc u => acc +:+ sep +:+ u) t s
  end.

(** Conversion to a string, as [+] with a string operand performs it. *)
Fixpoint to_string (v : value) : string :=
  match v with
  | Undefined => "undefined"
  | Null => "null"
  | Bool true => "true"
  | Bool false => "false"
  | Num _ shown => shown
  | Str s => s
  | Arr items =>
      concat_with ","
        (map (fun e => match e with
                       | Undefined | Null => EmptyString
                       | _ => to_string e
                       end) items)
  | Obj _ _ _ => "[object Object]"
  end.

(** [values.join('')] *)
Definition join_empty (l : list value) : string :=
  concat_with EmptyString
    (map (fun e => match e with
                   | Undefined | Null => EmptyString
                   | _ => to_string e
                   end) l).

(** [x.map(f)] and [x.forEach(f)] exist on arrays only. *)
Definition elements (v : value) : outcome (list value) :=
  match v with Arr items => Done items | _ => TypeError end.

(** The inner function [processNode]. *)
Fixpoint processNode (node : value) : outcome value :=
  match node with
  | Undefined | Null => TypeError
  | Obj text content _ =>
      if truthy text then Done text
      else match content with
           | Arr items =>
               parts <- (fix each (l : list value) : outcome (list value) :=
                           match l with
                           | [] => Done []
                           | n :: t =>
                               b <- processNode n ;; bs <- each t ;; Done (b :: bs)
                           end) items ;;
               Done (Str (join_empty parts))
           | _ => Done (Str EmptyString)
           end
  | _ => Done (Str EmptyString)
  end.

(** [item.content.map(processNode).join('')] *)
Definition joined_nodes (content : value) : outcome string :=
  items <- elements content ;;
  parts <- mapM processNode items ;;
  Done (join_empty parts).

Definition newline : string := Js.str [Js.linefeed].
Definition bullet : string := "• ".

(** One turn of the callback given to [block.content.forEach]. *)
Definition list_item (result : string) (item : value) : outcome string :=
  ty <- prop_type item ;;
  content <- prop_content item ;;
  if is_str "listItem" ty && truthy content
  then text <- joined_nodes content ;;
       Done (result +:+ bullet +:+ text +:+ newline)
  else Done result.

Fixpoint foldM {A B : Type} (f : A -> B -> outcome A) (acc : A) (l : list B)
    : outcome A :=
  match l with
  | [] => Done acc
  | b :: t => acc' <- f acc b ;; foldM f acc' t
  end.

(** One turn of the loop over [adf.content]. *)
Definition block_step (result : string) (block : value) : outcome string :=
  ty <- prop_type block ;;
  if is_str "paragraph" ty || is_str "text" ty
  then v <- processNode block ;;
       Done (result +:+ to_string v +:+ newline)
  else if is_str "bulletList" ty || is_str "orderedList" ty
  then content <- prop_content block ;;
       if truthy content
       then items <- elements content ;; foldM list_item result items
       else Done result
  else content <- prop_content block ;;
       if truthy content
       then text <- joined_nodes content ;;
            Done (result +:+ text +:+ newline)
       else Done result.

Definition extractTextFromADF (adf : value) : outcome string :=
  if negb (truthy adf) then Done EmptyString
  else content <- prop_content adf ;;
       match content with
       | Arr blocks =>
           result <- foldM block_step EmptyString blocks ;;
           Done (Js.trim result)
       | _ => Done EmptyString
       end.

End Adf.

(** ** The request handler ([app.post('/api/query', ...)]) *)

Module Handler.
Import Re.

(** What the handler reads of an issue record. *)
Record Issue : Type := {
  issue_key : string;
  summary : string;
  status_name : option string;      (* [fields.status?.name] *)
  assignee_name : option string     (* [fields.assignee?.displayName] *)
}.

(** The body of a search reply, [{ total, issues }]; [issues] may be missing. *)
Record SearchData : Type := { total : nat; issues : option (list Issue) }.

(** A remote call completes with a value or throws. *)
Inductive completion (A : Type) : Type :=
| Return (a : A)
| Throw.
Arguments Return {A} a.
Arguments Throw {A}.

(** The collaborators of one request.  Every call site below is reached at
    most once while a request is served, so one outcome per site describes
    any behaviour of the remote services.  The aggregate views, the sprint
    and single-issue blocks and [generateResponse] each catch their own
    failures and produce a text that depends on the generative model and on
    the formatting of dates; here each is the outcome it ends with. *)
Record World : Type := {
  (* the aggregate views: the message sent, [None] when the view returns null *)
  most_recent_task : option string;
  status_overview : option string;
  project_timeline : option string;
  team_workload : option string;
  (* the chat completion of [analyzeQueryIntent] *)
  classifier_reply : option string;
  (* the sprint block: the message sent and whether it was stored; [None]
     when the block ends in its catch clause *)
  sprint_view : option (string * bool);
  (* the single-issue block, likewise *)
  issue_view : option string;
  (* the search and the rendering of the conversational block *)
  recent_search : completion (option SearchData);
  conversation_reply : completion string;
  (* the chat completion of [generateJQL] *)
  synthesizer_reply : option string;
  (* the search, its retry, and [generateResponse] *)
  search : completion (option SearchData);
  retry_search : completion (option SearchData);
  rendered : completion string;
  (* the last-resort search *)
  basic_search : completion (option SearchData);
  (* [Math.random()], one draw per pool *)
  greeting_draw : nat;
  conversation_draw : nat;
  opening_draw : nat;
  recent_draw : nat;
  friendly_draw : nat
}.

(** [pool[Math.floor(Math.random() * pool.length)]] *)
Definition pick (draw : nat) (pool : list string) : string :=
  nth (draw mod length pool) pool EmptyString.

(** An entry of [conversationMemory]. *)
Record Session : Type := {
  queries : list string;
  intents : list string;
  lastResponse : option string;
  note : option string
}.

Definition fresh : Session :=
  {| queries := []; intents := []; lastResponse := None; note := None |}.

(** [list.push(x); if (list.length > 10) list.shift();] *)
Definition push_capped (l : list string) (x : string) : list string :=
  let l' := l ++ [x] in
  if 10 <? length l' then tl l' else l'.

(** One remote search issued by the execution controller. *)
Record Call : Type := { call_jql : string; maxResults : nat; fields : string }.

Record State : Type := {
  memory : gmap string Session;
  calls : list Call
}.

(** What leaves the handler: the JSON sent, with its HTTP status.  [rawData]
    is the search reply of steps 4 and 5; the raw data an aggregate view
    attaches to its answer is not represented. *)
Record Response : Type := {
  status : nat;
  message : string;
  rawData : option SearchData;
  meta_intent : option string;
  meta_jql : option string
}.

Inductive Outcome : Type :=
| Sent (r : Response)
| Rejected.      (* the handler's promise rejects before anything is sent *)

(** Computations of the [try] block. *)
Definition M (A : Type) : Type := State -> completion A * State.

Definition ret {A : Type} (a : A) : M A := fun st => (Return a, st).
Definition throw {A : Type} : M A := fun st => (Throw, st).
Definition bind {A B : Type} (m : M A) (f : A -> M B) : M B :=
  fun st => match m st with
            | (Return a, st') => f a st'
            | (Throw, st') => (Throw, st')
            end.
Notation "x <- m ;; k" := (bind m (fun x => k))
  (at level 100, m at next level, right associativity).
Notation "m ;;; k" := (bind m (fun _ => k))
  (at level 100, right associativity).

Definition lift {A : Type} (c : completion A) : M A := fun st => (c, st).

(** [conversationMemory[sid]] is an own entry wherever these run. *)
Definition session (sid : string) : M Session :=
  fun st => match memory st !! sid with
            | Some s => (Return s, st)
            | None => (Throw, st)
            end.
Definition update (sid : string) (f : Session -> Session) : M unit :=
  fun st => match memory st !! sid with
            | Some s => (Return tt, {| memory := <[sid := f s]> (memory st);
                                       calls := calls st |})
            | None => (Throw, st)
            end.
Definition log (c : Call) : M unit :=
  fun st => (Return tt, {| memory := memory st; calls := calls st ++ [c] |}).

Definition store_intent (i : string) (s : Session) : Session :=
  {| queries := queries s; intents := push_capped (intents s) i;
     lastResponse := lastResponse s; note := note s |}.
Definition store_query (q : string) (s : Session) : Session :=
  {| queries := push_capped (queries s) q; intents := intents s;
     lastResponse := lastResponse s; note := note s |}.
Definition store_response (m : string) (s : Session) : Session :=
  {| queries := queries s; intents := intents s;
     lastResponse := Some m; note := note s |}.
Definition set_note (n : option string) (s : Session) : Session :=
  {| queries := queries s; intents := intents s;
     lastResponse := lastResponse s; note := n |}.

Definition nl : string := Js.str [Js.linefeed].
Definition or_else (o : option string) (d : string) : string :=
  match o with
  | Some s => if String.eqb s EmptyString then d else s
  | None => d
  end.
Definition status_of (i : Issue) : string := or_else (status_name i) "Unknown".
Definition assignee_of (i : Issue) : string := or_else (assignee_name i) "Unassigned".

(** A plain object used as a dictionary of lists, its entries kept in the
    order [Object.entries] lists them. *)
Definition dict : Type := list (string * list Issue).

Definition dict_get (d : dict) (k : string) : option (list Issue) :=
  option_map snd (List.find (fun e => String.eqb (fst e) k) d).

Fixpoint dict_push (d : dict) (k : string) (i : Issue) : dict :=
  match d with
  | [] => [(k, [i])]
  | (k', l) :: rest =>
      if String.eqb k' k then (k', l ++ [i]) :: rest
      else match Js.array_index k, Js.array_index k' with
           | Some n, Some n' =>
               if (n <? n')%N then (k, [i]) :: d else (k', l) :: dict_push rest k i
           | Some _, None => (k, [i]) :: d
           | None, _ => (k', l) :: dict_push rest k i
           end
  end.

(** [if (!d[k]) d[k] = []; d[k].push(issue);] for each issue. *)
Fixpoint group_by (f : Issue -> string) (l : list Issue) (d : dict)
    : completion dict :=
  match l with
  | [] => Return d
  | i :: rest =>
      match dict_get d (f i) with
      | None => if Js.inherited (f i) then Throw
                else group_by f rest (dict_push d (f i) i)
      | Some _ => group_by f rest (dict_push d (f i) i)
      end
  end.

Definition concat_map {A : Type} (f : A -> string) (l : list A) : string :=
  fold_left (fun acc a => acc +:+ f a) l EmptyString.

Definition show (n : nat) : string := pretty n.

Definition line_full (i : Issue) : string :=
  "• " +:+ issue_key i +:+ ": " +:+ summary i +:+ " (" +:+ status_of i
  +:+ ", Assigned to: " +:+ assignee_of i +:+ ")" +:+ nl.

Definition recovery_note : string :=
  "I've found some information that might help with your question:".

(** The fallback text of the branch that carries the note. *)
Definition noted_fallback (l : list Issue) : string :=
  if length l =? 0 then "I couldn't find any issues matching your criteria."
  else "Here are " +:+ show (min 5 (length l)) +:+ " recent items:" +:+ nl +:+ nl
       +:+ concat_map line_full (firstn 5 l)
       +:+ (if 5 <? length l
            then nl +:+ "... and " +:+ show (length l - 5) +:+ " more items."
            else EmptyString).

Definition group_text (line : Issue -> string) (e : string * list Issue) : string :=
  "**" +:+ fst e +:+ "** (" +:+ show (length (snd e)) +:+ " issues):" +:+ nl
  +:+ concat_map line (firstn 3 (snd e))
  +:+ (if 3 <? length (snd e)
       then "... and " +:+ show (length (snd e) - 3) +:+ " more." +:+ nl
       else EmptyString)
  +:+ nl.

Definition openings (n : nat) : list string :=
  ["I found " +:+ show n +:+ " items related to your query.";
   "Here's what I found about your question:";
   "I've located " +:+ show n +:+ " relevant issues:";
   "Here's some information that might help:"].

(** The fallback text of the branch without a note. *)
Definition plain_fallback (w : World) (intent : string) (l : list Issue)
    : completion string :=
  if length l =? 0
  then Return "I couldn't find any issues matching your criteria. Would you like to try a different search?"
  else
    let opening := pick (opening_draw w) (openings (length l)) +:+ nl +:+ nl in
    if String.eqb intent "ASSIGNED_TASKS" || String.eqb intent "WORKLOAD"
    then match group_by assignee_of l [] with
         | Return d =>
             Return (opening +:+ concat_map (group_text (fun i =>
               "• " +:+ issue_key i +:+ ": " +:+ summary i +:+ " (" +:+ status_of i
               +:+ ")" +:+ nl)) d)
         | Throw => Throw
         end
    else match group_by status_of l [] with
         | Return d =>
             Return (opening +:+ concat_map (group_text (fun i =>
               "• " +:+ issue_key i +:+ ": " +:+ summary i +:+ " (Assigned to: "
               +:+ assignee_of i +:+ ")" +:+ nl)) d)
         | Throw => Throw
         end.

(** [response.data.issues], read where its length is taken next. *)
Definition issues_of (data : option SearchData) : completion (list Issue) :=
  match data with
  | Some d => match issues d with Some l => Return l | None => Throw end
  | None => Throw
  end.

Definition greetingResponses : list string :=
  [Js.text "Hi there! I'm your Jira assistant. I can help you with:\n\n• Finding tasks and issues\n• Checking project status\n• Understanding who's working on what\n• Tracking blockers and high-priority items\n• Monitoring deadlines and timelines\n\nJust ask me a question about your Jira project!";
   Js.text "Hello! I'm here to help you navigate your Jira project. You can ask me about:\n\n• Open and closed tasks\n• Task assignments and ownership\n• Project timelines and deadlines\n• High priority issues and blockers\n• Recent updates and changes\n\nWhat would you like to know about your project today?";
   Js.text "Hey! I'm your Jira chatbot assistant. Some things you can ask me:\n\n• `What's the status of our project?`\n• `Show me open bugs assigned to Sarah`\n• `Any blockers in the current sprint?`\n• `Tell me about NIHK-123`\n• `What's due this week?`\n\nHow can I help you today?"].

Definition conversationalResponses : list string :=
  ["I'm here to help with your Jira project. Could you ask me something specific about your tasks or project status?";
   "I'd be happy to help you with your Jira project. What would you like to know about your issues or project?";
   "I can provide information about your Jira tasks, assignments, deadlines, and more. What are you looking for?";
   "I'm your Jira assistant. I can tell you about task status, assignments, priorities, and more. What would you like to know?"].

Definition relevantInfo : list string :=
  ["I couldn't find exactly what you were looking for, but here are some recent items that might be helpful:";
   "Let me show you some recent activity in the project that might be relevant:";
   "While I couldn't answer your specific question, here are some recent updates in the project:";
   "I found some recent project activity that might interest you:"].

Definition friendlyResponses : list string :=
  ["I'm focusing on active issues in the project right now. Would you like to see recent updates or high priority items?";
   "I'd be happy to help you explore the project data. Could you ask me about project status, tasks, deadlines, or team workload?";
   "Let me help you navigate your Jira project. You can ask me about project status, tasks, deadlines, team assignments, and more.";
   "I'm here to help you with your Jira project information. What would you like to know about your tasks or project status?"].

Definition json (m : string) (raw : option SearchData) (intent : option string)
    (jql : option string) : Response :=
  {| status := 200; message := m; rawData := raw; meta_intent := intent;
     meta_jql := jql |}.
Definition error_json (code : nat) (m : string) : Response :=
  {| status := code; message := m; rawData := None; meta_intent := None;
     meta_jql := None |}.

Section WithKeys.
Variables key tkey : string.

Definition base_fields : string :=
  "summary,status,assignee,priority,created,updated,duedate".

Definition fields_for (intent : string) : string :=
  base_fields
  +:+ (if String.eqb intent "COMMENTS" then ",comment" else EmptyString)
  +:+ (if String.eqb intent "TIMELINE" then ",duedate,created,updated" else EmptyString)
  +:+ (if String.eqb intent "BLOCKERS" then ",issuelinks,labels" else EmptyString)
  +:+ (if String.eqb intent "TASK_DETAILS" then ",comment,description,issuelinks,labels"
       else EmptyString)
  +:+ (if String.eqb intent "WORKLOAD" then ",assignee" else EmptyString)
  +:+ (if String.eqb intent "SPRINT" then ",sprint" else EmptyString).

Definition max_results (intent : string) : nat :=
  if String.eqb intent "TASK_LIST" || String.eqb intent "ASSIGNED_TASKS"
  then 20 else 50.

(** The intent-to-template table of the retry. *)
Definition simplifiedJQL (query intent : string) : string :=
  if String.eqb intent "PROJECT_STATUS" then Synthesizer.PROJECT_STATUS tkey
  else if String.eqb intent "TIMELINE" then Synthesizer.TIMELINE tkey
  else if String.eqb intent "BLOCKERS" || String.eqb intent "HIGH_PRIORITY"
  then Synthesizer.HIGH_PRIORITY tkey
  else if String.eqb intent "TASK_LIST" && test (words_i ["open"; "active"]) query
  then Synthesizer.OPEN_TASKS tkey
  else if String.eqb intent "TASK_LIST"
          && test (words_i ["closed"; "done"; "completed"]) query
  then Synthesizer.CLOSED_TASKS tkey
  else if String.eqb intent "ASSIGNED_TASKS" || String.eqb intent "WORKLOAD"
  then Synthesizer.ASSIGNED_TASKS tkey
  else if String.eqb intent "SPRINT" then Synthesizer.CURRENT_SPRINT tkey
  else "project = " +:+ key +:+ " ORDER BY updated DESC".

Definition has_issues (data : option SearchData) : bool :=
  match data with
  | Some d => match issues d with Some _ => true | None => false end
  | None => false
  end.

(** Step 4: the search, and on its failure one retry with the simplified
    query, which leaves the note in the session. *)
Definition run_search (w : World) (sid query intent jql : string)
    : M (option SearchData) :=
  log {| call_jql := jql; maxResults := max_results intent;
         fields := fields_for intent |} ;;;
  match search w with
  | Return data => ret data
  | Throw =>
      log {| call_jql := simplifiedJQL query intent;
             maxResults := max_results intent; fields := fields_for intent |} ;;;
      data <- lift (retry_search w) ;;
      (if has_issues data then update sid (set_note (Some recovery_note))
       else ret tt) ;;;
      ret data
  end.

(** Step 5: the rendering, with the note put first when there is one. *)
Definition render (w : World) (sid intent : string) (data : option SearchData)
    : M string :=
  s <- session sid ;;
  match note s with
  | Some n =>
      if String.eqb n EmptyString
      then match rendered w with
           | Return m => ret m
           | Throw => l <- lift (issues_of data) ;; lift (plain_fallback w intent l)
           end
      else
        update sid (set_note None) ;;;
        match rendered w with
        | Return base => ret (n +:+ nl +:+ nl +:+ base)
        | Throw =>
            l <- lift (issues_of data) ;;
            ret (n +:+ nl +:+ nl +:+ noted_fallback l)
        end
  | None =>
      match rendered w with
      | Return m => ret m
      | Throw => l <- lift (issues_of data) ;; lift (plain_fallback w intent l)
      end
  end.

(** Steps 2 to 5. *)
Definition execute (w : World) (sid query intent : string) : M Response :=
  let jql := Synthesizer.generateJQL key tkey (synthesizer_reply w) query intent in
  if String.eqb jql EmptyString
  then ret (error_json 400 "Failed to generate a valid query.")
  else
    data <- run_search w sid query intent jql ;;
    formatted <- render w sid intent data ;;
    update sid (store_response formatted) ;;;
    ret (json formatted data (Some intent) (Some jql)).

(** An aggregate view that answered: it stores its message and sends it. *)
Definition answered (sid m intent : string) : M Response :=
  update sid (store_response m) ;;;
  ret (json m None (Some intent) None).

(** The part of the [try] block that follows the aggregate views. *)
Definition classify_and_answer (w : World) (sid query : string) : M Response :=
  let intent := Classifier.analyzeQueryIntent key (classifier_reply w) query in
  update sid (store_intent intent) ;;;
  if String.eqb intent "GREETING"
  then answered sid (pick (greeting_draw w) greetingResponses) "GREETING"
  else
    let after_sprint :=
      let after_issue :=
        if String.eqb intent "CONVERSATION"
        then match recent_search w, conversation_reply w with
             | Return _, Return m => answered sid m "CONVERSATION"
             | _, _ =>
                 answered sid (pick (conversation_draw w) conversationalResponses)
                          "CONVERSATION"
             end
        else execute w sid query intent in
      if test (Classifier.issue_key key) query
      then match issue_view w with
           | Some m => answered sid m intent
           | None => after_issue
           end
      else after_issue in
    if String.eqb intent "SPRINT"
    then match sprint_view w with
         | Some (m, true) => answered sid m "SPRINT"
         | Some (m, false) => ret (json m None (Some "SPRINT") None)
         | None => after_sprint
         end
    else after_sprint.

(** The [try] block. *)
Definition pipeline (w : World) (sid originalQuery : string) : M Response :=
  let query := Normalizer.preprocessQuery key originalQuery in
  let view (o : option string) (intent : string) (otherwise : M Response) :=
    match o with
    | Some m => answered sid m intent
    | None => otherwise
    end in
  let rest := classify_and_answer w sid query in
  if String.eqb query "show most recently updated task"
  then view (most_recent_task w) "TASK_DETAILS" rest
  else if String.eqb query "show project status"
  then view (status_overview w) "PROJECT_STATUS" rest
  else if String.eqb query "show project timeline"
          || String.eqb query "show upcoming deadlines"
  then view (project_timeline w) "TIMELINE" rest
  else if String.eqb query "show team workload"
  then view (team_workload w) "WORKLOAD" rest
  else rest.

Definition rephrase : string :=
  "Could you try rephrasing your question? I can help you with project status, tasks, deadlines, and team workload.".

(** The outer [catch] block.  No catch block of the handler reads the error
    it catches, which is why [Throw] carries none. *)
Definition last_resort (w : World) : Response :=
  let friendly :=
    json (pick (friendly_draw w) friendlyResponses) None (Some "GENERAL") None in
  match basic_search w with
  | Return (Some {| issues := Some (i :: l) |}) =>
      json (pick (recent_draw w) relevantInfo +:+ nl +:+ nl
            +:+ concat_map line_full (i :: l) +:+ nl +:+ nl +:+ rephrase)
           None (Some "GENERAL") None
  | _ => friendly
  end.

(** A value of the JSON body.  A number is held as the text it converts
    to. *)
#[warnings="-register-all"]
Inductive body_value : Type :=
| JNull
| JBool (b : bool)
| JNum (shown : string)
| JStr (s : string)
| JArr (items : list body_value)
| JObj (members : list (string * body_value)).

(** The property name a value converts to where it indexes an object, as
    [sessionId] does in [conversationMemory[sessionId]]; [None] when the
    conversion throws.  An object converts through its [toString]: the one
    it inherits gives [[object Object]], and an own member of that name,
    which no JSON value makes callable, leaves only [valueOf], which gives
    no primitive.  An array joins its converted elements with commas, a
    [null] element giving the empty text. *)
Fixpoint property_key (v : body_value) : option string :=
  match v with
  | JNull => Some "null"
  | JBool b => Some (if b then "true" else "false")
  | JNum shown => Some shown
  | JStr s => Some s
  | JArr items =>
      (fix join (l : list body_value) (first : bool) : option string :=
         match l with
         | [] => Some EmptyString
         | e :: t =>
             match match e with JNull => Some EmptyString | _ => property_key e end,
                   join t false with
             | Some a, Some b => Some ((if first then EmptyString else ",") +:+ a +:+ b)
             | _, _ => None
             end
         end) items true
  | JObj members =>
      if existsb (fun m => String.eqb (fst m) "toString") members then None
      else Some "[object Object]"
  end.

(** The request body, [{ query, sessionId }], with any JSON value for
    [sessionId]; an absent [query] reads as the empty string here, an absent
    [sessionId] is [None]. *)
Record Body : Type := { body_query : string; body_sessionId : option body_value }.

(** The body once the session identifier is the property name it converts
    to: what the handler works with from its first read of the store on. *)
Record Request : Type := { query : string; sessionId : option string }.

(** [!!v] for a text that may be missing. *)
Definition truthy (o : option string) : bool :=
  match o with
  | Some s => negb (String.eqb s EmptyString)
  | None => false
  end.

(** The store is a plain object, and a reset with the session identifier
    [__proto__] replaces its prototype by a new session object (the
    assignment runs the setter of [__proto__]).  No assignment gives the
    store an own property of that name, so the entry of [memory] under
    [__proto__] stands for the prototype once it is replaced:
    [conversationMemory[\x22__proto__\x22]] reads that object, and every
    other name reads its own entry first.

    [inherited_in mem k]: a name [k] without own entry reads as a truthy
    value that is no session, a property of [Object.prototype] or a truthy
    member of the replaced prototype (its two arrays, its last response
    and its note when they are non-empty texts). *)
Definition inherited_in (mem : gmap string Session) (k : string) : bool :=
  Js.inherited k
  || match mem !! "__proto__" with
     | Some p =>
         String.eqb k "queries" || String.eqb k "intents"
         || (String.eqb k "lastResponse" && truthy (lastResponse p))
         || (String.eqb k "note" && truthy (note p))
     | None => false
     end.

(** The lines before the [try] block: the session is created when
    [conversationMemory[sid]] is falsy, then the query is pushed.  [None]
    when the push throws: an inherited property is truthy, but has no
    [queries]. *)
Definition open_session (mem : gmap string Session) (sid q : string)
    : option (gmap string Session) :=
  match mem !! sid with
  | Some s => Some (<[sid := store_query q s]> mem)
  | None => if inherited_in mem sid then None
            else Some (<[sid := store_query q fresh]> mem)
  end.

Definition handler (w : World) (mem : gmap string Session) (req : Request)
    : Outcome * State :=
  if String.eqb (query req) EmptyString
  then (Sent (error_json 400 "Query is required"), {| memory := mem; calls := [] |})
  else
    let sid := match sessionId req with Some s => s | None => "default" end in
    match open_session mem sid (query req) with
    | None => (Rejected, {| memory := mem; calls := [] |})
    | Some mem' =>
        match pipeline w sid (query req) {| memory := mem'; calls := [] |} with
        | (Return r, st) => (Sent r, st)
        | (Throw, st) => (Sent (last_resort w), st)
        end
    end.

(** The callback of the route on any body.  The query is tested first; the
    session identifier is converted where the store is first read, before
    the [try] block, and a conversion that throws rejects the promise of
    the callback. *)
Definition post_query (w : World) (mem : gmap string Session) (body : Body)
    : Outcome * State :=
  if String.eqb (body_query body) EmptyString
  then (Sent (error_json 400 "Query is required"), {| memory := mem; calls := [] |})
  else
    match body_sessionId body with
    | None => handler w mem {| query := body_query body; sessionId := None |}
    | Some v =>
        match property_key v with
        | Some k => handler w mem {| query := body_query body; sessionId := Some k |}
        | None => (Rejected, {| memory := mem; calls := [] |})
        end
    end.

End WithKeys.
End Handler.

(** ** The time frame of the timeline view ([getProjectTimeline]) *)

Module Timeline.
Import Re.

(** [/past|previous|last|recent/i] *)
Definition past_re : regex := words_i ["past"; "previous"; "last"; "recent"].
(** [/overdue|late|miss(ed)?|behind/i] *)
Definition overdue_re : regex :=
  alts [lit_i "overdue"; lit_i "late"; seq [lit_i "miss"; opt (Grp 1 (lit_i "ed"))];
        lit_i "behind"].
(** [/this week|current week/i] *)
Definition this_week_re : regex := words_i ["this week"; "current week"].
(** [/next week/i] *)
Definition next_week_re : regex := lit_i "next week".
(** [/this month|current month/i] *)
Definition this_month_re : regex := words_i ["this month"; "current month"].

(** The first statement of the function: the values of [timeframeDesc] and
    [jql] when the search is issued. *)
Definition timeline_query (key query : string) : string * string :=
  let project := "project = " +:+ key in
  if test past_re query
  then ("past",
        project +:+ " AND duedate <= now() AND duedate >= -30d ORDER BY duedate DESC")
  else if test overdue_re query
  then ("overdue",
        project +:+ Js.text " AND duedate < now() AND status != `Done` ORDER BY duedate ASC")
  else if test this_week_re query
  then ("this week",
        project +:+ " AND duedate >= startOfWeek() AND duedate <= endOfWeek() ORDER BY duedate ASC")
  else if test next_week_re query
  then ("next week",
        project +:+ " AND duedate > endOfWeek() AND duedate <= endOfWeek(1) ORDER BY duedate ASC")
  else if test this_month_re query
  then ("this month",
        project +:+ " AND duedate >= startOfMonth() AND duedate <= endOfMonth() ORDER BY duedate ASC")
  else ("upcoming", project +:+ " AND duedate >= now() ORDER BY duedate ASC").

End Timeline.

(** ** The synthesizer of the server without conversation memory *)

Module Simple.
Import Re.

(** [process.env.JIRA_PROJECT_KEY || \x22NIHK\x22]; [env] is the variable,
    [None] when it is not set. *)
Definition PROJECT_KEY (env : option string) : string :=
  match env with
  | Some s => if String.eqb s EmptyString then "NIHK" else s
  | None => "NIHK"
  end.

(** [generateJQL(query)] of that server: the reply of the generative model
    is returned trimmed, as it is, and the [catch] block returns the bare
    project clause. *)
Definition generateJQL (env reply : option string) (query : string) : string :=
  let key := PROJECT_KEY env in
  if test (Synthesizer.only_issue_key key) query
  then Synthesizer.key_equals (Js.trim query)
  else match match0 (Classifier.issue_key key) query with
       | Some issueKey => Synthesizer.key_equals issueKey
       | None =>
           match reply with
           | Some content => Js.trim content
           | None => "project = " +:+ key
           end
       end.

End Simple.

(** ** The reset of a conversation ([app.post('/api/reset-conversation', ...)]) *)

Module Reset.
Import Handler.

(** [reset_conversation mem sessionId] is the store after the request;
    the reply sent is the same for every request.  An entry that reads as a
    truthy value, own or inherited, is assigned a new session, which makes
    it an own entry.  For the name [__proto__] the value read is the
    prototype of the store, always truthy, and the assignment replaces that
    prototype by the new session: the entry under [__proto__] (see
    [Handler.inherited_in]). *)
Definition reset_conversation (mem : gmap string Session) (sessionId : option string)
    : option (gmap string Session) :=
  let sid := match sessionId with Some s => s | None => "default" end in
  match mem !! sid with
  | Some _ => Some (<[sid := fresh]> mem)
  | None => if inherited_in mem sid then Some (<[sid := fresh]> mem) else Some mem
  end.

End Reset.

(** * The notions the properties are stated with *)

Import Re.

(** ** Queries of the scenarios *)

(** A query without a project clause, as the generative model may give it. *)
Definition unscoped : string := "status = Open".

(** A query that holds the quoted project clause from the start. *)
Definition scoped : string := Js.text "project = `NIHK` AND x = 1".

(** The scenario of the comma: two conditions separated by a bare comma. *)
Definition comma_separated : string := Js.text "status = `Open`, assignee = `Jo`".

(** ** The comma pass *)

Definition no_closing (l : list ascii) : bool :=
  forallb (fun c => negb (Ascii.eqb ")"%char c)) l.

(** Every comma turned into [ AND ], the rest as it is. *)
Definition commas_to_and (l : list ascii) : list ascii :=
  flat_map (fun c => if Ascii.eqb ","%char c then Js.chars " AND " else [c]) l.

(** ** The matcher on the pattern shapes of this program *)

(** A run of single-character classes consumes exactly that many code
    units, each in its class. *)
Fixpoint eat (ps : list (ascii -> bool)) (x : pos) : option pos :=
  match ps with
  | [] => Some x
  | p :: ps' =>
      match after x with
      | a :: t => if p a then eat ps' (Pos (a :: before x) t) else None
      | [] => None
      end
  end.

(** The iteration of [r*], named. *)
Definition star_iter (r1 : regex) (k : pos -> caps -> option (pos * caps)) :=
  fix iter (fuel : nat) (x : pos) (c : caps) {struct fuel} : option (pos * caps) :=
    match fuel with
    | 0 => k x c
    | S f =>
        match run r1 x c (fun y d =>
                if length (after y) <? length (after x)
                then iter f y d else None) with
        | Some v => Some v
        | None => k x c
        end
    end.

(** [p*] followed by [k]: the longest run first, then shorter ones. *)
Fixpoint greedy (p : ascii -> bool) (k : pos -> caps -> option (pos * caps))
    (c : caps) (pre suf : list ascii) : option (pos * caps) :=
  match suf with
  | a :: t =>
      if p a
      then match greedy p k c (a :: pre) t with
           | Some v => Some v
           | None => k (Pos pre suf) c
           end
      else k (Pos pre suf) c
  | [] => k (Pos pre []) c
  end.

(** ** The normalizer *)

Definition is_punctuation : ascii -> bool := one_of ".,!?;".

(** The cleanup in the words of the specification: the punctuation at the
    end of the text goes, the rest stays as it is. *)
Fixpoint drop_punctuation (l : list ascii) : list ascii :=
  match l with
  | a :: t => if is_punctuation a then drop_punctuation t else l
  | [] => []
  end.
Definition strip_trailing_punctuation (s : string) : string :=
  Js.str (rev (drop_punctuation (rev (Js.chars s)))).
Definition cleanup_as_specified (query : string) : string :=
  strip_trailing_punctuation (Js.toLowerCase (Js.trim query)).

(** ** The issue-key pattern *)

(** A project key made of letters, digits and underscores. *)
Definition plain (key : string) : bool := forallb Js.is_word (Js.chars key).

(** The classes [KEY-\d] of the issue-key pattern, one per code unit. *)
Definition key_classes (key : string) : list (ascii -> bool) :=
  map Js.eq_ci (Js.chars key) ++ [Js.eq_ci "-"%char; Js.is_digit].

(** ** The handler *)

Module Notions.
Import Handler.

(** The updates the [try] block applies to a session. *)
Inductive session_update : (Session -> Session) -> Prop :=
| upd_intent i : session_update (store_intent i)
| upd_response m : session_update (store_response m)
| upd_note n : session_update (set_note n).

(** A relation between the state before and the state after, kept by a
    computation of the [try] block wherever it starts. *)
Definition steps (R : State -> State -> Prop) {A : Type} (m : M A) : Prop :=
  forall st, R st (snd (m st)).

(** Every value the computation returns has the property. *)
Definition returns {A : Type} (P : A -> Prop) (m : M A) : Prop :=
  forall st a st', m st = (Return a, st') -> P a.

Definition ok (r : Response) : Prop := status r = 200.

Definition within_cap (s : Session) : Prop :=
  length (queries s) <= 10 /\ length (intents s) <= 10.

Definition capped (mem : gmap string Session) : Prop :=
  forall sid s, mem !! sid = Some s -> within_cap s.

Definition session_id (req : Request) : string :=
  match sessionId req with Some s => s | None => "default" end.

(** The name under which a request reads the store, [None] when the
    conversion of its session identifier throws. *)
Definition session_key (body : Body) : option string :=
  match body_sessionId body with
  | Some v => property_key v
  | None => Some "default"
  end.

(** The intent the classifier gives the normalized query. *)
Definition intent_of (key : string) (w : World) (query : string) : string :=
  Classifier.analyzeQueryIntent key (classifier_reply w)
    (Normalizer.preprocessQuery key query).

(** Whether the request reaches the classifier, and with it the push of the
    intent: no aggregate view answers its normalized query. *)
Definition classified (key : string) (w : World) (query : string) : bool :=
  let q := Normalizer.preprocessQuery key query in
  let unanswered (o : option string) :=
    match o with Some _ => false | None => true end in
  if String.eqb q "show most recently updated task"
  then unanswered (most_recent_task w)
  else if String.eqb q "show project status"
  then unanswered (status_overview w)
  else if String.eqb q "show project timeline"
          || String.eqb q "show upcoming deadlines"
  then unanswered (project_timeline w)
  else if String.eqb q "show team workload"
  then unanswered (team_workload w)
  else true.

(** The store after a sequence of requests, each with its own world. *)
Definition serve (key tkey : string) (requests : list (World * Request))
    (mem : gmap string Session) : gmap string Session :=
  fold_left (fun m wr => memory (snd (handler key tkey (fst wr) m (snd wr))))
            requests mem.

(** The two searches of a request whose first search fails. *)
Definition first_call (key tkey : string) (w : World) (query intent : string) : Call :=
  {| call_jql := Synthesizer.generateJQL key tkey (synthesizer_reply w) query intent;
     maxResults := max_results intent; fields := fields_for intent |}.
Definition retry_call (key tkey query intent : string) : Call :=
  {| call_jql := simplifiedJQL key tkey query intent;
     maxResults := max_results intent; fields := fields_for intent |}.

(** What follows the note in the rendered response. *)
Definition noted_body (w : World) (l : list Issue) : string :=
  match rendered w with
  | Return base => base
  | Throw => noted_fallback l
  end.

(** The text of the outer [catch] block: one of the four friendly
    sentences, or one of the four openers, the issues of the last-resort
    search, and the invitation to rephrase. *)
Definition fallback_message (m : string) : Prop :=
  In m friendlyResponses
  \/ exists opener l,
       In opener relevantInfo /\ l <> []
       /\ m = opener +:+ nl +:+ nl +:+ concat_map line_full l +:+ nl +:+ nl
              +:+ rephrase.

(** Worlds and requests of the examples. *)

Definition login_issue : Issue :=
  {| issue_key := "NIHK-1"; summary := "Fix login";
     status_name := Some "Open"; assignee_name := None |}.
Definition one_issue : SearchData := {| total := 1; issues := Some [login_issue] |}.

(** Every remote service is down. *)
Definition all_down : World :=
  {| most_recent_task := None; status_overview := None; project_timeline := None;
     team_workload := None; classifier_reply := None; sprint_view := None;
     issue_view := None; recent_search := Throw; conversation_reply := Throw;
     synthesizer_reply := None; search := Throw; retry_search := Throw;
     rendered := Throw; basic_search := Throw; greeting_draw := 0;
     conversation_draw := 0; opening_draw := 0; recent_draw := 0;
     friendly_draw := 0 |}.


(** The first search is rejected, the retry returns one issue, and the
    generative model renders it. *)
Definition retry_up : World :=
  {| most_recent_task := None; status_overview := None; project_timeline := None;
     team_workload := None; classifier_reply := Some "GENERAL"; sprint_view := None;
     issue_view := None; recent_search := Throw; conversation_reply := Throw;
     synthesizer_reply := Some "status = Open, limit 5"; search := Throw;
     retry_search := Return (Some one_issue);
     rendered := Return "One issue is open."; basic_search := Throw;
     greeting_draw := 0; conversation_draw := 0; opening_draw := 0;
     recent_draw := 0; friendly_draw := 0 |}.

Definition ask (q : string) : Request := {| query := q; sessionId := None |}.

Definition sent_message (o : Outcome) : option string :=
  match o with Sent r => Some (message r) | Rejected => None end.


Definition ten_queries : list string :=
  ["q0"; "q1"; "q2"; "q3"; "q4"; "q5"; "q6"; "q7"; "q8"; "q9"].
Definition full_session : Session :=
  {| queries := ten_queries; intents := []; lastResponse := None; note := None |}.

Definition ten_intents : list string :=
  ["GREETING"; "TASK_LIST"; "SPRINT"; "TIMELINE"; "BLOCKERS"; "WORKLOAD";
   "COMMENTS"; "PROJECT_STATUS"; "ASSIGNED_TASKS"; "CONVERSATION"].
(** A session with both histories full. *)
Definition full_histories : Session :=
  {| queries := ten_queries; intents := ten_intents; lastResponse := None;
     note := None |}.

(** A session identifier whose conversion throws. *)
Definition no_name : body_value := JObj [("toString", JNull)].

End Notions.
Export Notions.

(** * Notions for the invariants and characterisations *)

(** ** The comma pass on any text *)

(** Whether a closing parenthesis comes before the next opening one. *)
Fixpoint closes (l : list ascii) : bool :=
  match l with
  | [] => false
  | a :: t =>
      if Ascii.eqb ")"%char a then true
      else if Ascii.eqb "("%char a then false else closes t
  end.

(** The commas that no closing parenthesis follows before the next opening
    one turned into [ AND ], the rest as it is. *)
Fixpoint commas_outside (l : list ascii) : list ascii :=
  match l with
  | [] => []
  | a :: t =>
      (if Ascii.eqb ","%char a && negb (closes t) then Js.chars " AND " else [a])
      ++ commas_outside t
  end.

(** ** The normalizer and the classifier on any text *)

(** The shape of what the normalizer returns: trimming it or lower-casing it
    changes nothing. *)
Definition normal (s : string) : Prop :=
  Js.trim s = s /\ Js.toLowerCase s = s.

(** [/(?:recent|latest|last|newest|what's new|what is new)/i] *)
Definition recent_words : list string :=
  ["recent"; "latest"; "last"; "newest"; "what's new"; "what is new"].

(** The intent the rules of the classifier give to each standardized
    phrase. *)
Definition phrase_intents : list (string * string) :=
  [("show project status", "PROJECT_STATUS");
   ("show project timeline", "PROJECT_STATUS");
   ("show upcoming deadlines", "TIMELINE");
   ("show project blockers", "PROJECT_STATUS");
   ("show high risk items", "BLOCKERS");
   ("show team workload", "WORKLOAD");
   ("show open tasks", "TASK_LIST");
   ("show closed tasks", "TASK_LIST");
   ("show high priority tasks", "TASK_LIST");
   ("show unassigned tasks", "ASSIGNED_TASKS");
   ("show recent updates", "COMMENTS");
   ("show current sprint", "SPRINT");
   ("show most recently updated task", "TASK_LIST")].

(** The openers of the greeting rule. *)
Definition greeting_openers : list string :=
  ["hi"; "hello"; "hey"; "hi there"; "greetings"; "how are you"; "what can you do";
   "what do you do"; "help me"; "how do you work"].

(** ** Documents *)

Module AdfNotions.
Import Adf.


(** The strings of a list, one after the other. *)
Definition glue (l : list string) : string := fold_right String.append EmptyString l.

(** The nodes of a document made of paragraphs and lists: a text run, a
    paragraph of text runs, a list item of paragraphs. *)
Definition text_run (s : string) : value := Obj (Str s) Undefined (Str "text").
Definition paragraph (runs : list string) : value :=
  Obj Undefined (Arr (map text_run runs)) (Str "paragraph").
Definition list_item_node (paragraphs : list (list string)) : value :=
  Obj Undefined (Arr (map paragraph paragraphs)) (Str "listItem").

(** A block of such a document: a paragraph, or a bullet list or an ordered
    list of items. *)
Inductive block : Type :=
| Paragraph (runs : list string)
| Items (ordered : bool) (items : list (list (list string))).

Definition block_node (b : block) : value :=
  match b with
  | Paragraph runs => paragraph runs
  | Items ordered items =>
      Obj Undefined (Arr (map list_item_node items))
          (Str (if ordered then "orderedList" else "bulletList"))
  end.

Definition document (blocks : list block) : value :=
  Obj Undefined (Arr (map block_node blocks)) (Str "doc").

(** The text of an item and of a block: the runs one after the other, a
    line feed after each paragraph and after each item, a bullet before
    each item. *)
Definition item_text (paragraphs : list (list string)) : string :=
  bullet +:+ glue (map glue paragraphs) +:+ newline.
Definition block_text (b : block) : string :=
  match b with
  | Paragraph runs => glue runs +:+ newline
  | Items _ items => glue (map item_text items)
  end.

End AdfNotions.
Export AdfNotions.

(** Induction on a value and on the values it holds. *)
Section ValueInduction.
Import Adf.
Variable P : value -> Prop.
Hypothesis P_undefined : P Undefined.
Hypothesis P_null : P Null.
Hypothesis P_bool : forall b, P (Bool b).
Hypothesis P_num : forall t s, P (Num t s).
Hypothesis P_str : forall s, P (Str s).
Hypothesis P_arr : forall items, Forall P items -> P (Arr items).
Hypothesis P_obj : forall t c ty, P t -> P c -> P ty -> P (Obj t c ty).


End ValueInduction.

(** ** States, histories and outcomes of the handler *)

Module SessionNotions.
Import Handler.

(** A computation of the [try] block started in a state with [P] ends,
    when it returns [a], in a state with [Q a], and when it throws, in a
    state with [E]. *)
Definition triple {A : Type} (P : State -> Prop) (m : M A)
    (Q : A -> State -> Prop) (E : State -> Prop) : Prop :=
  forall st, P st ->
    match m st with
    | (Return a, st') => Q a st'
    | (Throw, st') => E st'
    end.

(** The computation keeps an invariant of the state, however it ends. *)
Definition keeps (I : State -> Prop) {A : Type} (m : M A) : Prop :=
  triple I m (fun _ => I) I.

(** No session holds a note. *)
Definition no_note (mem : gmap string Session) : Prop :=
  forall sid s, mem !! sid = Some s -> note s = None.

(** No session but [sid] holds a note, and [sid] holds none or the one the
    retry leaves. *)
Definition noted (sid : string) (mem : gmap string Session) : Prop :=
  forall sid' s, mem !! sid' = Some s ->
    note s = None \/ (sid' = sid /\ note s = Some recovery_note).

(** The last [n] entries of a list. *)
Definition last_n (n : nat) (l : list string) : list string :=
  skipn (length l - n) l.

(** Whether a request adds its query to the history of [sid]. *)
Definition sends_to (sid : string) (req : Request) : bool :=
  String.eqb (session_id req) sid && negb (String.eqb (query req) EmptyString).

(** The queries a sequence of requests adds to the history of [sid]. *)
Definition sent_to (sid : string) (requests : list (World * Request)) : list string :=
  map (fun wr => query (snd wr)) (List.filter (fun wr => sends_to sid (snd wr)) requests).

(** How a request that reached the search of the controller was answered:
    by the outer [catch] block, or by a rendering of the result set [data],
    sent with the intent and the query of the first search. *)
Definition answered_with (w : World) (o : Outcome) (data : option SearchData)
    (intent jql : string) : Prop :=
  o = Sent (last_resort w)
  \/ exists m, o = Sent (json m data (Some intent) (Some jql)).

End SessionNotions.
Export SessionNotions.

(** The intent a response carries, when it carries one, is a member of the
    enumeration. *)
Definition enumerated (r : Handler.Response) : Prop :=
  forall i, Handler.meta_intent r = Some i -> Classifier.is_intent i = true.

(** The world [w] with other replies of the generative model to the
    classifier and to the synthesizer. *)
Definition with_replies (w : Handler.World) (classifier synthesizer : option string)
    : Handler.World :=
  {| Handler.most_recent_task := Handler.most_recent_task w;
     Handler.status_overview := Handler.status_overview w;
     Handler.project_timeline := Handler.project_timeline w;
     Handler.team_workload := Handler.team_workload w;
     Handler.classifier_reply := classifier;
     Handler.sprint_view := Handler.sprint_view w;
     Handler.issue_view := Handler.issue_view w;
     Handler.recent_search := Handler.recent_search w;
     Handler.conversation_reply := Handler.conversation_reply w;
     Handler.synthesizer_reply := synthesizer;
     Handler.search := Handler.search w;
     Handler.retry_search := Handler.retry_search w;
     Handler.rendered := Handler.rendered w;
     Handler.basic_search := Handler.basic_search w;
     Handler.greeting_draw := Handler.greeting_draw w;
     Handler.conversation_draw := Handler.conversation_draw w;
     Handler.opening_draw := Handler.opening_draw w;
     Handler.recent_draw := Handler.recent_draw w;
     Handler.friendly_draw := Handler.friendly_draw w |}.

(** * Properties *)

(** ** The sanitizer on concrete queries *)

Section SanitizerExamples.
Import Sanitizer.

(** C2. On [status = Open] with project key NIHK the sanitizer wraps the
    query in the project clause, but the value-quoting pass then reads
    [NIHK AND] as one value and the reserved-word pass quotes [AND]: the
    result holds neither [project = NIHK] nor the quoted form of the clause. *)
Theorem sanitizeJQL_loses_scope :
  sanitizeJQL "NIHK" (Some unscoped)
    = Js.text "project = `NIHK `and`` (status = Open)"
  /\ Js.includes (ensure_project "NIHK" (fix_commas unscoped)) (scope "NIHK") = true
  /\ Js.includes (sanitizeJQL "NIHK" (Some unscoped)) (scope "NIHK") = false
  /\ Js.includes (sanitizeJQL "NIHK" (Some unscoped)) (scope_quoted "NIHK") = false.
Proof. repeat split; vm_compute; reflexivity. Qed.

(** C3. Sanitizing [scoped] quotes its [AND]; sanitizing the result quotes
    the same word again, inside the quotes it already has: the second pass
    is not the identity on the output of the first. *)
Theorem sanitizeJQL_not_idempotent :
  sanitizeJQL "NIHK" (Some scoped) = Js.text "project = `NIHK` `and` x = 1"
  /\ sanitizeJQL "NIHK" (Some (sanitizeJQL "NIHK" (Some scoped)))
       = Js.text "project = `NIHK` ``and`` x = 1"
  /\ sanitizeJQL "NIHK" (Some (sanitizeJQL "NIHK" (Some scoped)))
       <> sanitizeJQL "NIHK" (Some scoped).
Proof. repeat split; try (vm_compute; reflexivity). vm_compute. discriminate. Qed.

(** C4, as stated: on the scenario's input the sanitizer does not yield
    [status = \x22Open\x22 AND assignee = \x22Jo\x22]. *)
Lemma sanitizeJQL_comma_scenario_differs :
  sanitizeJQL "NIHK" (Some comma_separated)
    <> Js.text "status = `Open` AND assignee = `Jo`".
Proof. vm_compute. discriminate. Qed.

End SanitizerExamples.

(** ** How the matcher runs the pattern shapes of this program *)

Section Engine.

Lemma str_chars (s : string) : Js.str (Js.chars s) = s.
Proof. apply string_of_list_ascii_of_string. Qed.

Lemma chars_str (l : list ascii) : Js.chars (Js.str l) = l.
Proof. apply list_ascii_of_string_of_list_ascii. Qed.

Lemma chars_length (s : string) : length (Js.chars s) = String.length s.
Proof. induction s; simpl; congruence. Qed.

Lemma str_nonempty (l : list ascii) : l <> [] -> Js.str l <> EmptyString.
Proof. destruct l; [congruence | discriminate]. Qed.

Lemma run_cat r1 r2 x c k :
  run (Cat r1 r2) x c k = run r1 x c (fun y d => run r2 y d k).
Proof. reflexivity. Qed.

Lemma run_cls p x c k :
  run (Cls p) x c k
  = match after x with
    | a :: t => if p a then k (Pos (a :: before x) t) c else None
    | [] => None
    end.
Proof. reflexivity. Qed.

Lemma run_nla r x c k :
  run (NLa r) x c k
  = match run r x c (fun y d => Some (y, d)) with
    | Some _ => None
    | None => k x c
    end.
Proof. reflexivity. Qed.

Lemma run_bol x c k :
  run Bol x c k = match before x with [] => k x c | _ :: _ => None end.
Proof. reflexivity. Qed.

Lemma run_eol x c k :
  run Eol x c k = match after x with [] => k x c | _ :: _ => None end.
Proof. reflexivity. Qed.

Lemma run_classes ps rest x c k :
  run (fold_right Cat rest (map Cls ps)) x c k
  = match eat ps x with
    | Some y => run rest y c k
    | None => None
    end.
Proof.
  revert x. induction ps as [|p ps IH]; intros x; simpl; [reflexivity|].
  destruct (after x) as [|a t]; [reflexivity|].
  destruct (p a); [apply IH | reflexivity].
Qed.

Lemma eat_some ps x y :
  eat ps x = Some y ->
  exists u, after x = u ++ after y /\ before y = rev u ++ before x
            /\ Forall2 (fun p a => p a = true) ps u.
Proof.
  revert x. induction ps as [|p ps IH]; intros x H; simpl in H.
  - injection H as <-. exists []. repeat split. constructor.
  - destruct (after x) as [|a t] eqn:Hx; [discriminate|].
    destruct (p a) eqn:Hp; [|discriminate].
    destruct (IH _ H) as (u & Hu & Hb & Hf). simpl in Hu, Hb.
    exists (a :: u). simpl. rewrite Hu, Hb, <- app_assoc. repeat split.
    constructor; assumption.
Qed.

Lemma eat_app ps u pre suf :
  Forall2 (fun p a => p a = true) ps u ->
  eat ps (Pos pre (u ++ suf)) = Some (Pos (rev u ++ pre) suf).
Proof.
  intros H. revert pre. induction H as [|p a ps u Hp _ IH]; intros pre; simpl.
  - reflexivity.
  - rewrite Hp, IH, <- app_assoc. reflexivity.
Qed.

Lemma run_star r1 x c k :
  run (Star r1) x c k = star_iter r1 k (S (length (after x))) x c.
Proof. reflexivity. Qed.

Lemma star_iter_cls p k c fuel pre suf :
  length suf < fuel ->
  star_iter (Cls p) k fuel (Pos pre suf) c = greedy p k c pre suf.
Proof.
  revert fuel pre. induction suf as [|a t IH]; intros fuel pre Hf.
  - destruct fuel; [lia|]. reflexivity.
  - destruct fuel as [|f]; [lia|]. simpl in Hf. cbn [star_iter run after before greedy].
    destruct (p a); [|reflexivity].
    replace (length t <? length (a :: t)) with true
      by (symmetry; apply Nat.ltb_lt; simpl; lia).
    fold (star_iter (Cls p) k). rewrite IH by lia. reflexivity.
Qed.

Lemma run_star_cls p x c k :
  run (Star (Cls p)) x c k = greedy p k c (before x) (after x).
Proof.
  rewrite run_star. destruct x as [pre suf]. apply star_iter_cls. simpl. lia.
Qed.

Lemma greedy_some p k c pre suf v :
  greedy p k c pre suf = Some v ->
  exists u t, suf = u ++ t /\ forallb p u = true
              /\ k (Pos (rev u ++ pre) t) c = Some v.
Proof.
  revert pre. induction suf as [|a t IH]; intros pre H; simpl in H.
  - exists [], []. auto.
  - destruct (p a) eqn:Hp.
    + destruct (greedy p k c (a :: pre) t) eqn:Hg.
      * injection H as <-. destruct (IH _ Hg) as (u & t' & -> & Hu & Hk).
        exists (a :: u), t'. simpl. rewrite Hp, Hu, <- app_assoc. auto.
      * exists [], (a :: t). auto.
    + exists [], (a :: t). auto.
Qed.

(** With a continuation that accepts, [p*] takes the longest run. *)
Lemma greedy_accept p c pre u suf :
  forallb p u = true ->
  match suf with a :: _ => p a = false | [] => True end ->
  greedy p (fun y d => Some (y, d)) c pre (u ++ suf)
  = Some (Pos (rev u ++ pre) suf, c).
Proof.
  revert pre. induction u as [|a u IH]; intros pre Hu Hs; simpl.
  - destruct suf as [|b t]; [reflexivity|]. simpl. rewrite Hs. reflexivity.
  - simpl in Hu. apply andb_prop in Hu as [Ha Hu]. rewrite Ha, IH by assumption.
    rewrite <- app_assoc. reflexivity.
Qed.

(** The leftmost match, described: where it starts, and that no earlier
    start matches. *)
Lemma find_some r pre suf x y d :
  find r pre suf = Some (x, y, d) ->
  exists u, suf = u ++ after x /\ before x = rev u ++ pre
            /\ match_at r x = Some (y, d)
            /\ (forall u1 a u2, u = u1 ++ a :: u2 ->
                  match_at r (Pos (rev u1 ++ pre) (a :: u2 ++ after x)) = None).
Proof.
  revert pre. induction suf as [|a t IH]; intros pre H; simpl in H.
  - destruct (match_at r (Pos pre [])) as [[y' d']|] eqn:Hm; [|discriminate].
    injection H as <- <- <-. exists [].
    split; [reflexivity | split; [reflexivity | split; [exact Hm|]]].
    intros [|? ?] ? ? ?; discriminate.
  - destruct (match_at r (Pos pre (a :: t))) as [[y' d']|] eqn:Hm.
    + injection H as <- <- <-. exists [].
      split; [reflexivity | split; [reflexivity | split; [exact Hm|]]].
      intros [|? ?] ? ? ?; discriminate.
    + destruct (IH _ H) as (u & Hu & Hb & Hx & Hn).
      exists (a :: u). simpl. rewrite <- app_assoc. simpl.
      split; [rewrite Hu at 1; reflexivity | split; [exact Hb | split; [exact Hx|]]].
      intros [|b u1] c u2 E; simpl in E; injection E as -> ->.
      * simpl. rewrite <- Hu. exact Hm.
      * simpl. rewrite <- app_assoc. simpl. apply Hn. reflexivity.
Qed.

Lemma find_none r pre suf :
  find r pre suf = None ->
  forall u rest, suf = u ++ rest -> match_at r (Pos (rev u ++ pre) rest) = None.
Proof.
  revert pre. induction suf as [|a t IH]; intros pre H u rest E; simpl in H.
  - destruct (match_at r (Pos pre [])) as [[y' d']|] eqn:Hm; [discriminate|].
    symmetry in E. apply app_eq_nil in E as [-> ->]. exact Hm.
  - destruct (match_at r (Pos pre (a :: t))) as [[y' d']|] eqn:Hm; [discriminate|].
    destruct u as [|b u]; simpl in E.
    + subst rest. exact Hm.
    + injection E as -> ->. simpl. rewrite <- app_assoc. simpl.
      apply (IH _ H). reflexivity.
Qed.

Lemma find_skip r pre u suf :
  (forall u1 a u2, u = u1 ++ a :: u2 ->
     match_at r (Pos (rev u1 ++ pre) (a :: u2 ++ suf)) = None) ->
  find r pre (u ++ suf) = find r (rev u ++ pre) suf.
Proof.
  revert pre. induction u as [|a u IH]; intros pre H; [reflexivity|].
  pose proof (H [] a u eq_refl) as H0. simpl in H0 |- *. rewrite H0.
  rewrite IH, <- app_assoc; [reflexivity|].
  intros u1 b u2 ->. specialize (H (a :: u1) b u2 eq_refl).
  simpl in H. rewrite <- app_assoc in H. exact H.
Qed.

Lemma between_app pre u suf suf' :
  between (Pos pre suf) (Pos (rev u ++ pre) suf') = u.
Proof.
  unfold between. simpl. rewrite length_app, length_rev.
  replace (length u + length pre - length pre) with (length (rev u))
    by (rewrite length_rev; lia).
  rewrite firstn_app, Nat.sub_diag, firstn_all. simpl.
  rewrite app_nil_r. apply rev_involutive.
Qed.

Lemma firstn_skipped (u rest : list ascii) :
  firstn (length (u ++ rest) - length rest) (u ++ rest) = u.
Proof.
  rewrite length_app. replace (length u + length rest - length rest) with (length u) by lia.
  rewrite firstn_app, Nat.sub_diag, firstn_all. simpl. apply app_nil_r.
Qed.

(** A global replacement never empties a non-empty string when what it puts
    in is not empty. *)
Lemma replace_all_nonempty r sub s :
  (forall d, sub d <> []) -> s <> EmptyString ->
  replace_all r sub s <> EmptyString.
Proof.
  intros Hsub Hs. unfold replace_all. apply str_nonempty. simpl.
  destruct (find r [] (Js.chars s)) as [[[x y] d]|].
  - intros H. apply app_eq_nil in H as [_ H]. apply app_eq_nil in H as [H _].
    exact (Hsub d H).
  - destruct s; [congruence | discriminate].
Qed.

Lemma filter_keeps_all (p : ascii -> bool) (l : list ascii) :
  (forall b, In b l -> p b = false) ->
  List.filter (fun c => negb (p c)) l = l.
Proof.
  induction l as [|a l IH]; intros H; [reflexivity|].
  simpl. rewrite (H a) by (left; reflexivity). simpl. f_equal.
  apply IH. intros b Hb. apply H. right. exact Hb.
Qed.

(** Replacing every code unit of a class by nothing filters the string. *)
Lemma replace_from_erase p fuel pre suf :
  length suf < fuel ->
  replace_from (Cls p) (fun _ => []) fuel pre suf
  = List.filter (fun c => negb (p c)) suf.
Proof.
  revert pre suf. induction fuel as [|f IH]; intros pre suf Hf; [lia|].
  simpl. destruct (find (Cls p) pre suf) as [[[x y] d]|] eqn:Hfind.
  - destruct (find_some _ _ _ _ _ _ Hfind) as (u & Hu & Hb & Hm & Hn).
    unfold match_at in Hm. simpl in Hm.
    destruct (after x) as [|a t] eqn:Hx; [discriminate|].
    destruct (p a) eqn:Hp; [|discriminate]. injection Hm as <- <-. simpl.
    rewrite Hu, firstn_skipped.
    replace (length t <? S (length t)) with true
      by (symmetry; apply Nat.ltb_lt; lia).
    rewrite IH by (subst suf; rewrite length_app in Hf; simpl in Hf; lia).
    rewrite List.filter_app. simpl. rewrite Hp. simpl. f_equal.
    symmetry. apply filter_keeps_all. intros b Hin.
    apply in_split in Hin as (u1 & u2 & ->).
    specialize (Hn u1 b u2 eq_refl). unfold match_at in Hn. simpl in Hn.
    destruct (p b); [discriminate | reflexivity].
  - symmetry. apply filter_keeps_all. intros b Hin.
    apply in_split in Hin as (u1 & u2 & ->).
    pose proof (find_none _ _ _ Hfind u1 (b :: u2) eq_refl) as Hn.
    unfold match_at in Hn. simpl in Hn.
    destruct (p b); [discriminate | reflexivity].
Qed.

End Engine.

(** ** The normalizer when no phrasing pattern matches *)

Section NormalizerProperties.
Import Normalizer.

(** C9, as stated: [Hello, world] matches no pattern, and the normalizer
    removes its comma, which is not at the end of the text. *)
Lemma preprocessQuery_strips_interior_punctuation :
  first_match (queryMappings "NIHK" "hello, world") "hello, world" = None
  /\ Js.toLowerCase (Js.trim "Hello, world") = "hello, world"
  /\ preprocessQuery "NIHK" "Hello, world" = "hello world"
  /\ cleanup_as_specified "Hello, world" = "hello, world"
  /\ preprocessQuery "NIHK" "Hello, world" <> cleanup_as_specified "Hello, world".
Proof. repeat split; try (vm_compute; reflexivity). vm_compute. discriminate. Qed.

Lemma strip_punctuation_filter (s : string) :
  strip_punctuation s
  = Js.str (List.filter (fun c => negb (is_punctuation c)) (Js.chars s)).
Proof.
  unfold strip_punctuation, replace_all, punctuation. f_equal.
  apply replace_from_erase. rewrite chars_length. lia.
Qed.

(** C9, amended.  When no pattern matches, the normalizer returns the
    trimmed, lower-cased input without any of the characters [. , ! ? ;],
    wherever they stand, trimmed once more; the other characters are kept in
    their order. *)
Theorem preprocessQuery_unmatched (key query : string) :
  first_match (queryMappings key (Js.toLowerCase (Js.trim query)))
              (Js.toLowerCase (Js.trim query)) = None ->
  preprocessQuery key query
  = Js.trim (Js.str (List.filter (fun c => negb (is_punctuation c))
                                 (Js.chars (Js.toLowerCase (Js.trim query)))))
  /\ forallb (fun c => negb (is_punctuation c))
             (Js.chars (preprocessQuery key query)) = true.
Proof.
  intros H. unfold preprocessQuery. rewrite H, strip_punctuation_filter.
  split; [reflexivity|].
  unfold Js.trim, Js.trim_chars. rewrite !chars_str.
  set (l := List.filter _ _).
  assert (Hl : forallb (fun c => negb (is_punctuation c)) l = true).
  { subst l. apply forallb_forall. intros c Hc. apply List.filter_In in Hc. tauto. }
  assert (Hd : forall m, forallb (fun c => negb (is_punctuation c)) m = true ->
                         forallb (fun c => negb (is_punctuation c)) (Js.drop_space m) = true).
  { induction m as [|a m IHm]; intros Hm; [reflexivity|]. simpl.
    destruct (Js.is_space a); [apply IHm; simpl in Hm; apply andb_prop in Hm; tauto | exact Hm]. }
  assert (Hr : forall m, forallb (fun c => negb (is_punctuation c)) m = true ->
                         forallb (fun c => negb (is_punctuation c)) (rev m) = true).
  { intros m Hm. apply forallb_forall. intros c Hc. apply in_rev in Hc.
    rewrite forallb_forall in Hm. auto. }
  auto.
Qed.

Lemma preprocessQuery_unmatched_witness :
  preprocessQuery "NIHK" "Hello, world. Fine!  " = "hello world fine".
Proof.
  destruct (preprocessQuery_unmatched "NIHK" "Hello, world. Fine!  ") as [H _].
  - vm_compute. reflexivity.
  - rewrite H. vm_compute. reflexivity.
Defined.

End NormalizerProperties.

(** ** The classifier *)

Section ClassifierProperties.
Import Classifier.

(** C6, as stated: with a reply of the generative model that is no intent,
    the classifier returns that reply. *)
Lemma analyzeQueryIntent_returns_reply :
  analyzeQueryIntent "NIHK" (Some " banana ") "foo bar" = "banana"
  /\ is_intent (analyzeQueryIntent "NIHK" (Some " banana ") "foo bar") = false.
Proof. split; vm_compute; reflexivity. Qed.

Ltac split_tests :=
  repeat match goal with
         | |- context [if ?b then _ else _] => destruct b
         end.

(** C6, amended.  The classifier is a total function.  When the generative
    call fails it returns a member of the enumeration, [GENERAL] when no
    keyword of the fallback occurs; when the call succeeds it returns a
    member of the enumeration chosen by a rule, or else the trimmed reply as
    it is. *)
Theorem analyzeQueryIntent_closed_on_failure (key query : string) :
  is_intent (analyzeQueryIntent key None query) = true
  /\ is_intent (keyword_fallback query) = true
  /\ (test timeline_re query = false -> test blockers_fallback_re query = false ->
      test assigned_re query = false -> test status_fallback_re query = false ->
      test listing_fallback_re query = false -> test comments_re query = false ->
      test workload_fallback_re query = false -> test (lit_i "sprint") query = false ->
      keyword_fallback query = "GENERAL")
  /\ (forall content,
        is_intent (analyzeQueryIntent key (Some content) query) = true
        \/ analyzeQueryIntent key (Some content) query = Js.trim content).
Proof.
  repeat split.
  - unfold analyzeQueryIntent, keyword_fallback. split_tests; reflexivity.
  - unfold keyword_fallback. split_tests; reflexivity.
  - intros. unfold keyword_fallback.
    repeat match goal with H : _ = false |- _ => rewrite H; clear H end. reflexivity.
  - intros content. unfold analyzeQueryIntent.
    split_tests; try (left; reflexivity). right. reflexivity.
Qed.

End ClassifierProperties.

(** ** The guard of the text extractor *)

Section AdfProperties.
Import Adf.

(** C10.  For an argument that is [null] or [undefined], that has no
    [content], or whose [content] is not an array, the extractor returns the
    empty string and does not throw. *)
Theorem extractTextFromADF_guard (adf : value) :
  adf = Null \/ adf = Undefined
  \/ prop_content adf = Done Undefined
  \/ (forall c, prop_content adf = Done c -> isArray c = false) ->
  extractTextFromADF adf = Done EmptyString.
Proof.
  intros H. unfold extractTextFromADF.
  destruct adf as [| |b|t sh|s|items|tx c ty]; simpl; try reflexivity;
    try (destruct (negb _); reflexivity).
  destruct c; try reflexivity.
  destruct H as [H|[H|[H|H]]]; try discriminate.
  specialize (H _ eq_refl). discriminate.
Qed.

Lemma extractTextFromADF_guard_witness :
  extractTextFromADF Null = Done EmptyString
  /\ extractTextFromADF (Obj Undefined Undefined (Str "doc")) = Done EmptyString
  /\ extractTextFromADF (Obj Undefined (Str "text") (Str "doc")) = Done EmptyString.
Proof.
  split; [|split].
  - apply extractTextFromADF_guard. left. reflexivity.
  - apply extractTextFromADF_guard. right. right. left. reflexivity.
  - apply extractTextFromADF_guard. right. right. right.
    intros c H. simpl in H. injection H as <-. reflexivity.
Defined.

End AdfProperties.

(** ** The synthesizer on a query that names an issue *)

Section SynthesizerProperties.
Import Synthesizer Classifier.

Ltac each_ascii a := destruct a as [[] [] [] [] [] [] [] []].

Lemma space_not_word a : Js.is_space a = true -> Js.is_word a = false.
Proof. each_ascii a; vm_compute; congruence. Qed.

Lemma digit_not_space a : Js.is_digit a = true -> Js.is_space a = false.
Proof. each_ascii a; vm_compute; congruence. Qed.

Lemma dash_not_space a : Js.eq_ci "-" a = true -> Js.is_space a = false.
Proof. each_ascii a; vm_compute; congruence. Qed.

Lemma fold_case_word a : Js.is_word (Js.fold_case a) = Js.is_word a.
Proof. each_ascii a; vm_compute; reflexivity. Qed.

Lemma eq_ci_word c a : Js.eq_ci c a = true -> Js.is_word a = Js.is_word c.
Proof.
  unfold Js.eq_ci. intros H. apply Ascii.eqb_eq in H.
  rewrite <- (fold_case_word a), H. apply fold_case_word.
Qed.

Lemma eat_app_classes ps qs x :
  eat (ps ++ qs) x = match eat ps x with Some y => eat qs y | None => None end.
Proof.
  revert x. induction ps as [|p ps IH]; intros x; simpl; [reflexivity|].
  destruct (after x) as [|a t]; [reflexivity|]. destruct (p a); [apply IH | reflexivity].
Qed.

Lemma lit_i_classes (s : string) : lit_i s = fold_right Cat Eps (map Cls (map Js.eq_ci (Js.chars s))).
Proof. unfold lit_i, seq, chr_i. rewrite map_map. reflexivity. Qed.

(** [KEY-\d+] followed by [k]. *)
Lemma run_key_then (key : string) (rest : regex) x c k :
  run (Cat (lit_i key) (Cat (lit_i "-") (Cat (plus digit) rest))) x c k
  = match eat (key_classes key) x with
    | Some y => greedy Js.is_digit (fun z d => run rest z d k) c (before y) (after y)
    | None => None
    end.
Proof.
  unfold key_classes. rewrite eat_app_classes.
  cbn [run]. rewrite lit_i_classes, run_classes.
  destruct (eat (map Js.eq_ci (Js.chars key)) x) as [y|]; [|reflexivity].
  cbn. destruct (after y) as [|a t]; [reflexivity|].
  destruct (Js.eq_ci "-" a); [|reflexivity]. cbn.
  destruct t as [|b t]; [reflexivity|].
  destruct (Js.is_digit b); [|reflexivity].
  change (run (Star (Cls Js.is_digit)) (Pos (b :: a :: before y) t) c
            (fun z d => run rest z d k)
          = greedy Js.is_digit (fun z d => run rest z d k) c (b :: a :: before y) t).
  apply run_star_cls.
Qed.

Lemma match_at_issue_key key x :
  match_at (issue_key key) x
  = match eat (key_classes key) x with
    | Some y => greedy Js.is_digit (fun z d => Some (z, d)) [] (before y) (after y)
    | None => None
    end.
Proof. unfold match_at, issue_key, seq. simpl fold_right. apply run_key_then. Qed.

Lemma eat_key_space key pre a t :
  plain key = true -> Js.is_space a = true ->
  eat (key_classes key) (Pos pre (a :: t)) = None.
Proof.
  intros Hk Ha. unfold key_classes, plain in *.
  destruct (Js.chars key) as [|k0 ks]; simpl.
  - destruct (Js.eq_ci "-" a) eqn:E; [|reflexivity].
    apply dash_not_space in E. congruence.
  - destruct (Js.eq_ci k0 a) eqn:E; [|reflexivity].
    apply eq_ci_word in E. simpl in Hk. apply andb_prop in Hk as [Hk _].
    apply space_not_word in Ha. congruence.
Qed.

(** What the classes [KEY-\d] accept starts outside white space and ends in
    a digit. *)
Lemma key_classes_shape key m :
  plain key = true ->
  Forall2 (fun p a => p a = true) (key_classes key) m ->
  (exists a t, m = a :: t /\ Js.is_space a = false)
  /\ (exists b t, rev m = b :: t /\ Js.is_digit b = true).
Proof.
  intros Hk H. unfold key_classes in H.
  apply Forall2_app_inv_l in H as (m1 & m2 & H1 & H2 & ->).
  inversion H2 as [|p1 a ps1 r1 Ha H3]; subst.
  inversion H3 as [|p2 b ps2 r2 Hb H4]; subst. inversion H4; subst.
  split.
  - destruct m1 as [|c m1].
    + exists a, [b]. split; [reflexivity|]. apply dash_not_space. exact Ha.
    + exists c, (m1 ++ [a; b]). split; [reflexivity|].
      unfold plain in Hk. destruct (Js.chars key) as [|k0 ks]; simpl in H1;
        inversion H1 as [|? ? ? ? Hc _]; subst.
      simpl in Hk. apply andb_prop in Hk as [Hk _].
      apply eq_ci_word in Hc. destruct (Js.is_space c) eqn:E; [|reflexivity].
      apply space_not_word in E. congruence.
  - exists b, (a :: rev m1). split; [|exact Hb].
    rewrite rev_app_distr. reflexivity.
Qed.

Lemma drop_space_app ws l :
  forallb Js.is_space ws = true ->
  match l with a :: _ => Js.is_space a = false | [] => True end ->
  Js.drop_space (ws ++ l) = l.
Proof.
  intros Hws Hl. induction ws as [|w ws IH]; simpl.
  - destruct l as [|a t]; [reflexivity|]. simpl. rewrite Hl. reflexivity.
  - simpl in Hws. apply andb_prop in Hws as [Hw Hws]. rewrite Hw. auto.
Qed.

Lemma forallb_rev (p : ascii -> bool) l : forallb p l = true -> forallb p (rev l) = true.
Proof.
  intros H. apply forallb_forall. intros c Hc. apply in_rev in Hc.
  rewrite forallb_forall in H. auto.
Qed.

Lemma trim_chars_core ws1 core ws2 :
  forallb Js.is_space ws1 = true -> forallb Js.is_space ws2 = true ->
  match core with a :: _ => Js.is_space a = false | [] => False end ->
  match rev core with a :: _ => Js.is_space a = false | [] => False end ->
  Js.trim_chars (ws1 ++ core ++ ws2) = core.
Proof.
  intros H1 H2 Hh Hl. unfold Js.trim_chars.
  rewrite drop_space_app; [|exact H1|destruct core; [contradiction|exact Hh]].
  rewrite rev_app_distr, drop_space_app; [apply rev_involutive|apply forallb_rev, H2|].
  destruct (rev core); [contradiction|exact Hl].
Qed.

Lemma find_here r pre suf y d :
  match_at r (Pos pre suf) = Some (y, d) -> find r pre suf = Some (Pos pre suf, y, d).
Proof. intros H. destruct suf; simpl; rewrite H; reflexivity. Qed.

(** A text the pattern [^\s*KEY-\d+\s*$] accepts is an issue key within
    white space. *)
Lemma only_issue_key_shape key query :
  test (only_issue_key key) query = true ->
  exists ws1 m ds ws2,
    Js.chars query = ws1 ++ (m ++ ds) ++ ws2
    /\ forallb Js.is_space ws1 = true
    /\ Forall2 (fun p a => p a = true) (key_classes key) m
    /\ forallb Js.is_digit ds = true
    /\ forallb Js.is_space ws2 = true.
Proof.
  unfold test. destruct (find _ _ _) as [[[x y] d]|] eqn:Hf; [intros _|discriminate].
  apply find_some in Hf as (u & Hu & Hb & Hm & _).
  unfold match_at, only_issue_key, seq in Hm. simpl fold_right in Hm.
  rewrite run_cat, run_bol in Hm.
  destruct (before x) as [|? ?] eqn:Hbx; [|discriminate].
  assert (u = []) as ->.
  { destruct u; [reflexivity|]. apply (f_equal (@length ascii)) in Hb.
    rewrite length_app, length_rev in Hb. simpl in Hb. lia. }
  simpl in Hu.
  rewrite run_cat in Hm. unfold space in Hm at 1. rewrite run_star_cls in Hm.
  apply greedy_some in Hm as (ws1 & t1 & Ht1 & Hws1 & Hm).
  rewrite run_key_then in Hm.
  destruct (eat (key_classes key) _) as [y1|] eqn:He; [|discriminate].
  apply eat_some in He as (m & Hm1 & Hm2 & HF). simpl in Hm1.
  apply greedy_some in Hm as (ds & t2 & Ht2 & Hds & Hm).
  rewrite run_cat in Hm. unfold space in Hm. rewrite run_star_cls in Hm.
  apply greedy_some in Hm as (ws2 & t3 & Ht3 & Hws2 & Hm).
  rewrite run_cat, run_eol in Hm. simpl after in Hm. destruct t3; [|discriminate].
  exists ws1, m, ds, ws2. repeat split; try assumption.
  rewrite Hu, Ht1, Hm1, Ht2. simpl in Ht3. rewrite Ht3, app_nil_r, <- app_assoc.
  reflexivity.
Qed.

(** On such a text the search for [KEY-\d+] finds the trimmed text. *)
Lemma only_issue_key_token key query :
  plain key = true ->
  test (only_issue_key key) query = true ->
  match0 (containsIssueKey key) query = Some (Js.trim query).
Proof.
  intros Hk Ht.
  destruct (only_issue_key_shape _ _ Ht) as (ws1 & m & ds & ws2 & Hq & H1 & HF & Hd & H2).
  destruct (key_classes_shape _ _ Hk HF) as [(a & t & Hm & Ha) (b & t' & Hr & Hb)].
  assert (Htrim : Js.trim_chars (Js.chars query) = m ++ ds).
  { rewrite Hq. apply trim_chars_core; try assumption.
    - rewrite Hm. simpl. exact Ha.
    - rewrite rev_app_distr. destruct (rev ds) as [|e r] eqn:Hrd.
      + simpl. rewrite Hr. apply digit_not_space. exact Hb.
      + simpl. apply digit_not_space.
        rewrite forallb_forall in Hd. apply Hd. apply in_rev.
        rewrite Hrd. left. reflexivity. }
  unfold Js.trim. rewrite Htrim.
  unfold match0, containsIssueKey. rewrite Hq.
  rewrite find_skip.
  - erewrite find_here.
    + rewrite between_app. reflexivity.
    + rewrite match_at_issue_key, <- app_assoc, eat_app by exact HF.
      simpl before. simpl after. rewrite greedy_accept; [|exact Hd|].
      * rewrite rev_app_distr, <- app_assoc. reflexivity.
      * destruct ws2 as [|w ws2]; [exact I|]. simpl in H2.
        apply andb_prop in H2 as [Hw _].
        destruct (Js.is_digit w) eqn:E; [|reflexivity].
        apply digit_not_space in E. congruence.
  - intros u1 w u2 ->. rewrite match_at_issue_key, eat_key_space; [reflexivity|exact Hk|].
    rewrite forallb_forall in H1. apply H1. apply in_or_app. right. left. reflexivity.
Qed.

(** A text in which [KEY-\d+] is found holds a digit. *)
Lemma issue_key_digit key query tok :
  match0 (containsIssueKey key) query = Some tok ->
  existsb Js.is_digit (Js.chars query) = true.
Proof.
  unfold match0, containsIssueKey.
  destruct (find _ _ _) as [[[x y] d]|] eqn:Hf; [intros _|discriminate].
  apply find_some in Hf as (u & Hu & _ & Hm & _).
  rewrite match_at_issue_key in Hm.
  destruct (eat _ x) as [y1|] eqn:He; [|discriminate].
  apply eat_some in He as (m & Hm1 & _ & HF).
  unfold key_classes in HF. apply Forall2_app_inv_l in HF as (m1 & m2 & _ & H2 & ->).
  inversion H2 as [|p1 a ps1 r1 Ha H3]; subst.
  inversion H3 as [|p2 b ps2 r2 Hb H4]; subst.
  apply existsb_exists. exists b. split; [|exact Hb].
  rewrite Hu, Hm1. apply in_or_app. right. apply in_or_app. left.
  apply in_or_app. right. right. left. reflexivity.
Qed.

(** None of the standardized phrases holds a digit. *)
Lemma canonical_no_digit tkey query template :
  lookup_canonical tkey query = Some template ->
  existsb Js.is_digit (Js.chars query) = false.
Proof.
  unfold lookup_canonical, canonical. cbn [List.find fst].
  repeat match goal with
         | |- context [String.eqb query ?s] =>
             destruct (String.eqb_spec query s) as [->|_];
             [intros _; vm_compute; reflexivity|]
         end.
  simpl. discriminate.
Qed.

(** C5.  For a project key made of word characters: when the query text
    holds a token of the form KEY-digits, whatever the intent and whatever
    the generative model would answer, the synthesizer returns the
    key-equality query for the first such token. *)
Theorem generateJQL_issue_key (key tkey : string) (reply : option string)
    (query intent tok : string) :
  plain key = true ->
  match0 (containsIssueKey key) query = Some tok ->
  generateJQL key tkey reply query intent = key_equals tok.
Proof.
  intros Hk Hm. unfold generateJQL.
  destruct (lookup_canonical tkey query) as [template|] eqn:Hc.
  - apply canonical_no_digit in Hc. apply issue_key_digit in Hm. congruence.
  - destruct (test (only_issue_key key) query) eqn:Ht.
    + rewrite (only_issue_key_token _ _ Hk Ht) in Hm. injection Hm as <-. reflexivity.
    + rewrite Hm. reflexivity.
Qed.

Lemma generateJQL_issue_key_witness :
  generateJQL "NIHK" "NIHK" None "NIHK-42" "GREETING" = Js.text "key = `NIHK-42`"
  /\ generateJQL "NIHK" "NIHK" (Some "status = Open") "what about nihk-7 and NIHK-42?"
                 "TASK_LIST" = Js.text "key = `nihk-7`".
Proof.
  split.
  - apply (generateJQL_issue_key "NIHK" "NIHK" None "NIHK-42" "GREETING" "NIHK-42");
      vm_compute; reflexivity.
  - apply (generateJQL_issue_key "NIHK" "NIHK" (Some "status = Open")
             "what about nihk-7 and NIHK-42?" "TASK_LIST" "nihk-7");
      vm_compute; reflexivity.
Defined.

End SynthesizerProperties.

(** ** No structured query is ever empty *)

Section NonEmpty.
Import Sanitizer Synthesizer.

Lemma append_nonempty_l (s t : string) : s <> EmptyString -> s +:+ t <> EmptyString.
Proof. destruct s; [congruence | discriminate]. Qed.

Lemma quote_reserved_nonempty (s : string) :
  s <> EmptyString -> quote_reserved s <> EmptyString.
Proof.
  unfold quote_reserved. generalize reservedWords. intros ws. revert s.
  induction ws as [|w ws IH]; intros s Hs; [exact Hs|].
  simpl. apply IH. apply replace_all_nonempty; [|exact Hs].
  intros _. discriminate.
Qed.

Lemma sanitizeJQL_nonempty (key : string) (jql : option string) :
  sanitizeJQL key jql <> EmptyString.
Proof.
  destruct jql as [[|a s]|]; try discriminate.
  unfold sanitizeJQL. apply quote_reserved_nonempty.
  apply replace_all_nonempty.
  { intros d H. unfold quote_value in H.
    destruct (app_eq_nil _ _ H) as [H0 H']. discriminate H'. }
  unfold fix_operators.
  apply replace_all_nonempty; [intros d; discriminate|].
  apply replace_all_nonempty; [intros d; discriminate|].
  unfold ensure_project. destruct (_ && _); [discriminate|].
  apply replace_all_nonempty; [intros d|]; discriminate.
Qed.

Ltac nonempty_template :=
  unfold PROJECT_STATUS, TIMELINE, TIMELINE_UPCOMING, BLOCKERS, HIGH_PRIORITY,
    OPEN_TASKS, CLOSED_TASKS, ASSIGNED_TASKS, UNASSIGNED_TASKS, RECENT_UPDATES,
    CURRENT_SPRINT, MOST_RECENT_TASK, project; discriminate.

Lemma fallbackGenerateJQL_nonempty (tkey query intent : string) :
  fallbackGenerateJQL tkey query intent <> EmptyString.
Proof.
  unfold fallbackGenerateJQL.
  repeat match goal with
         | |- context [if ?b then _ else _] => destruct b
         end; nonempty_template.
Qed.

Lemma lookup_canonical_nonempty (tkey query template : string) :
  lookup_canonical tkey query = Some template -> template <> EmptyString.
Proof.
  unfold lookup_canonical, canonical. cbn [List.find fst].
  repeat match goal with
         | |- context [String.eqb query ?s] =>
             destruct (String.eqb query s);
             [intros H; injection H as <-; nonempty_template|]
         end.
  simpl. discriminate.
Qed.

Lemma generateJQL_nonempty (key tkey : string) (reply : option string)
    (query intent : string) :
  generateJQL key tkey reply query intent <> EmptyString.
Proof.
  unfold generateJQL.
  destruct (lookup_canonical tkey query) eqn:Hc;
    [exact (lookup_canonical_nonempty _ _ _ Hc)|].
  destruct (test _ query); [discriminate|].
  destruct (match0 _ query); [discriminate|].
  repeat match goal with
         | |- context [if ?b then _ else _] => destruct b
         end; try nonempty_template.
  destruct reply; [apply sanitizeJQL_nonempty | apply fallbackGenerateJQL_nonempty].
Qed.

End NonEmpty.

(** ** The request handler *)

Section HandlerProperties.
Import Handler.
Variables key tkey : string.

(** *** What every step of the [try] block does to the state *)

Section Steps.
(** A relation between the state before and after, kept by every step. *)
Variable R : State -> State -> Prop.
Hypothesis R_refl : forall st, R st st.
Hypothesis R_trans : forall a b c, R a b -> R b c -> R a c.
Hypothesis R_update : forall f sid s st,
  session_update f -> memory st !! sid = Some s ->
  R st {| memory := <[sid := f s]> (memory st); calls := calls st |}.
Hypothesis R_log : forall c st,
  R st {| memory := memory st; calls := calls st ++ [c] |}.

Lemma steps_ret {A : Type} (a : A) : steps R (ret a).
Proof. intros st. apply R_refl. Qed.

Lemma steps_lift {A : Type} (c : completion A) : steps R (lift c).
Proof. intros st. apply R_refl. Qed.

Lemma steps_session sid : steps R (session sid).
Proof. intros st. unfold session. destruct (memory st !! sid); apply R_refl. Qed.

Lemma steps_update sid f : session_update f -> steps R (update sid f).
Proof.
  intros Hf st. unfold update. destruct (memory st !! sid) eqn:E; simpl.
  - apply R_update; assumption.
  - apply R_refl.
Qed.

Lemma steps_log c : steps R (log c).
Proof. intros st. apply R_log. Qed.

Lemma steps_bind {A B : Type} (m : M A) (f : A -> M B) :
  steps R m -> (forall a, steps R (f a)) -> steps R (bind m f).
Proof.
  intros Hm Hf st. unfold bind. specialize (Hm st).
  destruct (m st) as [[a|] st1]; simpl in *; [|exact Hm].
  eapply R_trans; [exact Hm | apply Hf].
Qed.

Ltac step :=
  first [ apply steps_ret | apply steps_lift | apply steps_session
        | apply steps_log | apply steps_update; constructor
        | apply steps_bind; [|intros] ].

Ltac branch :=
  match goal with
  | |- steps R (if ?b then _ else _) => destruct b
  | |- steps R (match ?x with _ => _ end) => destruct x
  | |- steps R (let '(_, _) := ?x in _) => destruct x
  end.

Lemma steps_answered sid m intent : steps R (answered sid m intent).
Proof. unfold answered. repeat step. Qed.

Lemma steps_run_search w sid query intent jql :
  steps R (run_search key tkey w sid query intent jql).
Proof. unfold run_search. repeat (step || branch). Qed.

Lemma steps_render w sid intent data : steps R (render w sid intent data).
Proof. unfold render. repeat (step || branch). Qed.

Lemma steps_execute w sid query intent : steps R (execute key tkey w sid query intent).
Proof.
  unfold execute. branch; [step|].
  step; [apply steps_run_search|]. step; [apply steps_render|]. repeat step.
Qed.

Lemma steps_classify w sid query : steps R (classify_and_answer key tkey w sid query).
Proof.
  unfold classify_and_answer. step; [step|].
  repeat first [ apply steps_answered | apply steps_execute | step | branch ].
Qed.

Lemma steps_pipeline w sid query : steps R (pipeline key tkey w sid query).
Proof.
  unfold pipeline.
  repeat first [ apply steps_answered | apply steps_classify | branch ].
Qed.

End Steps.

(** *** The histories stay within ten entries *)

Lemma push_capped_length (l : list string) (x : string) :
  length l <= 10 -> length (push_capped l x) <= 10.
Proof.
  intros H. unfold push_capped.
  destruct (10 <? length (l ++ [x])) eqn:E.
  - destruct l as [|a l]; simpl in *; [lia|]. rewrite length_app. simpl. lia.
  - apply Nat.ltb_ge in E. exact E.
Qed.

(** At ten entries the push drops the first one, the oldest. *)
Lemma push_capped_evicts (oldest : string) (l : list string) (x : string) :
  length (oldest :: l) = 10 -> push_capped (oldest :: l) x = l ++ [x].
Proof.
  intros H. unfold push_capped.
  replace (length ((oldest :: l) ++ [x])) with 11
    by (rewrite length_app; simpl in *; lia).
  reflexivity.
Qed.

Lemma push_capped_appends (l : list string) (x : string) :
  length l < 10 -> push_capped l x = l ++ [x].
Proof.
  intros H. unfold push_capped.
  destruct (10 <? length (l ++ [x])) eqn:E; [|reflexivity].
  apply Nat.ltb_lt in E. rewrite length_app in E. simpl in E. lia.
Qed.

Lemma capped_insert mem sid s :
  capped mem -> within_cap s -> capped (<[sid := s]> mem).
Proof.
  intros Hm Hs sid' s' H. destruct (decide (sid = sid')) as [->|Hne].
  - rewrite lookup_insert_eq in H. injection H as <-. exact Hs.
  - rewrite lookup_insert_ne in H by exact Hne. exact (Hm _ _ H).
Qed.

Lemma session_update_within_cap f s :
  session_update f -> within_cap s -> within_cap (f s).
Proof.
  intros [i|m|n] [Hq Hi]; split; simpl; try assumption.
  apply push_capped_length. exact Hi.
Qed.

Lemma pipeline_capped w sid query st :
  capped (memory st) -> capped (memory (snd (pipeline key tkey w sid query st))).
Proof.
  revert st.
  apply (steps_pipeline (fun a b => capped (memory a) -> capped (memory b))); auto.
  intros f sid' s st Hf Hl Hc. simpl. apply capped_insert; [exact Hc|].
  apply session_update_within_cap; [exact Hf | exact (Hc _ _ Hl)].
Qed.

Lemma open_session_capped mem sid q mem' :
  capped mem -> open_session mem sid q = Some mem' -> capped mem'.
Proof.
  intros Hc. unfold open_session. destruct (mem !! sid) as [s|] eqn:E.
  - intros H. injection H as <-. apply capped_insert; [exact Hc|].
    destruct (Hc _ _ E) as [Hq Hi]. split; simpl; [|exact Hi].
    apply push_capped_length. exact Hq.
  - destruct (inherited_in mem sid); [discriminate|]. intros H. injection H as <-.
    apply capped_insert; [exact Hc|]. split; simpl; lia.
Qed.

(** The [try] block leaves every query history as it finds it. *)
Lemma pipeline_keeps_queries w sid query st sid' :
  queries <$> memory (snd (pipeline key tkey w sid query st)) !! sid'
  = queries <$> memory st !! sid'.
Proof.
  revert st.
  apply (steps_pipeline (fun a b =>
           queries <$> memory b !! sid' = queries <$> memory a !! sid')).
  - reflexivity.
  - intros a b c H1 H2. congruence.
  - intros f sid0 s st Hf Hl. simpl. destruct (decide (sid0 = sid')) as [->|Hne].
    + rewrite lookup_insert_eq, Hl. destruct Hf; reflexivity.
    + rewrite lookup_insert_ne by exact Hne. reflexivity.
  - reflexivity.
Qed.

Lemma handler_capped (w : World) (mem : gmap string Session) (req : Request) :
  capped mem -> capped (memory (snd (handler key tkey w mem req))).
Proof.
  intros Hc. unfold handler. destruct (String.eqb _ _); [exact Hc|].
  destruct (open_session _ _ _) as [mem'|] eqn:Ho; [|exact Hc].
  pose proof (pipeline_capped w (session_id req) (query req)
                {| memory := mem'; calls := [] |}
                (open_session_capped _ _ _ _ Hc Ho)) as Hp.
  unfold session_id in Hp.
  destruct (pipeline _ _ _ _ _ _) as [[r|] st]; exact Hp.
Qed.

Lemma serve_capped (requests : list (World * Request)) (mem : gmap string Session) :
  capped mem -> capped (serve key tkey requests mem).
Proof.
  revert mem. induction requests as [|[w req] rest IH]; intros mem Hc; [exact Hc|].
  simpl. apply IH. apply handler_capped. exact Hc.
Qed.

(** *** The retry of the execution controller *)

Lemma lookup_own (mem : gmap string Session) (sid : string) (s : Session) :
  <[sid := s]> mem !! sid = Some s.
Proof. apply lookup_insert_eq. Qed.

(** Steps 2 to 5 when the first search throws and the search with the
    simplified template returns a result set: exactly these two searches are
    issued, the response carries the result set of the second one, and its
    message is the recovery note, a blank line, and the rendering (the one of
    [generateResponse], or the handler's own list when that throws).  The
    note does not stay in the session. *)
Theorem execute_retries_once (w : World) (sid query intent : string) (st : State)
    (s : Session) (d : SearchData) (l : list Issue) :
  memory st !! sid = Some s ->
  search w = Throw ->
  retry_search w = Return (Some d) ->
  issues d = Some l ->
  exists st',
    execute key tkey w sid query intent st
    = (Return (json (recovery_note +:+ nl +:+ nl +:+ noted_body w l) (Some d)
                    (Some intent) (Some (call_jql (first_call key tkey w query intent)))),
       st')
    /\ calls st' = calls st ++ [first_call key tkey w query intent; retry_call key tkey query intent]
    /\ note <$> memory st' !! sid = Some None.
Proof.
  intros Hs Hsearch Hretry Hissues.
  unfold execute.
  destruct (String.eqb_spec (Synthesizer.generateJQL key tkey (synthesizer_reply w)
                               query intent) EmptyString) as [E|_];
    [exfalso; exact (generateJQL_nonempty _ _ _ _ _ E)|].
  unfold run_search, render, noted_body, bind, log, lift, update, session, ret.
  rewrite Hsearch, Hretry. cbn [memory calls has_issues]. rewrite Hissues.
  cbn [memory calls]. rewrite Hs. cbn [memory calls].
  rewrite lookup_own. cbn [note set_note].
  change (String.eqb recovery_note EmptyString) with false.
  cbn beta iota. cbn [memory calls]. rewrite lookup_own. cbn [memory calls].
  destruct (rendered w) as [base|]; cbn [issues_of]; rewrite ?Hissues;
    cbn [memory calls]; rewrite lookup_own;
    (eexists; split; [reflexivity|]; cbn [memory calls]; split;
     [rewrite <- app_assoc; reflexivity | rewrite lookup_own; reflexivity]).
Qed.

(** Which way the [try] block goes: it answers without a search of the
    controller, or it runs steps 2 to 5 on the normalized query. *)
Lemma answered_calls sid m intent st :
  calls (snd (answered sid m intent st)) = calls st.
Proof.
  apply (steps_answered (fun a b => calls b = calls a)); try reflexivity.
  intros a b c H1 H2. congruence.
Qed.

Lemma classify_cases (w : World) (sid query : string) (st : State) (s : Session) :
  memory st !! sid = Some s ->
  calls (snd (classify_and_answer key tkey w sid query st)) = calls st
  \/ exists intent st1 s1,
       memory st1 !! sid = Some s1 /\ calls st1 = calls st
       /\ classify_and_answer key tkey w sid query st
          = execute key tkey w sid query intent st1.
Proof.
  intros Hs.
  remember (classify_and_answer key tkey w sid query st) as res eqn:Hres.
  unfold classify_and_answer in Hres.
  set (intent := Classifier.analyzeQueryIntent key (classifier_reply w) query) in Hres.
  unfold bind at 1 in Hres. unfold update at 1 in Hres. rewrite Hs in Hres.
  set (st1 := {| memory := <[sid := store_intent intent s]> (memory st);
                 calls := calls st |}) in Hres.
  assert (Hgo : forall m i, calls (snd (answered sid m i st1)) = calls st)
    by (intros; rewrite answered_calls; reflexivity).
  assert (Hex : exists intent0 st2 s1,
             memory st2 !! sid = Some s1 /\ calls st2 = calls st
             /\ execute key tkey w sid query intent st1
                = execute key tkey w sid query intent0 st2).
  { exists intent, st1, (store_intent intent s).
    split; [apply lookup_own | split; reflexivity]. }
  repeat match type of Hres with
         | context [if ?b then _ else _] => destruct b
         | context [match ?x with _ => _ end] =>
             match x with
             | sprint_view _ => destruct x as [[? []]|]
             | issue_view _ => destruct x
             | recent_search _ => destruct x
             | conversation_reply _ => destruct x
             end
         end;
    subst res;
    first [ left; apply Hgo | left; reflexivity | right; exact Hex ].
Qed.

Lemma pipeline_cases (w : World) (sid query : string) (st : State) (s : Session) :
  memory st !! sid = Some s ->
  calls (snd (pipeline key tkey w sid query st)) = calls st
  \/ exists intent st1 s1,
       memory st1 !! sid = Some s1 /\ calls st1 = calls st
       /\ pipeline key tkey w sid query st
          = execute key tkey w sid (Normalizer.preprocessQuery key query) intent st1.
Proof.
  intros Hs.
  remember (pipeline key tkey w sid query st) as res eqn:Hres.
  unfold pipeline in Hres.
  repeat match type of Hres with
         | context [if ?b then _ else _] => destruct b
         | context [match ?x with _ => _ end] =>
             match x with
             | most_recent_task _ => destruct x
             | status_overview _ => destruct x
             | project_timeline _ => destruct x
             | team_workload _ => destruct x
             end
         end;
    subst res;
    first [ left; apply answered_calls | apply (classify_cases _ _ _ _ _ Hs) ].
Qed.

Lemma open_session_own mem sid q mem' :
  open_session mem sid q = Some mem' -> exists s, mem' !! sid = Some s.
Proof.
  unfold open_session. destruct (mem !! sid).
  - intros H. injection H as <-. eexists. apply lookup_own.
  - destruct (inherited_in mem sid); [discriminate|].
    intros H. injection H as <-. eexists. apply lookup_own.
Qed.

(** C7.  When the first search throws and the search with the simplified
    template returns a result set, then for every request that reaches the
    search of the execution controller: the controller issues these two
    searches and no other, the response sent carries the result set of the
    retry, and its message starts with the recovery note. *)
Theorem handler_retries_once (w : World) (mem : gmap string Session) (req : Request)
    (d : SearchData) (l : list Issue) :
  search w = Throw ->
  retry_search w = Return (Some d) ->
  issues d = Some l ->
  calls (snd (handler key tkey w mem req)) <> [] ->
  exists query intent,
    fst (handler key tkey w mem req)
    = Sent (json (recovery_note +:+ nl +:+ nl +:+ noted_body w l) (Some d)
                 (Some intent) (Some (call_jql (first_call key tkey w query intent))))
    /\ calls (snd (handler key tkey w mem req))
       = [first_call key tkey w query intent; retry_call key tkey query intent].
Proof.
  intros Hsearch Hretry Hissues. unfold handler.
  destruct (String.eqb _ _); [intros H; contradiction H; reflexivity|].
  destruct (open_session _ _ _) as [mem'|] eqn:Ho;
    [|intros H; contradiction H; reflexivity].
  destruct (open_session_own _ _ _ _ Ho) as [s Hs].
  set (st0 := {| memory := mem'; calls := [] |}).
  destruct (pipeline_cases w _ (query req) st0 s Hs)
    as [Hsame|(intent & st1 & s1 & Hs1 & Hc1 & Heq)].
  - intros H. exfalso. apply H.
    destruct (pipeline _ _ _ _ _ st0) as [[r|] st]; exact Hsame.
  - intros _. rewrite Heq.
    destruct (execute_retries_once w _ (Normalizer.preprocessQuery key (query req))
                intent st1 s1 d l Hs1 Hsearch Hretry Hissues)
      as (st' & -> & Hcalls & _).
    exists (Normalizer.preprocessQuery key (query req)), intent.
    split; [reflexivity|]. simpl. rewrite Hcalls, Hc1. reflexivity.
Qed.

(** *** Every request is answered *)

Lemma returns_ret {A : Type} (P : A -> Prop) (a : A) : P a -> returns P (ret a).
Proof. intros H st a' st' E. injection E as <- _. exact H. Qed.

Lemma returns_bind {A B : Type} (P : B -> Prop) (m : M A) (f : A -> M B) :
  (forall a, returns P (f a)) -> returns P (bind m f).
Proof.
  intros Hf st b st' E. unfold bind in E.
  destruct (m st) as [[a|] st1]; [exact (Hf a _ _ _ E) | discriminate].
Qed.

Lemma returns_answered sid m intent : returns ok (answered sid m intent).
Proof. apply returns_bind. intros _. apply returns_ret. reflexivity. Qed.

Lemma returns_execute w sid query intent :
  returns ok (execute key tkey w sid query intent).
Proof.
  unfold execute.
  destruct (String.eqb_spec (Synthesizer.generateJQL key tkey (synthesizer_reply w)
                               query intent) EmptyString) as [E|_];
    [exfalso; exact (generateJQL_nonempty _ _ _ _ _ E)|].
  repeat (apply returns_bind; intros). apply returns_ret. reflexivity.
Qed.

Lemma returns_classify w sid query :
  returns ok (classify_and_answer key tkey w sid query).
Proof.
  unfold classify_and_answer. apply returns_bind. intros _.
  repeat match goal with
         | |- returns _ (if ?b then _ else _) => destruct b
         | |- returns _ (match ?x with _ => _ end) => destruct x
         | |- returns _ (let '(_, _) := ?x in _) => destruct x
         end;
    first [ apply returns_answered | apply returns_execute
          | apply returns_ret; reflexivity ].
Qed.

Lemma returns_pipeline w sid query : returns ok (pipeline key tkey w sid query).
Proof.
  unfold pipeline.
  repeat match goal with
         | |- returns _ (if ?b then _ else _) => destruct b
         | |- returns _ (match ?x with _ => _ end) => destruct x
         end;
    first [ apply returns_answered | apply returns_classify ].
Qed.

Lemma pick_in (draw : nat) (pool : list string) : pool <> [] -> In (pick draw pool) pool.
Proof.
  intros H. unfold pick. apply nth_In. apply Nat.mod_upper_bound.
  destruct pool; [congruence | discriminate].
Qed.

Lemma last_resort_shape (w : World) :
  ok (last_resort w) /\ fallback_message (message (last_resort w)).
Proof.
  assert (Hf : forall d, In (pick d friendlyResponses) friendlyResponses)
    by (intros; apply pick_in; discriminate).
  unfold last_resort.
  destruct (basic_search w) as [[[t [[|i l]|]]|]|]; split; try reflexivity;
    try (left; apply Hf).
  right. exists (pick (recent_draw w) relevantInfo), (i :: l).
  split; [apply pick_in; discriminate | split; [discriminate | reflexivity]].
Qed.





(** X1.  A session identifier that names an inherited property, on a store that
    has no session of that name: the push before the [try] block throws,
    nothing is sent and the store stays as it is. *)
Lemma handler_rejects_inherited_session (w : World) (mem : gmap string Session)
    (sid q : string) :
  q <> EmptyString -> mem !! sid = None -> Js.inherited sid = true ->
  handler key tkey w mem {| query := q; sessionId := Some sid |}
  = (Rejected, {| memory := mem; calls := [] |}).
Proof.
  intros Hq Hm Hi. unfold handler, open_session, inherited_in. simpl.
  destruct (String.eqb_spec q EmptyString) as [E|_]; [contradiction|].
  rewrite Hm, Hi. reflexivity.
Qed.

End HandlerProperties.

(** ** The handler on concrete requests *)

Section HandlerExamples.
Import Handler.



(** Requests that are not answered.  A reset with the session identifier
    [__proto__] gives the store a session object as its prototype; a request
    for the session [queries] then reads the array of that object where it
    expects a session, and the push throws, while a request for the session
    [__proto__] is served.  A session identifier that is an object with a
    member [toString] converts to no property name. *)
Lemma post_query_rejections :
  Reset.reset_conversation ∅ (Some "__proto__") = Some {[ "__proto__" := fresh ]}
  /\ fst (post_query "NIHK" "NIHK" all_down {[ "__proto__" := fresh ]}
            {| body_query := "foo bar"; body_sessionId := Some (JStr "queries") |})
     = Rejected
  /\ fst (post_query "NIHK" "NIHK" all_down {[ "__proto__" := fresh ]}
            {| body_query := "foo bar"; body_sessionId := Some (JStr "intents") |})
     = Rejected
  /\ sent_message
       (fst (post_query "NIHK" "NIHK" all_down {[ "__proto__" := fresh ]}
               {| body_query := "foo bar"; body_sessionId := Some (JStr "__proto__") |}))
     = Some (pick 0 friendlyResponses)
  /\ fst (post_query "NIHK" "NIHK" all_down ∅
            {| body_query := "foo bar"; body_sessionId := Some no_name |})
     = Rejected
  /\ fst (post_query "NIHK" "NIHK" all_down ∅
            {| body_query := "foo bar"; body_sessionId := Some (JArr [JNum "1"; no_name]) |})
     = Rejected
  /\ session_key {| body_query := "foo bar";
                    body_sessionId := Some (JArr [JNum "1"; JNull; JStr "a"]) |}
     = Some "1,,a".
Proof. repeat split; vm_compute; reflexivity. Qed.

Lemma handler_retries_once_witness :
  exists query intent,
    fst (handler "NIHK" "NIHK" retry_up ∅ (ask "foo bar"))
    = Sent (json (recovery_note +:+ nl +:+ nl +:+ noted_body retry_up [login_issue])
                 (Some one_issue) (Some intent)
                 (Some (call_jql (first_call "NIHK" "NIHK" retry_up query intent))))
    /\ calls (snd (handler "NIHK" "NIHK" retry_up ∅ (ask "foo bar")))
       = [first_call "NIHK" "NIHK" retry_up query intent;
          retry_call "NIHK" "NIHK" query intent].
Proof.
  apply (handler_retries_once "NIHK" "NIHK" retry_up ∅ (ask "foo bar")
           one_issue [login_issue]); try reflexivity.
  vm_compute. discriminate.
Defined.

Lemma analyzeQueryIntent_closed_witness :
  Classifier.keyword_fallback "foo bar" = "GENERAL".
Proof.
  destruct (analyzeQueryIntent_closed_on_failure "NIHK" "foo bar") as (_ & _ & H & _).
  apply H; vm_compute; reflexivity.
Defined.

End HandlerExamples.

(** ** The first two passes of the sanitizer *)

Section SanitizerPasses.
Import Sanitizer.

(** Where no closing parenthesis follows, the look-ahead of the comma
    pattern finds nothing. *)
Lemma no_closing_ahead p k c pre suf :
  no_closing suf = true ->
  greedy p (fun y d => run (chr ")") y d k) c pre suf = None.
Proof.
  revert pre. induction suf as [|a t IH]; intros pre H; simpl; [reflexivity|].
  simpl in H. apply andb_prop in H as [Ha Ht].
  rewrite (IH _ Ht). apply negb_true_iff in Ha. rewrite Ha.
  destruct (p a); reflexivity.
Qed.

Lemma match_at_bare_comma pre suf :
  no_closing suf = true ->
  match_at bare_comma (Pos pre suf)
  = match suf with
    | a :: t => if Ascii.eqb ","%char a then Some (Pos (a :: pre) t, []) else None
    | [] => None
    end.
Proof.
  intros H. unfold match_at, bare_comma. rewrite run_cat.
  unfold chr at 1. rewrite run_cls. simpl after. simpl before.
  destruct suf as [|a t]; [reflexivity|].
  destruct (Ascii.eqb "," a); [|reflexivity].
  simpl in H. apply andb_prop in H as [_ Ht].
  rewrite run_nla, run_cat, run_star_cls. simpl before. simpl after.
  rewrite no_closing_ahead by exact Ht. reflexivity.
Qed.

Lemma commas_to_and_none (l : list ascii) :
  (forall b, In b l -> Ascii.eqb ","%char b = false) -> commas_to_and l = l.
Proof.
  induction l as [|a l IH]; intros H; [reflexivity|].
  unfold commas_to_and in *. cbn [flat_map]. rewrite (H a) by (left; reflexivity).
  cbn [app]. f_equal. apply IH. intros b Hb. apply H. right. exact Hb.
Qed.

Lemma no_closing_app u v : no_closing (u ++ v) = true -> no_closing v = true.
Proof. unfold no_closing. rewrite forallb_app. intros H. apply andb_prop in H. tauto. Qed.

Lemma replace_from_commas fuel pre suf :
  length suf < fuel -> no_closing suf = true ->
  replace_from bare_comma (const " AND ") fuel pre suf = commas_to_and suf.
Proof.
  revert pre suf. induction fuel as [|f IH]; intros pre suf Hf Hn; [lia|].
  simpl. destruct (find bare_comma pre suf) as [[[x y] d]|] eqn:Hfind.
  - destruct (find_some _ _ _ _ _ _ Hfind) as (u & Hu & Hb & Hm & Hnone).
    destruct x as [px sx]. simpl in Hu, Hb, Hm, Hnone |- *.
    assert (Hsx : no_closing sx = true) by (rewrite Hu in Hn; exact (no_closing_app _ _ Hn)).
    rewrite match_at_bare_comma in Hm by exact Hsx.
    destruct sx as [|a t]; [discriminate|].
    destruct (Ascii.eqb "," a) eqn:Ha; [|discriminate]. injection Hm as <- <-. simpl.
    rewrite Hu, firstn_skipped.
    replace (length t <? S (length t)) with true
      by (symmetry; apply Nat.ltb_lt; lia).
    rewrite IH; [| subst suf; rewrite length_app in Hf; simpl in Hf; lia
                | simpl in Hsx; apply andb_prop in Hsx; tauto ].
    unfold commas_to_and at 2. rewrite flat_map_app. cbn [flat_map]. rewrite Ha.
    fold (commas_to_and u). fold (commas_to_and t).
    rewrite (commas_to_and_none u); [reflexivity|].
    intros b Hin. apply in_split in Hin as (u1 & u2 & ->).
    specialize (Hnone u1 b u2 eq_refl).
    rewrite match_at_bare_comma in Hnone.
    + destruct (Ascii.eqb "," b); [discriminate | reflexivity].
    + rewrite Hu, <- app_assoc in Hn. exact (no_closing_app _ _ Hn).
  - symmetry. apply commas_to_and_none. intros b Hin.
    apply in_split in Hin as (u1 & u2 & ->).
    pose proof (find_none _ _ _ Hfind u1 (b :: u2) eq_refl) as Hnone.
    rewrite match_at_bare_comma in Hnone by exact (no_closing_app _ _ Hn).
    destruct (Ascii.eqb "," b); [discriminate | reflexivity].
Qed.

Lemma prefix_app_l (a b hay : string) :
  String.prefix (a +:+ b) hay = true -> String.prefix a hay = true.
Proof.
  revert hay. induction a as [|c a IH]; intros hay H; [destruct hay; reflexivity|].
  destruct hay as [|h hay]; simpl in *; [discriminate|].
  destruct (ascii_dec c h); [apply IH; exact H | discriminate].
Qed.

Lemma includes_app_l (hay a b : string) :
  Js.includes hay (a +:+ b) = true -> Js.includes hay a = true.
Proof.
  induction hay as [|h hay IH]; cbn [Js.includes]; intros H.
  - rewrite orb_false_r in *. exact (prefix_app_l _ _ _ H).
  - apply orb_prop in H as [H|H].
    + rewrite (prefix_app_l _ _ _ H). reflexivity.
    + rewrite (IH H). apply orb_true_r.
Qed.

(** C4, amended.  The comma pass turns the bare comma into [ AND ], spaces
    included: in a text without a closing parenthesis it does so for every
    comma, and on the scenario's input it gives
    [status = \x22Open\x22 AND  assignee = \x22Jo\x22]; the scope step then
    wraps that text in the project clause of the configured key. *)
Theorem comma_becomes_and (key : string) :
  (forall jql, no_closing (Js.chars jql) = true ->
     Js.chars (fix_commas jql) = commas_to_and (Js.chars jql))
  /\ fix_commas comma_separated = Js.text "status = `Open` AND  assignee = `Jo`"
  /\ ensure_project key (fix_commas comma_separated)
     = "project = " +:+ key +:+ Js.text " AND (status = `Open` AND  assignee = `Jo`)".
Proof.
  split; [|split].
  - intros jql H. unfold fix_commas, replace_all. rewrite chars_str.
    apply replace_from_commas; [rewrite chars_length; lia | exact H].
  - vm_compute. reflexivity.
  - replace (fix_commas comma_separated)
      with (Js.text "status = `Open` AND  assignee = `Jo`") by (vm_compute; reflexivity).
    unfold ensure_project.
    assert (H : forall rest, Js.includes (Js.text "status = `Open` AND  assignee = `Jo`")
                               ("project = " +:+ rest) = false).
    { intros rest. destruct (Js.includes _ ("project = " +:+ rest)) eqn:E; [|reflexivity].
      apply includes_app_l in E. vm_compute in E. discriminate. }
    unfold scope_quoted, scope. rewrite !H. reflexivity.
Qed.

Lemma comma_becomes_and_witness :
  fix_commas "a = 1, b = 2,c" = "a = 1 AND  b = 2 AND c".
Proof.
  destruct (comma_becomes_and "NIHK") as (H & _ & _).
  rewrite <- (str_chars (fix_commas "a = 1, b = 2,c")), H; reflexivity.
Defined.

(** The scope step on its own does what the sanitizer is meant to ensure:
    its result holds the project clause, and a second application changes
    nothing. *)
Lemma prefix_self_app (a b : string) : String.prefix a (a +:+ b) = true.
Proof.
  induction a as [|c a IH]; simpl; [destruct b; reflexivity|].
  destruct (ascii_dec c c); [exact IH | congruence].
Qed.

Lemma ensure_project_scoped (key s : string) :
  Js.includes (ensure_project key s) (scope key) = true
  \/ Js.includes (ensure_project key s) (scope_quoted key) = true.
Proof.
  unfold ensure_project.
  destruct (Js.includes s (scope_quoted key)) eqn:E1; [right; exact E1|].
  destruct (Js.includes s (scope key)) eqn:E2; [left; exact E2|].
  left. simpl negb. simpl andb. cbv iota.
  destruct (scope key +:+ " AND (" +:+ s +:+ ")") eqn:E; cbn [Js.includes];
    rewrite <- E, prefix_self_app; reflexivity.
Qed.

Lemma ensure_project_idempotent (key s : string) :
  ensure_project key (ensure_project key s) = ensure_project key s.
Proof.
  destruct (ensure_project_scoped key s) as [H|H];
    unfold ensure_project at 1; rewrite H; simpl; try reflexivity.
  rewrite andb_false_r. reflexivity.
Qed.

End SanitizerPasses.

(** * Invariants and characterisations *)

(** ** The comma pass on any text *)

Section CommaPass.
Import Sanitizer.

Lemma not_open_paren a : none_of "(" a = negb (Ascii.eqb "("%char a).
Proof. unfold none_of, one_of. simpl. rewrite orb_false_r, Ascii.eqb_sym. reflexivity. Qed.

Lemma run_chr ch pre a t c k :
  run (chr ch) (Pos pre (a :: t)) c k
  = if Ascii.eqb ch a then k (Pos (a :: pre) t) c else None.
Proof. reflexivity. Qed.

Lemma closing_ahead c pre suf :
  match greedy (none_of "(") (fun y d => run (chr ")") y d (fun z e => Some (z, e)))
               c pre suf with
  | Some _ => true
  | None => false
  end = closes suf.
Proof.
  revert pre. induction suf as [|a t IH]; intros pre; [reflexivity|].
  cbn [greedy closes]. rewrite not_open_paren. specialize (IH (a :: pre)).
  rewrite run_chr.
  destruct (Ascii.eqb ")" a) eqn:Ec.
  - destruct (negb _); [destruct (greedy _ _ _ _ _)|]; reflexivity.
  - destruct (Ascii.eqb "(" a); cbn [negb]; [reflexivity|].
    destruct (greedy _ _ _ _ _); exact IH.
Qed.

Lemma match_at_comma pre suf :
  match_at bare_comma (Pos pre suf)
  = match suf with
    | a :: t => if Ascii.eqb ","%char a && negb (closes t)
                then Some (Pos (a :: pre) t, []) else None
    | [] => None
    end.
Proof.
  unfold match_at, bare_comma. rewrite run_cat.
  unfold chr at 1. rewrite run_cls. cbn [after before].
  destruct suf as [|a t]; [reflexivity|].
  destruct (Ascii.eqb "," a); [|reflexivity]. cbn [andb].
  rewrite run_nla, run_cat, run_star_cls. cbn [after before].
  rewrite <- (closing_ahead [] (a :: pre) t).
  destruct (greedy _ _ _ _ _); reflexivity.
Qed.

Lemma commas_outside_skip (u rest : list ascii) :
  (forall u1 b u2, u = u1 ++ b :: u2 ->
     Ascii.eqb ","%char b && negb (closes (u2 ++ rest)) = false) ->
  commas_outside (u ++ rest) = u ++ commas_outside rest.
Proof.
  induction u as [|a u IH]; intros H; [reflexivity|].
  cbn [app commas_outside]. rewrite (H [] a u eq_refl). cbn [app]. f_equal.
  apply IH. intros u1 b u2 ->. exact (H (a :: u1) b u2 eq_refl).
Qed.

Lemma replace_from_comma_pass fuel pre suf :
  length suf < fuel ->
  replace_from bare_comma (const " AND ") fuel pre suf = commas_outside suf.
Proof.
  revert pre suf. induction fuel as [|f IH]; intros pre suf Hf; [lia|].
  cbn [replace_from]. destruct (find bare_comma pre suf) as [[[x y] d]|] eqn:Hfind.
  - destruct (find_some _ _ _ _ _ _ Hfind) as (u & Hu & Hb & Hm & Hnone).
    destruct x as [px sx]. cbn [after before] in Hu, Hb, Hm, Hnone |- *.
    rewrite match_at_comma in Hm.
    destruct sx as [|a t]; [discriminate|].
    destruct (Ascii.eqb "," a && negb (closes t)) eqn:Ha; [|discriminate].
    injection Hm as <- <-. cbn [after before].
    rewrite Hu, firstn_skipped.
    replace (length t <? length (a :: t)) with true
      by (symmetry; apply Nat.ltb_lt; simpl; lia).
    rewrite IH by (subst suf; rewrite length_app in Hf; simpl in Hf; lia).
    rewrite commas_outside_skip.
    + cbn [commas_outside]. rewrite Ha. reflexivity.
    + intros u1 b u2 ->. specialize (Hnone u1 b u2 eq_refl).
      rewrite match_at_comma in Hnone.
      destruct (Ascii.eqb "," b && negb (closes (u2 ++ a :: t))); [discriminate|reflexivity].
  - rewrite <- (app_nil_r suf) at 2. rewrite commas_outside_skip; [symmetry; apply app_nil_r|].
    intros u1 b u2 ->.
    pose proof (find_none _ _ _ Hfind u1 (b :: u2) eq_refl) as Hnone.
    rewrite match_at_comma in Hnone. rewrite app_nil_r.
    destruct (Ascii.eqb "," b && negb (closes u2)); [discriminate|reflexivity].
Qed.

(** X2.  The comma pass, on every text: a comma becomes [ AND ] exactly when no
    closing parenthesis follows it before the next opening one. *)
Theorem fix_commas_outside_parentheses (jql : string) :
  Js.chars (fix_commas jql) = commas_outside (Js.chars jql).
Proof.
  unfold fix_commas, replace_all. rewrite chars_str.
  apply replace_from_comma_pass. rewrite chars_length. lia.
Qed.

End CommaPass.

(** ** Patterns that cannot match, and alternatives *)

Section EngineFailure.

(** A pattern followed by something that never matches never matches. *)
Lemma run_fail r : forall x c k,
  (forall y d, k y d = None) -> run r x c k = None.
Proof.
  induction r as [|p|r1 IH1 r2 IH2|r1 IH1 r2 IH2|r1 IH1|n r1 IH1| | | |r1 IH1|p];
    intros x c k Hk.
  - apply Hk.
  - rewrite run_cls. destruct (after x); [reflexivity|]. destruct (p a); [apply Hk|reflexivity].
  - rewrite run_cat. apply IH1. intros y d. apply IH2. exact Hk.
  - cbn [run]. rewrite IH1 by exact Hk. apply IH2. exact Hk.
  - rewrite run_star. generalize (S (length (after x))). intros fuel. revert x c.
    induction fuel as [|f IHf]; intros x c; cbn [star_iter]; [apply Hk|].
    fold (star_iter r1 k). rewrite IH1; [apply Hk|].
    intros y d. destruct (_ <? _); [apply IHf | reflexivity].
  - cbn [run]. apply IH1. intros y d. apply Hk.
  - rewrite run_bol. destruct (before x); [apply Hk | reflexivity].
  - rewrite run_eol. destruct (after x); [apply Hk | reflexivity].
  - cbn [run]. destruct (xorb _ _); [apply Hk | reflexivity].
  - rewrite run_nla. destruct (run r1 x c _); [reflexivity | apply Hk].
  - cbn [run]. destruct (before x); [apply Hk|]. destruct (p a); [reflexivity | apply Hk].
Qed.

Lemma find_never r :
  (forall x, match_at r x = None) -> forall pre suf, find r pre suf = None.
Proof.
  intros H pre suf. revert pre. induction suf as [|a t IH]; intros pre; cbn [find];
    rewrite H; [reflexivity | apply IH].
Qed.

(** The first alternative matching is enough. *)
Lemma find_alt_l r1 r2 pre suf :
  find r1 pre suf <> None -> find (Alt r1 r2) pre suf <> None.
Proof.
  revert pre. induction suf as [|a t IH]; intros pre; cbn [find]; unfold match_at; cbn [run];
    destruct (run r1 _ _ _) as [[y d]|]; try discriminate; try congruence.
  destruct (run r2 _ _ _) as [[y d]|]; [discriminate | apply IH].
Qed.

Lemma test_alt_l r1 r2 s : test r1 s = true -> test (Alt r1 r2) s = true.
Proof.
  unfold test. intros H. pose proof (find_alt_l r1 r2 [] (Js.chars s)) as Ha.
  destruct (find r1 _ _); [|discriminate].
  destruct (find (Alt r1 r2) _ _); [reflexivity|]. exfalso. apply Ha; congruence.
Qed.

End EngineFailure.

Section ClassifierRules.
Import Classifier.

(** After the end of the input nothing can follow: the pattern of the
    issue-details rule matches no text. *)
Lemma details_re_dead (s : string) : test details_re s = false.
Proof.
  unfold test. rewrite find_never; [reflexivity|].
  intros x. unfold match_at, details_re, seq. cbn [fold_right].
  rewrite run_cat. apply run_fail. intros y d.
  rewrite run_cat. apply run_fail. intros y1 d1.
  rewrite run_cat. apply run_fail. intros y2 d2.
  rewrite run_cat, run_eol. destruct (after y2) eqn:E; [|reflexivity].
  cbn. rewrite E. reflexivity.
Qed.

(** X3.  A text that holds the word sprint, in any letter case, is classified
    [SPRINT] whatever the generative model answers. *)
Theorem sprint_rule_first (key : string) (reply : option string) (query : string) :
  test (lit_i "sprint") query = true ->
  analyzeQueryIntent key reply query = "SPRINT".
Proof.
  intros H. unfold analyzeQueryIntent.
  replace (test sprint_re query) with true; [reflexivity|].
  symmetry. exact (test_alt_l _ _ _ H).
Qed.

Lemma sprint_rule_first_witness :
  analyzeQueryIntent "NIHK" (Some "GREETING") "Hello, how is the Sprint going?" = "SPRINT".
Proof.
  apply sprint_rule_first. vm_compute. reflexivity.
Defined.

End ClassifierRules.

(** ** Trimming and lower-casing *)

Section TrimAndCase.

Ltac each_ascii a := destruct a as [[] [] [] [] [] [] [] []].

Lemma lower_idem a : Js.lower (Js.lower a) = Js.lower a.
Proof. each_ascii a; vm_compute; reflexivity. Qed.

Lemma lower_space a : Js.is_space (Js.lower a) = Js.is_space a.
Proof. each_ascii a; vm_compute; reflexivity. Qed.

Lemma drop_space_lower l :
  Js.drop_space (map Js.lower l) = map Js.lower (Js.drop_space l).
Proof.
  induction l as [|a l IH]; [reflexivity|]. cbn [map Js.drop_space].
  rewrite lower_space. destruct (Js.is_space a); [exact IH | reflexivity].
Qed.

Lemma trim_chars_lower l :
  Js.trim_chars (map Js.lower l) = map Js.lower (Js.trim_chars l).
Proof.
  unfold Js.trim_chars. rewrite drop_space_lower, <- map_rev, drop_space_lower, map_rev.
  reflexivity.
Qed.

(** What [drop_space] removes is white space, and what it leaves starts
    outside white space. *)
Lemma drop_space_split l :
  exists ws, l = ws ++ Js.drop_space l /\ forallb Js.is_space ws = true.
Proof.
  induction l as [|a l (ws & Hl & Hws)]; [exists []; split; reflexivity|].
  cbn [Js.drop_space]. destruct (Js.is_space a) eqn:E.
  - exists (a :: ws). cbn. rewrite E, Hws, <- Hl. split; reflexivity.
  - exists []. split; reflexivity.
Qed.

Lemma drop_space_head l :
  match Js.drop_space l with a :: _ => Js.is_space a = false | [] => True end.
Proof.
  induction l as [|a l IH]; [exact I|]. cbn [Js.drop_space].
  destruct (Js.is_space a) eqn:E; [exact IH | exact E].
Qed.

Lemma drop_space_fixed l :
  match l with a :: _ => Js.is_space a = false | [] => True end ->
  Js.drop_space l = l.
Proof. destruct l as [|a l]; [reflexivity|]. cbn. intros ->. reflexivity. Qed.

Lemma trim_chars_idem l : Js.trim_chars (Js.trim_chars l) = Js.trim_chars l.
Proof.
  unfold Js.trim_chars.
  pose proof (drop_space_head l) as Hm. set (m := Js.drop_space l) in *.
  pose proof (drop_space_head (rev m)) as Hn.
  destruct (drop_space_split (rev m)) as (ws & Hs & _).
  set (n := Js.drop_space (rev m)) in *.
  assert (Hrn : Js.drop_space (rev n) = rev n).
  { apply drop_space_fixed. apply (f_equal (@rev ascii)) in Hs.
    rewrite rev_involutive, rev_app_distr in Hs.
    destruct (rev n) as [|b t]; [exact I|]. rewrite Hs in Hm. exact Hm. }
  rewrite Hrn, rev_involutive. rewrite (drop_space_fixed n Hn). reflexivity.
Qed.

Lemma trim_idem s : Js.trim (Js.trim s) = Js.trim s.
Proof. unfold Js.trim. rewrite chars_str, trim_chars_idem. reflexivity. Qed.

Lemma drop_space_incl l a : In a (Js.drop_space l) -> In a l.
Proof.
  destruct (drop_space_split l) as (ws & Hs & _). intros H. rewrite Hs.
  apply in_or_app. right. exact H.
Qed.

Lemma trim_chars_incl l a : In a (Js.trim_chars l) -> In a l.
Proof.
  unfold Js.trim_chars. intros H. apply in_rev in H. apply drop_space_incl in H.
  apply in_rev in H. apply drop_space_incl in H. exact H.
Qed.

Lemma map_lower_fixed l :
  (forall a, In a l -> Js.lower a = a) -> map Js.lower l = l.
Proof.
  induction l as [|a l IH]; intros H; [reflexivity|]. cbn [map].
  rewrite (H a) by (left; reflexivity). f_equal. apply IH. intros b Hb. apply H.
  right. exact Hb.
Qed.

Lemma toLowerCase_idem s : Js.toLowerCase (Js.toLowerCase s) = Js.toLowerCase s.
Proof.
  unfold Js.toLowerCase. rewrite chars_str, map_map. f_equal.
  apply map_ext. intros a. apply lower_idem.
Qed.

Lemma trim_toLowerCase s : Js.trim (Js.toLowerCase s) = Js.toLowerCase (Js.trim s).
Proof.
  unfold Js.trim, Js.toLowerCase. rewrite !chars_str, trim_chars_lower. reflexivity.
Qed.

End TrimAndCase.

(** ** The normal form of the normalizer *)

Section NormalForm.
Import Normalizer.

Lemma normal_lowered_trimmed (query : string) :
  normal (Js.toLowerCase (Js.trim query)).
Proof.
  split.
  - rewrite trim_toLowerCase, trim_idem. reflexivity.
  - apply toLowerCase_idem.
Qed.

Lemma normal_cleaned (query : string) :
  normal (Js.trim (strip_punctuation (Js.toLowerCase (Js.trim query)))).
Proof.
  split; [apply trim_idem|].
  rewrite strip_punctuation_filter.
  assert (Hl : forall a, In a (List.filter (fun c => negb (is_punctuation c))
                                 (Js.chars (Js.toLowerCase (Js.trim query)))) ->
                         Js.lower a = a).
  { intros a Ha. apply List.filter_In in Ha as [Ha _].
    unfold Js.toLowerCase in Ha. rewrite chars_str in Ha.
    apply in_map_iff in Ha as (b & <- & _). apply lower_idem. }
  revert Hl. generalize (List.filter (fun c => negb (is_punctuation c))
                           (Js.chars (Js.toLowerCase (Js.trim query)))).
  intros l Hl. unfold Js.toLowerCase, Js.trim. rewrite !chars_str.
  rewrite map_lower_fixed; [reflexivity|].
  intros a Ha. apply Hl. apply trim_chars_incl. exact Ha.
Qed.
(** X4.  Whatever the input, the normalizer returns a text without white space at
    its ends and without an upper-case letter: trimming it or lower-casing
    it again changes nothing. *)
Theorem preprocessQuery_normal_form (key query : string) :
  Js.trim (preprocessQuery key query) = preprocessQuery key query
  /\ Js.toLowerCase (preprocessQuery key query) = preprocessQuery key query.
Proof.
  change (normal (preprocessQuery key query)).
  unfold preprocessQuery.
  destruct (first_match _ _) as [m|] eqn:E; [|apply normal_cleaned].
  unfold first_match, queryMappings in E. cbn [List.find regex_of] in E.
  repeat match type of E with
         | context [if ?b then _ else _] =>
             destruct b; [injection E as <-; cbn [standardized];
                          first [ split; vm_compute; reflexivity
                                | apply normal_lowered_trimmed ] |]
         end.
  discriminate.
Qed.

End NormalForm.

(** ** An entry of the phrasing table that is never reached *)

Section Shadowing.
Import Normalizer.

(** Some pattern of the table matches: the loop finds an entry. *)
Lemma first_match_found (ms : list mapping) (query : string) :
  existsb (fun m => test (regex_of m) query) ms = true -> first_match ms query <> None.
Proof.
  unfold first_match. induction ms as [|m ms IH]; cbn [existsb List.find]; [discriminate|].
  destruct (test (regex_of m) query); [discriminate | exact IH].
Qed.

(** The classes of a literal under the [i] flag, one per code unit. *)
Lemma run_lit_i (s : string) x c k :
  run (lit_i s) x c k
  = match eat (map Js.eq_ci (Js.chars s)) x with
    | Some y => k y c
    | None => None
    end.
Proof. rewrite lit_i_classes, run_classes. reflexivity. Qed.

Lemma match_at_alt_none r1 r2 x :
  match_at (Alt r1 r2) x = None <-> match_at r1 x = None /\ match_at r2 x = None.
Proof.
  unfold match_at. cbn [run]. destruct (run r1 x [] _); [|tauto].
  split; [discriminate | intros [H _]; discriminate H].
Qed.

(** A literal of the list matches where its classes accept the text. *)
Lemma match_at_words (ws : list string) (s : string) x y :
  In s ws -> eat (map Js.eq_ci (Js.chars s)) x = Some y ->
  match_at (words_i ws) x <> None.
Proof.
  intros Hin He. unfold words_i.
  assert (Hs : match_at (lit_i s) x <> None)
    by (unfold match_at; rewrite run_lit_i, He; discriminate).
  induction ws as [|w ws IH]; [contradiction|].
  destruct ws as [|w' ws]; cbn [map alts].
  - destruct Hin as [->|[]]. exact Hs.
  - intros Hn. apply match_at_alt_none in Hn as [H1 H2]. destruct Hin as [->|Hin].
    + exact (Hs H1).
    + exact (IH Hin H2).
Qed.

(** A match somewhere in the text is enough for the search. *)
Lemma find_reaches r (u : list ascii) : forall pre rest,
  match_at r (Pos (rev u ++ pre) rest) <> None -> find r pre (u ++ rest) <> None.
Proof.
  induction u as [|a u IH]; intros pre rest H.
  - cbn [app rev] in *. destruct rest; cbn [find];
      destruct (match_at r _) as [[y d]|]; congruence.
  - cbn [app find]. destruct (match_at r (Pos pre _)) as [[y d]|]; [discriminate|].
    apply IH. cbn [rev] in H. rewrite <- app_assoc in H. exact H.
Qed.

Lemma test_reaches r (s : string) (u rest : list ascii) :
  Js.chars s = u ++ rest -> match_at r (Pos (rev u) rest) <> None -> test r s = true.
Proof.
  intros Hs Hm. unfold test. rewrite Hs.
  pose proof (find_reaches r u [] rest) as H. rewrite app_nil_r in H.
  destruct (find r [] (u ++ rest)); [reflexivity | exfalso; exact (H Hm eq_refl)].
Qed.

(** The pattern of the entry for the most recently updated task matches
    only texts that the pattern of the entry for recent updates, which
    stands before it in the table, matches too. *)
Lemma most_recent_shadowed (rest : regex) (s : string) :
  test (Cat (words_i ["latest"; "most recent"; "last"]) rest) s = true ->
  test (words_i recent_words) s = true.
Proof.
  unfold test at 1. destruct (find _ _ _) as [[[x y] d]|] eqn:Hf; [intros _|discriminate].
  apply find_some in Hf as (u & Hu & Hb & Hm & _). rewrite app_nil_r in Hb.
  destruct x as [px sx]. cbn [before after] in Hu, Hb. subst px.
  unfold match_at in Hm. rewrite run_cat in Hm. unfold words_i in Hm. cbn [map alts run] in Hm.
  rewrite !run_lit_i in Hm.
  destruct (eat (map Js.eq_ci (Js.chars "latest")) (Pos (rev u) sx)) as [y1|] eqn:E1.
  { apply (test_reaches _ s u sx Hu). apply (match_at_words recent_words "latest" _ y1 ltac:(simpl; tauto) E1). }
  destruct (eat (map Js.eq_ci (Js.chars "most recent")) (Pos (rev u) sx)) as [y2|] eqn:E2.
  { change (map Js.eq_ci (Js.chars "most recent"))
      with (map Js.eq_ci (Js.chars "most ") ++ map Js.eq_ci (Js.chars "recent")) in E2.
    rewrite eat_app_classes in E2.
    destruct (eat (map Js.eq_ci (Js.chars "most ")) (Pos (rev u) sx)) as [x5|] eqn:E5;
      [|discriminate].
    apply eat_some in E5 as (m & Hm1 & Hm2 & _). cbn [before after] in Hm1, Hm2.
    destruct x5 as [p5 s5]. cbn [before after] in Hm1, Hm2. subst p5.
    rewrite <- rev_app_distr in E2.
    apply (test_reaches _ s (u ++ m) s5).
    - rewrite Hu, Hm1, app_assoc. reflexivity.
    - apply (match_at_words recent_words "recent" _ y2 ltac:(simpl; tauto) E2). }
  destruct (eat (map Js.eq_ci (Js.chars "last")) (Pos (rev u) sx)) as [y3|] eqn:E3;
    [|discriminate].
  apply (test_reaches _ s u sx Hu).
  apply (match_at_words recent_words "last" _ y3 ltac:(simpl; tauto) E3).
Qed.

Lemma test_alt_l_false r1 r2 s : test (Alt r1 r2) s = false -> test r1 s = false.
Proof.
  intros H. destruct (test r1 s) eqn:E; [|reflexivity].
  rewrite (test_alt_l _ _ _ E) in H. discriminate.
Qed.

(** X5.  The entry of the phrasing table for the most recently updated task is
    never the first that matches, because the entry for recent updates
    stands before it and matches whatever it matches.  So the normalizer
    returns the phrase that opens the view of the most recent task only from
    its cleanup branch, on an input that does not hold the word [recent]:
    one that spells the phrase with punctuation inside that word. *)
Theorem most_recent_phrase_only_by_cleanup (key query : string) :
  preprocessQuery key query = "show most recently updated task" ->
  first_match (queryMappings key (Js.toLowerCase (Js.trim query)))
              (Js.toLowerCase (Js.trim query)) = None
  /\ test (lit_i "recent") (Js.toLowerCase (Js.trim query)) = false.
Proof.
  unfold preprocessQuery.
  destruct (first_match _ _) as [m|] eqn:E; intros H;
    unfold first_match, queryMappings in E; cbn [List.find regex_of] in E.
  - exfalso.
    repeat match type of E with
           | context [if ?b then _ else _] =>
               destruct b eqn:?;
               [injection E as <-; cbn [standardized] in H;
                first
                  [ discriminate H
                  | match goal with
                    | H26 : test (seq (words_i ("latest" :: _) :: _)) _ = true,
                      H20 : test (words_i ("recent" :: _)) _ = false |- _ =>
                        apply most_recent_shadowed in H26;
                        unfold recent_words in H26; congruence
                    end
                  | match goal with
                    | H20 : test (words_i ("recent" :: _)) _ = false |- _ =>
                        rewrite H in H20; vm_compute in H20; discriminate H20
                    end ]
               |]
           end.
    discriminate E.
  - split; [reflexivity|].
    repeat match type of E with
           | context [if ?b then _ else _] =>
               destruct b eqn:?; [discriminate E|]
           end.
    match goal with
    | H20 : test (words_i ("recent" :: _)) _ = false |- _ =>
        exact (test_alt_l_false _ _ _ H20)
    end.
Qed.

Lemma most_recent_phrase_only_by_cleanup_witness :
  first_match (queryMappings "NIHK" (Js.toLowerCase (Js.trim "Show most rec.ently updated task")))
              (Js.toLowerCase (Js.trim "Show most rec.ently updated task")) = None
  /\ test (lit_i "recent") (Js.toLowerCase (Js.trim "Show most rec.ently updated task")) = false.
Proof.
  apply (most_recent_phrase_only_by_cleanup "NIHK" "Show most rec.ently updated task").
  vm_compute. reflexivity.
Defined.

End Shadowing.

(** ** What the rules and the keyword fallback can return *)

Section Alternatives.

Lemma match_at_alts (rs : list regex) (r : regex) x :
  In r rs -> match_at r x <> None -> match_at (alts rs) x <> None.
Proof.
  intros Hin Hr. induction rs as [|r0 rs IH]; [contradiction|].
  destruct rs as [|r1 rs]; cbn [alts].
  - destruct Hin as [->|[]]. exact Hr.
  - intros Hn. apply match_at_alt_none in Hn as [H0 H1]. destruct Hin as [->|Hin].
    + exact (Hr H0).
    + exact (IH Hin H1).
Qed.

Lemma match_at_alts_inv (rs : list regex) x :
  match_at (alts rs) x <> None -> exists r, In r rs /\ match_at r x <> None.
Proof.
  induction rs as [|r0 rs IH]; cbn [alts].
  - intros H. exfalso. apply H. reflexivity.
  - destruct rs as [|r1 rs]; cbn [alts].
    + intros H. exists r0. split; [left; reflexivity | exact H].
    + intros H. destruct (match_at r0 x) as [v|] eqn:E0.
      * exists r0. split; [left; reflexivity | rewrite E0; discriminate].
      * destruct IH as (r & Hin & Hr).
        -- intros Hn. apply H. apply match_at_alt_none. split; assumption.
        -- exists r. split; [right; exact Hin | exact Hr].
Qed.

(** More alternatives match more texts. *)
Lemma test_alts_subset (rs1 rs2 : list regex) (s : string) :
  (forall r, In r rs1 -> In r rs2) ->
  test (alts rs1) s = true -> test (alts rs2) s = true.
Proof.
  intros Hsub. unfold test at 1.
  destruct (find _ _ _) as [[[x y] d]|] eqn:Hf; [intros _|discriminate].
  apply find_some in Hf as (u & Hu & Hb & Hm & _). rewrite app_nil_r in Hb.
  destruct x as [px sx]. cbn [before after] in Hu, Hb. subst px.
  destruct (match_at_alts_inv rs1 (Pos (rev u) sx)) as (r & Hin & Hr);
    [rewrite Hm; discriminate|].
  apply (test_reaches _ s u sx Hu). exact (match_at_alts rs2 r _ (Hsub r Hin) Hr).
Qed.

Lemma test_alts_subset_false (rs1 rs2 : list regex) (s : string) :
  (forall r, In r rs1 -> In r rs2) ->
  test (alts rs2) s = false -> test (alts rs1) s = false.
Proof.
  intros Hsub H. destruct (test (alts rs1) s) eqn:E; [|reflexivity].
  rewrite (test_alts_subset _ _ _ Hsub E) in H. discriminate.
Qed.

End Alternatives.

Section ClassifierReach.
Import Classifier Normalizer.

Ltac split_ifs :=
  repeat match goal with
         | |- context [if ?b then _ else _] => destruct b
         end.

(** X6.  The classifier answers [TASK_DETAILS] or [CONVERSATION] only when the
    generative model says so: the rule written for issue details never
    fires, no rule gives [CONVERSATION], and the keyword fallback has
    neither case. *)
Theorem model_only_intents (key : string) (reply : option string) (query : string) :
  In (analyzeQueryIntent key reply query) ["TASK_DETAILS"; "CONVERSATION"] ->
  exists content,
    reply = Some content /\ Js.trim content = analyzeQueryIntent key reply query.
Proof.
  unfold analyzeQueryIntent. rewrite details_re_dead, andb_false_r.
  destruct reply as [content|].
  - split_ifs; try (intros [H|[H|[]]]; discriminate H).
    intros _. exists content. split; reflexivity.
  - unfold keyword_fallback. split_ifs; intros [H|[H|[]]]; discriminate H.
Qed.

Lemma model_only_intents_witness :
  exists content,
    Some " CONVERSATION " = Some content
    /\ Js.trim content = analyzeQueryIntent "NIHK" (Some " CONVERSATION ") "thanks a lot".
Proof.
  apply (model_only_intents "NIHK" (Some " CONVERSATION ") "thanks a lot").
  right. left. vm_compute. reflexivity.
Defined.

(** X7.  Where the classifier falls back on keywords (the chat completion
    failed and no rule fired), the fallback returns [PROJECT_STATUS],
    [TASK_LIST] or [GENERAL] and nothing else: its branches for the timeline,
    blockers, assignments, comments, the workload and the sprint test
    patterns that a rule has tested before. *)
Theorem keyword_fallback_after_rules (query : string) :
  test sprint_re query = false ->
  test timeline_re query = false ->
  test blockers_re query = false ->
  test workload_re query = false ->
  test assigned_re query = false ->
  test comments_re query = false ->
  In (keyword_fallback query) ["PROJECT_STATUS"; "TASK_LIST"; "GENERAL"].
Proof.
  intros Hs Ht Hb Hw Ha Hc.
  assert (Hbf : test blockers_fallback_re query = false).
  { unfold blockers_fallback_re, blockers_re, words_i in *. revert Hb.
    apply test_alts_subset_false. intros r Hr. cbn [map In] in *. tauto. }
  assert (Hwf : test workload_fallback_re query = false).
  { unfold workload_fallback_re, workload_re, words_i in *. revert Hw.
    apply test_alts_subset_false. intros r Hr. cbn [map In] in *. tauto. }
  assert (Hsf : test (lit_i "sprint") query = false).
  { unfold sprint_re, words_i in Hs. cbn [map alts] in Hs.
    exact (test_alt_l_false _ _ _ Hs). }
  unfold keyword_fallback. rewrite Ht, Hbf, Ha, Hc, Hwf, Hsf.
  destruct (test status_fallback_re query); [left; reflexivity|].
  destruct (test listing_fallback_re query); [right; left; reflexivity|].
  right. right. left. reflexivity.
Qed.

Lemma keyword_fallback_after_rules_witness :
  In (keyword_fallback "any progress?") ["PROJECT_STATUS"; "TASK_LIST"; "GENERAL"].
Proof. apply keyword_fallback_after_rules; vm_compute; reflexivity. Defined.

(** The rules of the classifier on the standardized phrases. *)
Lemma classify_phrases (key : string) (reply : option string) :
  Forall (fun e => analyzeQueryIntent key reply (fst e) = snd e) phrase_intents.
Proof.
  unfold phrase_intents.
  repeat (apply List.Forall_cons;
          [cbn [fst snd]; unfold analyzeQueryIntent;
           rewrite details_re_dead, andb_false_r; vm_compute; reflexivity|]).
  apply List.Forall_nil.
Qed.

(** What the phrasing table returns is one of the standardized phrases. *)
Lemma standardized_in_phrases (key query : string) :
  first_match (queryMappings key (Js.toLowerCase (Js.trim query)))
              (Js.toLowerCase (Js.trim query)) <> None ->
  test (issue_request key) (Js.toLowerCase (Js.trim query)) = false ->
  In (preprocessQuery key query) (map fst phrase_intents).
Proof.
  intros Hm Hreq. unfold preprocessQuery.
  destruct (first_match _ _) as [m|] eqn:E; [clear Hm | contradiction Hm; reflexivity].
  unfold first_match, queryMappings in E. cbn [List.find regex_of] in E.
  rewrite Hreq in E.
  repeat match type of E with
         | context [if ?b then _ else _] =>
             destruct b;
             [injection E as <-; cbn [standardized]; unfold phrase_intents;
              cbn [map fst In]; tauto |]
         end.
  discriminate.
Qed.

Lemma standardized_intent (key : string) (reply : option string) (query : string) :
  first_match (queryMappings key (Js.toLowerCase (Js.trim query)))
              (Js.toLowerCase (Js.trim query)) <> None ->
  test (issue_request key) (Js.toLowerCase (Js.trim query)) = false ->
  exists e, In e phrase_intents /\ fst e = preprocessQuery key query
            /\ analyzeQueryIntent key reply (preprocessQuery key query) = snd e.
Proof.
  intros Hm Hreq. pose proof (standardized_in_phrases key query Hm Hreq) as Hin.
  apply in_map_iff in Hin as (e & He & Hin). exists e.
  split; [exact Hin | split; [exact He|]].
  pose proof (classify_phrases key reply) as Hall. rewrite List.Forall_forall in Hall.
  rewrite <- He. exact (Hall e Hin).
Qed.

(** X8.  For a question that the normalizer maps to one of its standardized
    phrases, the intent is fixed by the rules of the classifier, whatever
    the generative model answers: it is the one [phrase_intents] gives for
    the phrase.  So the questions standardized to [show project timeline]
    and to [show project blockers] are classified [PROJECT_STATUS], since
    [how.* project] matches inside [show project]. *)
Theorem standardized_phrases_have_fixed_intents (key : string) (reply : option string)
    (query : string) :
  first_match (queryMappings key (Js.toLowerCase (Js.trim query)))
              (Js.toLowerCase (Js.trim query)) <> None ->
  test (issue_request key) (Js.toLowerCase (Js.trim query)) = false ->
  In (preprocessQuery key query,
      analyzeQueryIntent key reply (preprocessQuery key query)) phrase_intents.
Proof.
  intros Hm Hreq.
  destruct (standardized_intent key reply query Hm Hreq) as ([p i] & Hin & Hp & Hi).
  cbn [fst snd] in Hp, Hi. rewrite Hi, <- Hp. exact Hin.
Qed.

Lemma standardized_phrases_have_fixed_intents_witness :
  In (preprocessQuery "NIHK" "Any blockers?",
      analyzeQueryIntent "NIHK" (Some "BLOCKERS") (preprocessQuery "NIHK" "Any blockers?"))
     phrase_intents.
Proof.
  apply (standardized_phrases_have_fixed_intents "NIHK" (Some "BLOCKERS") "Any blockers?").
  - apply first_match_found. vm_compute. reflexivity.
  - vm_compute. reflexivity.
Defined.

End ClassifierReach.

(** ** The greeting rule *)

Section Greeting.
Import Classifier.

Lemma drop_space_before (m r : list ascii) :
  match r with b :: _ => Js.is_space b = false | [] => False end ->
  exists v, Js.drop_space (m ++ r) = v ++ r.
Proof.
  intros Hr. induction m as [|x m [v IH]].
  - exists []. apply drop_space_fixed. destruct r; [contradiction | exact Hr].
  - cbn [app Js.drop_space]. destruct (Js.is_space x).
    + exists v. exact IH.
    + exists (x :: m). reflexivity.
Qed.

(** Trimming keeps a beginning that starts and ends outside white space. *)
Lemma trim_chars_prefix (u l : list ascii) :
  match u with a :: _ => Js.is_space a = false | [] => False end ->
  match rev u with b :: _ => Js.is_space b = false | [] => False end ->
  exists l', Js.trim_chars (u ++ l) = u ++ l'.
Proof.
  intros Hu Hr. unfold Js.trim_chars.
  rewrite (drop_space_fixed (u ++ l)) by (destruct u; [contradiction | exact Hu]).
  rewrite rev_app_distr. destruct (drop_space_before (rev l) (rev u) Hr) as [v ->].
  exists (rev v). rewrite rev_app_distr, rev_involutive. reflexivity.
Qed.

Lemma chars_append (a b : string) : Js.chars (a +:+ b) = Js.chars a ++ Js.chars b.
Proof.
  induction a as [|x a IH]; [reflexivity|].
  change (x :: Js.chars (a +:+ b) = x :: (Js.chars a ++ Js.chars b)). f_equal. exact IH.
Qed.

Lemma test_here r (s : string) v :
  match_at r (Pos [] (Js.chars s)) = Some v -> test r s = true.
Proof.
  intros H. unfold test. destruct v as [y d]. rewrite (find_here _ _ _ _ _ H). reflexivity.
Qed.

(** X9.  The greeting rule looks at the beginning of the text only, and asks for
    no word boundary after the opener: a text that begins with one of the
    openers and does not mention a sprint is classified [GREETING], whatever
    follows the opener (the texts that begin with [high] or [history]
    begin with [hi]) and whatever the generative model answers. *)
Theorem greeting_rule_takes_prefixes (key : string) (reply : option string)
    (opener rest : string) :
  In opener greeting_openers ->
  test sprint_re (opener +:+ rest) = false ->
  analyzeQueryIntent key reply (opener +:+ rest) = "GREETING".
Proof.
  intros Hin Hs. unfold analyzeQueryIntent. rewrite Hs.
  replace (test greeting_re (Js.trim (opener +:+ rest))) with true; [reflexivity|].
  symmetry. unfold Js.trim. rewrite chars_append.
  unfold greeting_openers in Hin. cbn [In] in Hin.
  repeat (destruct Hin as [<-|Hin];
    [ match goal with
      | |- context [Js.trim_chars (?u ++ ?l)] =>
          destruct (trim_chars_prefix u l) as [l' ->]; [reflexivity | reflexivity |]
      end;
      eapply test_here; rewrite chars_str; vm_compute; reflexivity |]).
  contradiction.
Qed.

Lemma greeting_rule_takes_prefixes_witness :
  analyzeQueryIntent "NIHK" (Some "TASK_LIST") "high priority tasks" = "GREETING".
Proof.
  apply (greeting_rule_takes_prefixes "NIHK" (Some "TASK_LIST") "hi" "gh priority tasks").
  - left. reflexivity.
  - vm_compute. reflexivity.
Defined.

End Greeting.

(** ** The timeline view, the templates and the two synthesizers *)

Section TimelineProperties.
Import Timeline.

(** X10.  The handler calls the timeline view with one of two standardized
    phrases only, and on both the view takes its last branch: it always
    asks for the upcoming due dates, and its five other time frames are
    never used. *)
Theorem timeline_view_always_upcoming (key query : string) :
  String.eqb query "show project timeline"
  || String.eqb query "show upcoming deadlines" = true ->
  timeline_query key query
  = ("upcoming", "project = " +:+ key +:+ " AND duedate >= now() ORDER BY duedate ASC").
Proof.
  intros H. apply orb_prop in H as [H|H]; apply String.eqb_eq in H; subst query;
    unfold timeline_query;
    repeat match goal with
           | |- context [test ?r ?s] =>
               let b := eval vm_compute in (test r s) in
               change (test r s) with b
           end; reflexivity.
Qed.

Lemma timeline_view_always_upcoming_witness :
  timeline_query "NIHK" "show upcoming deadlines"
  = ("upcoming", "project = NIHK AND duedate >= now() ORDER BY duedate ASC").
Proof. apply (timeline_view_always_upcoming "NIHK" "show upcoming deadlines"). reflexivity. Defined.

End TimelineProperties.

Section Scoped.
Import Synthesizer Handler.

Lemma prefix_app_assoc (a b c : string) : String.prefix (a +:+ b) (a +:+ b +:+ c) = true.
Proof.
  induction a as [|x a IH]; [exact (prefix_self_app b c)|].
  change (String.prefix (String x (a +:+ b)) (String x (a +:+ b +:+ c)) = true).
  cbn [String.prefix]. destruct (ascii_dec x x); [exact IH | congruence].
Qed.

Ltac scoped_template :=
  unfold PROJECT_STATUS, TIMELINE, TIMELINE_UPCOMING, BLOCKERS, HIGH_PRIORITY,
    OPEN_TASKS, CLOSED_TASKS, ASSIGNED_TASKS, UNASSIGNED_TASKS, RECENT_UPDATES,
    CURRENT_SPRINT, MOST_RECENT_TASK; apply prefix_self_app.

Lemma fallbackGenerateJQL_scoped (tkey query intent : string) :
  String.prefix (project tkey) (fallbackGenerateJQL tkey query intent) = true.
Proof.
  unfold fallbackGenerateJQL.
  repeat match goal with
         | |- context [if ?b then _ else _] => destruct b
         end; scoped_template.
Qed.

Lemma lookup_canonical_scoped (tkey query template : string) :
  lookup_canonical tkey query = Some template ->
  String.prefix (project tkey) template = true.
Proof.
  unfold lookup_canonical, canonical. cbn [List.find fst].
  repeat match goal with
         | |- context [String.eqb query ?s] =>
             destruct (String.eqb query s);
             [intros H; injection H as <-; scoped_template|]
         end.
  simpl. discriminate.
Qed.

Lemma simplifiedJQL_scoped (key tkey query intent : string) :
  String.prefix (project tkey) (simplifiedJQL key tkey query intent) = true
  \/ String.prefix ("project = " +:+ key) (simplifiedJQL key tkey query intent) = true.
Proof.
  unfold simplifiedJQL.
  repeat match goal with
         | |- context [if ?b then _ else _] => destruct b
         end; try (left; scoped_template).
  right. apply prefix_app_assoc.
Qed.

(** X11.  Without the generative model every structured query is scoped to the
    project or names one issue: the keyword fallback and the templates of
    the retry start with the project clause, and so does what the
    synthesizer returns when its chat completion fails, unless it is the
    key-equality query for an issue. *)
Theorem offline_queries_scoped (key tkey query intent : string) :
  String.prefix (project tkey) (fallbackGenerateJQL tkey query intent) = true
  /\ (String.prefix (project tkey) (simplifiedJQL key tkey query intent) = true
      \/ String.prefix ("project = " +:+ key) (simplifiedJQL key tkey query intent) = true)
  /\ ((exists tok, generateJQL key tkey None query intent = key_equals tok)
      \/ String.prefix (project tkey) (generateJQL key tkey None query intent) = true).
Proof.
  split; [apply fallbackGenerateJQL_scoped | split; [apply simplifiedJQL_scoped|]].
  unfold generateJQL.
  destruct (lookup_canonical tkey query) as [template|] eqn:Hc;
    [right; exact (lookup_canonical_scoped _ _ _ Hc)|].
  destruct (test _ query); [left; eexists; reflexivity|].
  destruct (match0 _ query); [left; eexists; reflexivity|].
  right.
  repeat match goal with
         | |- context [if ?b then _ else _] => destruct b
         end; try scoped_template.
  apply fallbackGenerateJQL_scoped.
Qed.

End Scoped.

Section PhrasesAndTemplates.
Import Normalizer Synthesizer.

(** X12.  A question that the normalizer maps to one of its standardized phrases
    gets its structured query from the template table: the synthesizer
    returns the template of the phrase, which starts with the project
    clause, whatever the intent and whatever the generative model would
    answer. *)
Theorem standardized_phrases_use_templates (key tkey query : string) :
  first_match (queryMappings key (Js.toLowerCase (Js.trim query)))
              (Js.toLowerCase (Js.trim query)) <> None ->
  test (issue_request key) (Js.toLowerCase (Js.trim query)) = false ->
  exists template,
    lookup_canonical tkey (preprocessQuery key query) = Some template
    /\ String.prefix (project tkey) template = true
    /\ forall reply intent,
         generateJQL key tkey reply (preprocessQuery key query) intent = template.
Proof.
  intros Hm Hreq. unfold preprocessQuery.
  destruct (first_match _ _) as [m|] eqn:E; [clear Hm | contradiction Hm; reflexivity].
  unfold first_match, queryMappings in E. cbn [List.find regex_of] in E.
  rewrite Hreq in E.
  repeat match type of E with
         | context [if ?b then _ else _] =>
             destruct b;
             [injection E as <-; cbn [standardized];
              match goal with
              | |- context [lookup_canonical tkey ?c] =>
                  destruct (lookup_canonical tkey c) as [template|] eqn:El;
                  [|vm_compute in El; discriminate El];
                  exists template;
                  split; [reflexivity|];
                  split; [exact (lookup_canonical_scoped _ _ _ El)|];
                  intros reply intent; unfold generateJQL; rewrite El; reflexivity
              end|]
         end.
  discriminate.
Qed.

Lemma standardized_phrases_use_templates_witness :
  exists template,
    lookup_canonical "NIHK" (preprocessQuery "NIHK" "  What's blocking us?") = Some template
    /\ String.prefix (project "NIHK") template = true
    /\ forall reply intent,
         generateJQL "NIHK" "NIHK" reply (preprocessQuery "NIHK" "  What's blocking us?") intent
         = template.
Proof.
  apply (standardized_phrases_use_templates "NIHK" "NIHK" "  What's blocking us?").
  - apply first_match_found. vm_compute. reflexivity.
  - vm_compute. reflexivity.
Defined.

End PhrasesAndTemplates.

Section Variants.
Import Synthesizer.

(** X13.  A query that names an issue is resolved the same way by both servers:
    the synthesizer of the server without conversation memory returns what
    the synthesizer of the other one returns, the key-equality query. *)
Theorem variants_agree_on_issue_keys (key tkey : string) (reply reply' : option string)
    (query intent tok : string) :
  key <> EmptyString ->
  match0 (containsIssueKey key) query = Some tok ->
  Simple.generateJQL (Some key) reply' query = generateJQL key tkey reply query intent.
Proof.
  intros Hk Hm. unfold Simple.generateJQL, generateJQL, Simple.PROJECT_KEY.
  destruct (String.eqb_spec key EmptyString) as [E|_]; [contradiction|].
  destruct (lookup_canonical tkey query) as [template|] eqn:Hc.
  - apply canonical_no_digit in Hc. apply issue_key_digit in Hm. congruence.
  - unfold containsIssueKey in *. destruct (test (only_issue_key key) query); [reflexivity|].
    rewrite Hm. reflexivity.
Qed.

Lemma variants_agree_on_issue_keys_witness :
  Simple.generateJQL (Some "NIHK") (Some "status = Open") "what about nihk-7?"
  = generateJQL "NIHK" "NIHK" None "what about nihk-7?" "TASK_LIST".
Proof.
  apply (variants_agree_on_issue_keys "NIHK" "NIHK" None (Some "status = Open")
           "what about nihk-7?" "TASK_LIST" "nihk-7").
  - discriminate.
  - vm_compute. reflexivity.
Defined.

End Variants.

(** ** The text extractor on documents *)

Section AdfTotal.
Import Adf.

(** The loop inside [processNode] is [mapM processNode]. *)
Lemma processNode_obj text content ty :
  processNode (Obj text content ty)
  = if truthy text then Done text
    else match content with
         | Arr items =>
             and_then (mapM processNode items) (fun parts => Done (Str (join_empty parts)))
         | _ => Done (Str EmptyString)
         end.
Proof.
  cbn [processNode]. destruct (truthy text); [reflexivity|].
  destruct content; try reflexivity. f_equal.
  induction items as [|n t IH]; [reflexivity|]. cbn [mapM]. rewrite IH. reflexivity.
Qed.












(** *** A hole among the blocks *)

Lemma foldM_throws {A B : Type} (f : A -> B -> outcome A) (l : list B) (b : B) :
  In b l -> (forall acc, f acc b = TypeError) -> forall acc, foldM f acc l = TypeError.
Proof.
  intros Hin Hb. induction l as [|b' l IH]; intros acc; [contradiction|].
  cbn [foldM]. destruct Hin as [->|Hin]; [rewrite Hb; reflexivity|].
  destruct (f acc b'); [apply (IH Hin) | reflexivity].
Qed.

(** X15.  A block that is [null] or [undefined] makes the extractor throw,
    wherever it stands among the blocks and whatever the other blocks are. *)
Theorem extractTextFromADF_hole (text ty : value) (blocks : list value) :
  In Null blocks \/ In Undefined blocks ->
  extractTextFromADF (Obj text (Arr blocks) ty) = TypeError.
Proof.
  intros H. unfold extractTextFromADF. cbn [truthy negb prop_content and_then].
  destruct H as [H|H].
  - rewrite (foldM_throws block_step blocks Null H); reflexivity.
  - rewrite (foldM_throws block_step blocks Undefined H); reflexivity.
Qed.

Lemma extractTextFromADF_hole_witness :
  extractTextFromADF (Obj Undefined (Arr [paragraph ["a"]; Null]) (Str "doc")) = TypeError.
Proof. apply extractTextFromADF_hole. left. right. left. reflexivity. Defined.

(** *** Documents made of paragraphs and lists *)

Lemma append_cons (x : ascii) (a b : string) : String x a +:+ b = String x (a +:+ b).
Proof. reflexivity. Qed.

Lemma append_assoc (a b c : string) : (a +:+ b) +:+ c = a +:+ (b +:+ c).
Proof.
  induction a as [|x a IH]; [reflexivity|]. rewrite !append_cons. f_equal. exact IH.
Qed.

Lemma append_empty_r (a : string) : a +:+ EmptyString = a.
Proof.
  induction a as [|x a IH]; [reflexivity|]. rewrite append_cons. f_equal. exact IH.
Qed.

Lemma concat_with_empty (l : list string) : concat_with EmptyString l = glue l.
Proof.
  destruct l as [|s t]; [reflexivity|]. cbn [concat_with glue fold_right].
  revert s. induction t as [|u t IH]; intros s; cbn [fold_left fold_right].
  - symmetry. apply append_empty_r.
  - rewrite IH. cbn [String.append]. apply append_assoc.
Qed.

Lemma mapM_text_runs (runs : list string) :
  mapM processNode (map text_run runs) = Done (map Str runs).
Proof.
  induction runs as [|s runs IH]; [reflexivity|]. cbn [map mapM].
  rewrite IH. unfold text_run. rewrite processNode_obj. cbn [truthy].
  destruct (String.eqb_spec s EmptyString) as [->|_]; reflexivity.
Qed.

Lemma join_empty_strings (runs : list string) : join_empty (map Str runs) = glue runs.
Proof.
  unfold join_empty. rewrite concat_with_empty, map_map. cbn [to_string].
  rewrite map_id. reflexivity.
Qed.

Lemma block_step_paragraph (result : string) (runs : list string) :
  block_step result (paragraph runs) = Done (result +:+ glue runs +:+ newline).
Proof.
  unfold block_step, paragraph. cbn [prop_type and_then is_str].
  change (String.eqb "paragraph" "paragraph") with true. cbn [orb].
  rewrite processNode_obj. cbn [truthy]. rewrite mapM_text_runs. cbn [and_then to_string].
  rewrite join_empty_strings. reflexivity.
Qed.

Lemma processNode_paragraph (runs : list string) :
  processNode (paragraph runs) = Done (Str (glue runs)).
Proof.
  unfold paragraph. rewrite processNode_obj. cbn [truthy].
  rewrite mapM_text_runs. cbn [and_then]. rewrite join_empty_strings. reflexivity.
Qed.

Lemma joined_paragraphs (paragraphs : list (list string)) :
  joined_nodes (Arr (map paragraph paragraphs)) = Done (glue (map glue paragraphs)).
Proof.
  unfold joined_nodes. cbn [elements and_then].
  assert (H : mapM processNode (map paragraph paragraphs)
              = Done (map Str (map glue paragraphs))).
  { induction paragraphs as [|runs rest IH]; [reflexivity|]. cbn [map mapM].
    rewrite processNode_paragraph, IH. reflexivity. }
  rewrite H. cbn [and_then]. rewrite join_empty_strings. reflexivity.
Qed.

Lemma list_item_text (result : string) (paragraphs : list (list string)) :
  list_item result (list_item_node paragraphs) = Done (result +:+ item_text paragraphs).
Proof.
  unfold list_item, list_item_node. cbn [prop_type prop_content and_then is_str truthy].
  change (String.eqb "listItem" "listItem") with true. cbn [andb].
  rewrite joined_paragraphs. reflexivity.
Qed.

Lemma foldM_items (items : list (list (list string))) (result : string) :
  foldM list_item result (map list_item_node items)
  = Done (result +:+ glue (map item_text items)).
Proof.
  revert result. induction items as [|item rest IH]; intros result; cbn [map foldM].
  - cbn [glue fold_right]. rewrite append_empty_r. reflexivity.
  - rewrite list_item_text. cbn [and_then]. rewrite IH. cbn [glue fold_right].
    rewrite !append_assoc. reflexivity.
Qed.

Lemma block_step_text (result : string) (b : block) :
  block_step result (block_node b) = Done (result +:+ block_text b).
Proof.
  destruct b as [runs|ordered items]; [apply block_step_paragraph|].
  unfold block_step, block_node, block_text.
  cbn [prop_type prop_content and_then truthy elements].
  destruct ordered; cbn [is_str];
    repeat match goal with
           | |- context [String.eqb ?a ?b] =>
               let v := eval vm_compute in (String.eqb a b) in
               change (String.eqb a b) with v
           end; cbn [orb]; apply foldM_items.
Qed.

Lemma foldM_blocks (blocks : list block) (result : string) :
  foldM block_step result (map block_node blocks)
  = Done (result +:+ glue (map block_text blocks)).
Proof.
  revert result. induction blocks as [|b rest IH]; intros result; cbn [map foldM].
  - cbn [glue fold_right]. rewrite append_empty_r. reflexivity.
  - rewrite block_step_text. cbn [and_then]. rewrite IH. cbn [glue fold_right].
    rewrite !append_assoc. reflexivity.
Qed.

(** X16.  The text of a document made of paragraphs and lists: the text runs of
    each paragraph one after the other and a line feed after the paragraph;
    for each item of a list, ordered or not, a bullet, the runs of its
    paragraphs and a line feed; and the whole trimmed. *)
Theorem extractTextFromADF_blocks (blocks : list block) :
  extractTextFromADF (document blocks)
  = Done (Js.trim (glue (map block_text blocks))).
Proof.
  unfold extractTextFromADF, document. cbn [truthy negb prop_content and_then].
  rewrite foldM_blocks. reflexivity.
Qed.

End AdfTotal.

(** ** Invariants of the request handler *)

Section Invariants.
Import Handler.
Variables key tkey : string.

Section Keeps.
Variable sid : string.
(** The updates of the session that keep the invariant. *)
Variable U : (Session -> Session) -> Prop.
Variable I : State -> Prop.
Hypothesis I_update : forall f s st,
  U f -> I st -> memory st !! sid = Some s ->
  I {| memory := <[sid := f s]> (memory st); calls := calls st |}.
Hypothesis I_log : forall c st,
  I st -> I {| memory := memory st; calls := calls st ++ [c] |}.

Lemma triple_bind {A B : Type} (P : State -> Prop) (m : M A) (f : A -> M B)
    (Q : A -> State -> Prop) (Q' : B -> State -> Prop) (E : State -> Prop) :
  triple P m Q E -> (forall a, triple (Q a) (f a) Q' E) -> triple P (bind m f) Q' E.
Proof.
  intros Hm Hf st HP. unfold bind. specialize (Hm st HP).
  destruct (m st) as [[a|] st1]; [exact (Hf a st1 Hm) | exact Hm].
Qed.

Lemma keeps_ret {A : Type} (a : A) : keeps I (ret a).
Proof. intros st H. exact H. Qed.

Lemma keeps_lift {A : Type} (c : completion A) : keeps I (lift c).
Proof. intros st H. unfold lift. destruct c; exact H. Qed.

Lemma keeps_session : keeps I (session sid).
Proof. intros st H. unfold session. destruct (memory st !! sid); exact H. Qed.

Lemma keeps_update f : U f -> keeps I (update sid f).
Proof.
  intros Hf st H. unfold update. destruct (memory st !! sid) eqn:E; [|exact H].
  apply I_update; assumption.
Qed.

Lemma keeps_log c : keeps I (log c).
Proof. intros st H. apply I_log. exact H. Qed.

Lemma keeps_bind {A B : Type} (m : M A) (f : A -> M B) :
  keeps I m -> (forall a, keeps I (f a)) -> keeps I (bind m f).
Proof. intros Hm Hf. apply (triple_bind I m f (fun _ => I)); assumption. Qed.

Ltac keep :=
  first [ apply keeps_ret | apply keeps_lift | apply keeps_session
        | apply keeps_log | apply keeps_update; auto
        | apply keeps_bind; [|intros] ].

Ltac fork :=
  match goal with
  | |- keeps _ (if ?b then _ else _) => destruct b
  | |- keeps _ (match ?x with _ => _ end) => destruct x
  | |- keeps _ (let '(_, _) := ?x in _) => destruct x
  end.

Hypothesis U_intent : forall i, U (store_intent i).
Hypothesis U_response : forall m, U (store_response m).

Lemma keeps_answered m intent : keeps I (answered sid m intent).
Proof. unfold answered. repeat keep. Qed.

(** Steps 4 and 5 when the updates of the note keep the invariant too. *)
Lemma keeps_run_search w query intent jql :
  (forall n, U (set_note n)) -> keeps I (run_search key tkey w sid query intent jql).
Proof. intros U_note. unfold run_search. repeat (keep || fork). Qed.

Lemma keeps_render w intent data :
  (forall n, U (set_note n)) -> keeps I (render w sid intent data).
Proof. intros U_note. unfold render. repeat (keep || fork). Qed.

Lemma keeps_execute w query intent :
  (forall n, U (set_note n)) -> keeps I (execute key tkey w sid query intent).
Proof.
  intros U_note. unfold execute. fork; [keep|].
  keep; [apply keeps_run_search; exact U_note|].
  keep; [apply keeps_render; exact U_note|]. repeat keep.
Qed.

Hypothesis I_execute : forall w query intent,
  keeps I (execute key tkey w sid query intent).

Lemma keeps_classify w query : keeps I (classify_and_answer key tkey w sid query).
Proof.
  unfold classify_and_answer. keep; [keep|].
  repeat first [ apply keeps_answered | apply I_execute | keep | fork ].
Qed.

Lemma keeps_pipeline w query : keeps I (pipeline key tkey w sid query).
Proof.
  unfold pipeline.
  repeat first [ apply keeps_answered | apply keeps_classify | fork ].
Qed.

End Keeps.

Lemma keeps_snd {A : Type} (I : State -> Prop) (m : M A) (st : State) :
  keeps I m -> I st -> I (snd (m st)).
Proof. intros H HI. specialize (H st HI). destruct (m st) as [[a|] st']; exact H. Qed.

(** An invariant that every update of the session [sid] and every logged
    search keeps is kept by the [try] block. *)
Lemma pipeline_keeps (sid : string) (I : State -> Prop) w query st :
  (forall f s st, I st -> memory st !! sid = Some s ->
     I {| memory := <[sid := f s]> (memory st); calls := calls st |}) ->
  (forall c st, I st -> I {| memory := memory st; calls := calls st ++ [c] |}) ->
  I st -> I (snd (pipeline key tkey w sid query st)).
Proof.
  intros Hu Hl. apply keeps_snd.
  apply (keeps_pipeline sid (fun _ => True) I); auto.
  intros w' q' i'. apply (keeps_execute sid (fun _ => True) I); auto.
Qed.

(** *** A request touches its own session only *)

Lemma pipeline_isolated w sid query st sid' :
  sid' <> sid ->
  memory (snd (pipeline key tkey w sid query st)) !! sid' = memory st !! sid'.
Proof.
  intros Hne.
  apply (pipeline_keeps sid (fun st' => memory st' !! sid' = memory st !! sid'));
    [| auto | reflexivity].
  intros f s st' H Hs. cbn [memory]. rewrite lookup_insert_ne by congruence. exact H.
Qed.

Lemma pipeline_keeps_sessions w sid query st sid' :
  is_Some (memory st !! sid') ->
  is_Some (memory (snd (pipeline key tkey w sid query st)) !! sid').
Proof.
  apply (pipeline_keeps sid (fun st' => is_Some (memory st' !! sid'))); [|auto].
  intros f s st' H Hs. cbn [memory]. destruct (decide (sid = sid')) as [->|Hne].
  - rewrite lookup_own. eexists. reflexivity.
  - rewrite lookup_insert_ne by exact Hne. exact H.
Qed.

Lemma open_session_isolated mem sid q mem' sid' :
  open_session mem sid q = Some mem' -> sid' <> sid -> mem' !! sid' = mem !! sid'.
Proof.
  unfold open_session. intros H Hne.
  destruct (mem !! sid); [|destruct (inherited_in mem sid); [discriminate|]];
    injection H as <-; apply lookup_insert_ne; congruence.
Qed.

Lemma handler_isolated (w : World) (mem : gmap string Session) (req : Request)
    (sid' : string) :
  sid' <> session_id req ->
  memory (snd (handler key tkey w mem req)) !! sid' = mem !! sid'.
Proof.
  intros Hne. unfold handler. fold (session_id req).
  destruct (String.eqb _ _); [reflexivity|].
  destruct (open_session _ _ _) as [mem'|] eqn:Ho; [|reflexivity].
  pose proof (pipeline_isolated w (session_id req) (query req)
                {| memory := mem'; calls := [] |} sid' Hne) as Hp.
  cbn [memory] in Hp. rewrite (open_session_isolated _ _ _ _ _ Ho Hne) in Hp.
  destruct (pipeline _ _ _ _ _ _) as [[r|] st]; exact Hp.
Qed.

Lemma handler_keeps_sessions (w : World) (mem : gmap string Session) (req : Request)
    (sid' : string) :
  is_Some (mem !! sid') -> is_Some (memory (snd (handler key tkey w mem req)) !! sid').
Proof.
  intros Hs. unfold handler. fold (session_id req).
  destruct (String.eqb _ _); [exact Hs|].
  destruct (open_session _ _ _) as [mem'|] eqn:Ho; [|exact Hs].
  assert (Hs' : is_Some (mem' !! sid')).
  { destruct (decide (sid' = session_id req)) as [->|Hne].
    - destruct (open_session_own _ _ _ _ Ho) as [s ->]. eexists. reflexivity.
    - rewrite (open_session_isolated _ _ _ _ _ Ho Hne). exact Hs. }
  pose proof (pipeline_keeps_sessions w (session_id req) (query req)
                {| memory := mem'; calls := [] |} sid' Hs') as Hp.
  destruct (pipeline _ _ _ _ _ _) as [[r|] st]; exact Hp.
Qed.

(** X17.  A request leaves every session but its own as it is, and removes no
    session from the store. *)
Theorem handler_session_isolation (w : World) (mem : gmap string Session)
    (req : Request) (sid' : string) :
  (sid' <> session_id req ->
   memory (snd (handler key tkey w mem req)) !! sid' = mem !! sid')
  /\ (is_Some (mem !! sid') ->
      is_Some (memory (snd (handler key tkey w mem req)) !! sid')).
Proof. split; [apply handler_isolated | apply handler_keeps_sessions]. Qed.

(** *** The note of the retry does not outlive its request *)

Lemma no_note_insert mem sid s :
  no_note mem -> note s = None -> no_note (<[sid := s]> mem).
Proof.
  intros Hm Hs sid' s' H. destruct (decide (sid = sid')) as [->|Hne].
  - rewrite lookup_own in H. injection H as <-. exact Hs.
  - rewrite lookup_insert_ne in H by exact Hne. exact (Hm _ _ H).
Qed.

Lemma noted_of_no_note sid mem : no_note mem -> noted sid mem.
Proof. intros H sid' s Hs. left. exact (H _ _ Hs). Qed.

Lemma run_search_noted w sid query intent jql :
  triple (fun st => no_note (memory st))
         (run_search key tkey w sid query intent jql)
         (fun _ st => noted sid (memory st))
         (fun st => no_note (memory st)).
Proof.
  intros st H. unfold run_search, bind, log, lift, update, ret. cbn [memory calls].
  destruct (search w) as [data|]; [apply noted_of_no_note; exact H|].
  destruct (retry_search w) as [data|]; [|exact H].
  destruct (has_issues data); [|apply noted_of_no_note; exact H].
  cbn [memory calls]. destruct (memory st !! sid) as [s|] eqn:Es; [|exact H].
  cbn [memory]. intros sid' s' Hs'. destruct (decide (sid = sid')) as [->|Hne].
  - rewrite lookup_own in Hs'. injection Hs' as <-. right. split; reflexivity.
  - rewrite lookup_insert_ne in Hs' by exact Hne. left. exact (H _ _ Hs').
Qed.

Lemma render_clears w sid intent data :
  triple (fun st => noted sid (memory st))
         (render w sid intent data)
         (fun _ st => no_note (memory st))
         (fun st => no_note (memory st)).
Proof.
  intros st H. unfold render, bind, session.
  destruct (memory st !! sid) as [s|] eqn:Es.
  - destruct (H sid s Es) as [Hn|[_ Hn]]; rewrite Hn.
    + assert (Hno : no_note (memory st)).
      { intros sid' s' Hs'. destruct (H sid' s' Hs') as [Hn'|[-> Hn']]; [exact Hn'|].
        congruence. }
      unfold lift, ret. destruct (rendered w); [exact Hno|].
      destruct (issues_of data); [|exact Hno].
      destruct (plain_fallback w intent a); exact Hno.
    + change (String.eqb recovery_note EmptyString) with false. cbn beta iota.
      unfold update, lift, ret. rewrite Es.
      assert (Hno : no_note (<[sid := set_note None s]> (memory st))).
      { intros sid' s' Hs'. destruct (decide (sid = sid')) as [->|Hne].
        - rewrite lookup_own in Hs'. injection Hs' as <-. reflexivity.
        - rewrite lookup_insert_ne in Hs' by exact Hne.
          destruct (H sid' s' Hs') as [Hn'|[-> _]]; [exact Hn' | congruence]. }
      destruct (rendered w); [exact Hno|]. destruct (issues_of data); exact Hno.
  - intros sid' s' Hs'. destruct (H sid' s' Hs') as [Hn'|[-> _]]; [exact Hn' | congruence].
Qed.

Lemma no_note_update (sid : string) f s st :
  (forall s0, note (f s0) = note s0) ->
  no_note (memory st) -> memory st !! sid = Some s ->
  no_note (memory {| memory := <[sid := f s]> (memory st); calls := calls st |}).
Proof.
  intros Hf H Hs. cbn [memory]. apply no_note_insert; [exact H|].
  rewrite Hf. exact (H _ _ Hs).
Qed.

Lemma execute_no_note w sid query intent :
  keeps (fun st => no_note (memory st)) (execute key tkey w sid query intent).
Proof.
  unfold execute. destruct (String.eqb _ _); [intros st H; exact H|].
  eapply triple_bind; [apply run_search_noted|]. intros data.
  eapply triple_bind; [apply render_clears|]. intros formatted.
  apply (keeps_bind (fun st => no_note (memory st))).
  - apply (keeps_update sid (fun f => forall s0, note (f s0) = note s0)).
    + intros f s st Hf. apply no_note_update. exact Hf.
    + reflexivity.
  - intros _. apply keeps_ret.
Qed.

Lemma pipeline_no_note w sid query st :
  no_note (memory st) -> no_note (memory (snd (pipeline key tkey w sid query st))).
Proof.
  apply (keeps_snd (fun st => no_note (memory st))).
  apply (keeps_pipeline sid (fun f => forall s0, note (f s0) = note s0)).
  - intros f s st' Hf. apply no_note_update. exact Hf.
  - reflexivity.
  - reflexivity.
  - intros w' q' i'. apply execute_no_note.
Qed.

Lemma handler_no_note (w : World) (mem : gmap string Session) (req : Request) :
  no_note mem -> no_note (memory (snd (handler key tkey w mem req))).
Proof.
  intros H. unfold handler. destruct (String.eqb _ _); [exact H|].
  destruct (open_session _ _ _) as [mem'|] eqn:Ho; [|exact H].
  assert (H' : no_note mem').
  { unfold open_session in Ho. destruct (mem !! _) as [s|] eqn:Es.
    - injection Ho as <-. apply no_note_insert; [exact H | exact (H _ _ Es)].
    - destruct (inherited_in _ _); [discriminate|]. injection Ho as <-.
      apply no_note_insert; [exact H | reflexivity]. }
  pose proof (pipeline_no_note w (session_id req) (query req)
                {| memory := mem'; calls := [] |} H') as Hp.
  unfold session_id in Hp.
  destruct (pipeline _ _ _ _ _ _) as [[r|] st]; exact Hp.
Qed.

(** X18.  The note that a successful retry leaves in the session is taken out
    again while the same request is served: after any sequence of requests
    no stored session holds a note, and a request served from a store
    without notes leaves a store without notes. *)
Theorem note_never_persists (w : World) (mem : gmap string Session) (req : Request) :
  (forall requests, no_note (serve key tkey requests ∅))
  /\ (no_note mem -> no_note (memory (snd (handler key tkey w mem req)))).
Proof.
  split; [|apply handler_no_note].
  intros requests.
  assert (H : forall m, no_note m -> no_note (serve key tkey requests m)).
  { induction requests as [|[w' req'] rest IH]; intros m Hm; [exact Hm|].
    cbn. apply IH. apply handler_no_note. exact Hm. }
  apply H. intros sid s Hs. rewrite lookup_empty in Hs. discriminate.
Qed.

(** *** The searches of a request and the result set it sends *)

Lemma run_search_outcome w sid query intent st :
  match search w with
  | Return data =>
      run_search key tkey w sid query intent (call_jql (first_call key tkey w query intent)) st
      = (Return data,
         {| memory := memory st;
            calls := calls st ++ [first_call key tkey w query intent] |})
  | Throw =>
      calls (snd (run_search key tkey w sid query intent
                    (call_jql (first_call key tkey w query intent)) st))
      = calls st ++ [first_call key tkey w query intent; retry_call key tkey query intent]
      /\ match retry_search w with
         | Return data =>
             fst (run_search key tkey w sid query intent
                    (call_jql (first_call key tkey w query intent)) st) = Throw
             \/ fst (run_search key tkey w sid query intent
                       (call_jql (first_call key tkey w query intent)) st) = Return data
         | Throw =>
             fst (run_search key tkey w sid query intent
                    (call_jql (first_call key tkey w query intent)) st) = Throw
         end
  end.
Proof.
  unfold run_search, bind, log, lift, update, ret. cbn [memory calls].
  destruct (search w) as [data|]; [reflexivity|].
  destruct (retry_search w) as [data|]; cbn [memory calls fst snd];
    [|rewrite <- app_assoc; split; reflexivity].
  destruct (has_issues data); cbn [memory calls];
    [destruct (memory st !! sid)|]; cbn [fst snd calls];
    rewrite <- app_assoc; split; auto.
Qed.

(** Step 5 and the sending: no search, and what is sent carries [data]. *)
Lemma deliver_outcome w sid intent jql data st :
  let m := bind (render w sid intent data) (fun formatted =>
             bind (update sid (store_response formatted)) (fun _ =>
               ret (json formatted data (Some intent) (Some jql)))) in
  calls (snd (m st)) = calls st
  /\ (fst (m st) = Throw
      \/ exists text, fst (m st) = Return (json text data (Some intent) (Some jql))).
Proof.
  intros m. split.
  - apply (keeps_snd (fun st' => calls st' = calls st)); [|reflexivity].
    apply keeps_bind; [|intros formatted].
    + apply (keeps_render sid (fun _ => True)); auto.
    + apply keeps_bind; [|intros; apply keeps_ret].
      apply (keeps_update sid (fun _ => True)); auto.
  - subst m. unfold bind. destruct (render w sid intent data st) as [[formatted|] st1];
      [|left; reflexivity].
    destruct (update sid (store_response formatted) st1) as [[[]|] st2];
      [right; eexists; reflexivity | left; reflexivity].
Qed.

Lemma execute_outcome w sid query intent st :
  match search w with
  | Return data =>
      calls (snd (execute key tkey w sid query intent st))
      = calls st ++ [first_call key tkey w query intent]
      /\ (fst (execute key tkey w sid query intent st) = Throw
          \/ exists text,
               fst (execute key tkey w sid query intent st)
               = Return (json text data (Some intent)
                              (Some (call_jql (first_call key tkey w query intent)))))
  | Throw =>
      calls (snd (execute key tkey w sid query intent st))
      = calls st ++ [first_call key tkey w query intent; retry_call key tkey query intent]
      /\ match retry_search w with
         | Return data =>
             fst (execute key tkey w sid query intent st) = Throw
             \/ exists text,
                  fst (execute key tkey w sid query intent st)
                  = Return (json text data (Some intent)
                                 (Some (call_jql (first_call key tkey w query intent))))
         | Throw => fst (execute key tkey w sid query intent st) = Throw
         end
  end.
Proof.
  pose proof (run_search_outcome w sid query intent st) as Hrun.
  remember (execute key tkey w sid query intent st) as res eqn:Hres.
  unfold execute in Hres.
  destruct (String.eqb_spec (Synthesizer.generateJQL key tkey (synthesizer_reply w)
                               query intent) EmptyString) as [E|_];
    [exfalso; exact (generateJQL_nonempty _ _ _ _ _ E)|].
  change (Synthesizer.generateJQL key tkey (synthesizer_reply w) query intent)
    with (call_jql (first_call key tkey w query intent)) in Hres.
  set (jql := call_jql (first_call key tkey w query intent)) in *.
  unfold bind at 1 in Hres.
  destruct (search w) as [data|].
  - rewrite Hrun in Hres. subst res.
    exact (deliver_outcome w sid intent jql data
             {| memory := memory st;
                calls := calls st ++ [first_call key tkey w query intent] |}).
  - destruct Hrun as [Hc Hr].
    destruct (run_search key tkey w sid query intent jql st) as [[data'|] st1];
      cbn [fst snd] in Hc, Hr; subst res.
    + destruct (deliver_outcome w sid intent jql data' st1) as [Hc' Hr'].
      split; [rewrite <- Hc; exact Hc'|].
      destruct (retry_search w) as [data|]; [|discriminate].
      destruct Hr as [Hr|Hr]; [discriminate|]. injection Hr as ->. exact Hr'.
    + split; [exact Hc|]. destruct (retry_search w); [left|]; reflexivity.
Qed.

(** X19.  A request issues no search of the controller, or one when it succeeds,
    or two when the first throws, and never more.  What it then sends is the
    text of the outer [catch] block or a rendering that carries the result
    set of the last search issued; when both searches throw it is the text
    of the outer [catch] block. *)
Theorem controller_outcomes (w : World) (mem : gmap string Session) (req : Request) :
  calls (snd (handler key tkey w mem req)) = []
  \/ exists query intent,
       match search w with
       | Return data =>
           calls (snd (handler key tkey w mem req))
           = [first_call key tkey w query intent]
           /\ answered_with w (fst (handler key tkey w mem req)) data intent
                (call_jql (first_call key tkey w query intent))
       | Throw =>
           calls (snd (handler key tkey w mem req))
           = [first_call key tkey w query intent; retry_call key tkey query intent]
           /\ match retry_search w with
              | Return data =>
                  answered_with w (fst (handler key tkey w mem req)) data intent
                    (call_jql (first_call key tkey w query intent))
              | Throw => fst (handler key tkey w mem req) = Sent (last_resort w)
              end
       end.
Proof.
  unfold handler.
  destruct (String.eqb _ _); [left; reflexivity|].
  destruct (open_session _ _ _) as [mem'|] eqn:Ho; [|left; reflexivity].
  destruct (open_session_own _ _ _ _ Ho) as [s Hs].
  set (st0 := {| memory := mem'; calls := [] |}).
  destruct (pipeline_cases key tkey w _ (query req) st0 s Hs)
    as [Hsame|(intent & st1 & s1 & Hs1 & Hc1 & Heq)].
  - left. destruct (pipeline _ _ _ _ _ st0) as [[r|] st]; exact Hsame.
  - right. exists (Normalizer.preprocessQuery key (query req)), intent.
    rewrite Heq.
    pose proof (execute_outcome w (match sessionId req with Some s0 => s0 | None => "default" end)
                  (Normalizer.preprocessQuery key (query req)) intent st1) as Hx.
    rewrite Hc1 in Hx. cbn [app] in Hx. unfold answered_with.
    destruct (execute _ _ _ _ _ _ st1) as [[r|] st2]; cbn [fst snd] in Hx |- *;
      destruct (search w) as [data|]; [| |destruct Hx as [Hc Hr]; split; [exact Hc|]..].
    + destruct Hx as [Hc [Hr|[text Hr]]]; [discriminate|]. injection Hr as ->.
      split; [exact Hc|]. right. eexists. reflexivity.
    + destruct Hx as [Hc Hr]. split; [exact Hc|].
      destruct (retry_search w); [|discriminate].
      destruct Hr as [Hr|[text Hr]]; [discriminate|]. injection Hr as ->.
      right. eexists. reflexivity.
    + left. reflexivity.
    + destruct (retry_search w); [left|]; reflexivity.
Qed.

(** *** The status of what is sent *)

(** X20.  Whatever is sent has status 200, except the reply to a request without
    a query, which has status 400 and leaves the store as it is: no other
    error status leaves the handler. *)
Theorem handler_status_codes (w : World) (mem : gmap string Session) (req : Request)
    (r : Response) (st : State) :
  handler key tkey w mem req = (Sent r, st) ->
  (query req <> EmptyString /\ status r = 200)
  \/ (query req = EmptyString /\ r = error_json 400 "Query is required"
      /\ st = {| memory := mem; calls := [] |}).
Proof.
  unfold handler.
  destruct (String.eqb_spec (query req) EmptyString) as [E|E].
  - intros H. injection H as <- <-. right. split; [exact E | split; reflexivity].
  - destruct (open_session _ _ _) as [mem'|]; [|discriminate].
    destruct (pipeline _ _ _ _ _ _) as [[r'|] st'] eqn:Hp; intros H; injection H as <- <-;
      left; (split; [exact E|]).
    + exact (returns_pipeline _ _ _ _ _ _ _ _ Hp).
    + apply last_resort_shape.
Qed.

(** *** The query history is the last ten queries of the session *)

Lemma last_n_short (n : nat) (l : list string) : length l <= n -> last_n n l = l.
Proof. intros H. unfold last_n. replace (length l - n) with 0 by lia. reflexivity. Qed.

Lemma last_n_length (n : nat) (l : list string) : length (last_n n l) = min n (length l).
Proof. unfold last_n. rewrite length_skipn. lia. Qed.

Lemma push_capped_last_n (l : list string) (x : string) :
  push_capped (last_n 10 l) x = last_n 10 (l ++ [x]).
Proof.
  destruct (Nat.lt_ge_cases (length l) 10) as [Hlt|Hge].
  - rewrite (last_n_short 10 l) by lia. rewrite push_capped_appends by exact Hlt.
    symmetry. apply last_n_short. rewrite length_app. simpl. lia.
  - pose proof (last_n_length 10 l) as Hlen.
    unfold last_n at 2. rewrite length_app. cbn [length].
    replace (length l + 1 - 10) with (S (length l - 10)) by lia.
    rewrite skipn_app.
    replace (S (length l - 10) - length l) with 0 by lia. cbn [skipn].
    unfold last_n in *. destruct (skipn (length l - 10) l) as [|oldest rest] eqn:E.
    + cbn [length] in Hlen. lia.
    + rewrite push_capped_evicts by lia. f_equal.
      replace (S (length l - 10)) with (1 + (length l - 10)) by lia.
      rewrite <- skipn_skipn, E. reflexivity.
Qed.

(** What one request does to the query history of a session. *)
Lemma handler_history (w : World) (mem : gmap string Session) (req : Request)
    (sid : string) :
  queries <$> memory (snd (handler key tkey w mem req)) !! sid
  = if sends_to sid req
    then match mem !! sid with
         | Some s => Some (push_capped (queries s) (query req))
         | None => if inherited_in mem sid then None else Some [query req]
         end
    else queries <$> mem !! sid.
Proof.
  unfold sends_to. destruct (String.eqb_spec (session_id req) sid) as [<-|Hne].
  - unfold handler. fold (session_id req).
    destruct (String.eqb (query req) EmptyString); cbn [negb andb]; [reflexivity|].
    unfold open_session.
    destruct (mem !! session_id req) as [s|] eqn:Es;
      [|destruct (inherited_in mem (session_id req));
        [cbn [snd memory]; rewrite Es; reflexivity|]];
      match goal with
      | |- context [pipeline key tkey w ?sid0 ?q ?st0] =>
          pose proof (pipeline_keeps_queries key tkey w sid0 q st0 sid0) as Hp;
          destruct (pipeline key tkey w sid0 q st0) as [[r|] st]
      end;
      cbn [fst snd memory] in Hp |- *; rewrite Hp, lookup_own; reflexivity.
  - cbn [andb]. rewrite handler_isolated by congruence. reflexivity.
Qed.

Lemma sent_to_cons (sid : string) (w : World) (req : Request)
    (rest : list (World * Request)) :
  sent_to sid ((w, req) :: rest)
  = (if sends_to sid req then [query req] else []) ++ sent_to sid rest.
Proof. unfold sent_to. cbn. destruct (sends_to sid req); reflexivity. Qed.

(** While no reset has replaced the prototype of the store, the names that
    read as inherited values are those of [Object.prototype]; the handler
    does not replace the prototype. *)
Lemma inherited_in_plain (mem : gmap string Session) (k : string) :
  mem !! "__proto__" = None -> inherited_in mem k = Js.inherited k.
Proof. intros H. unfold inherited_in. rewrite H. apply orb_false_r. Qed.

Lemma handler_keeps_prototype (w : World) (mem : gmap string Session) (req : Request) :
  mem !! "__proto__" = None ->
  memory (snd (handler key tkey w mem req)) !! "__proto__" = None.
Proof.
  intros H. destruct (String.eqb_spec (session_id req) "__proto__") as [E|Hne].
  - pose proof (handler_history w mem req "__proto__") as Hh.
    unfold sends_to in Hh. rewrite E, H in Hh.
    replace (inherited_in mem "__proto__") with true in Hh
      by (symmetry; rewrite inherited_in_plain by exact H; reflexivity).
    cbn [andb] in Hh. rewrite String.eqb_refl in Hh.
    destruct (negb _), (memory _ !! "__proto__"); (reflexivity || discriminate).
  - rewrite handler_isolated by congruence. exact H.
Qed.

Lemma serve_history (requests : list (World * Request)) (sid : string) :
  forall mem sent,
    mem !! "__proto__" = None ->
    queries <$> mem !! sid
    = (if Js.inherited sid || (length sent =? 0) then None
       else Some (last_n 10 sent)) ->
    queries <$> serve key tkey requests mem !! sid
    = (if Js.inherited sid || (length (sent ++ sent_to sid requests) =? 0) then None
       else Some (last_n 10 (sent ++ sent_to sid requests))).
Proof.
  induction requests as [|[w req] rest IH]; intros mem sent Hplain H.
  - cbn. rewrite app_nil_r. exact H.
  - rewrite sent_to_cons, app_assoc. cbn [serve fold_left fst snd].
    apply (IH (memory (snd (handler key tkey w mem req))));
      [apply handler_keeps_prototype; exact Hplain|].
    rewrite handler_history, (inherited_in_plain mem sid Hplain).
    destruct (sends_to sid req).
    + rewrite length_app. cbn [length].
      replace (length sent + 1 =? 0) with false by (symmetry; apply Nat.eqb_neq; lia).
      rewrite orb_false_r.
      revert H. destruct (mem !! sid) as [s|] eqn:Es; cbn [fmap option_fmap option_map].
      * destruct (Js.inherited sid); cbn [orb]; [discriminate|].
        destruct (length sent =? 0); [discriminate|].
        intros H. injection H as ->. rewrite push_capped_last_n. reflexivity.
      * destruct (Js.inherited sid); cbn [orb]; [reflexivity|].
        destruct sent as [|x sent]; [reflexivity | discriminate].
    + rewrite app_nil_r. exact H.
Qed.

(** X21.  After any sequence of requests served from the empty store, the query
    history of a session is the last ten of the non-empty queries sent for
    it, oldest first; a session for which none was sent, or whose name is
    that of an inherited property, is not in the store. *)
Theorem query_history_is_last_ten (requests : list (World * Request)) (sid : string) :
  queries <$> serve key tkey requests ∅ !! sid
  = if Js.inherited sid || (length (sent_to sid requests) =? 0) then None
    else Some (last_n 10 (sent_to sid requests)).
Proof.
  apply (serve_history requests sid ∅ []); [apply lookup_empty|].
  rewrite lookup_empty, orb_true_r. reflexivity.
Qed.

(** *** Both histories drop their oldest entry *)

Lemma bind_update {B : Type} (sid : string) (f : Session -> Session)
    (k : unit -> M B) (st : State) (s : Session) :
  memory st !! sid = Some s ->
  bind (update sid f) k st
  = k tt {| memory := <[sid := f s]> (memory st); calls := calls st |}.
Proof. intros H. unfold bind, update. rewrite H. reflexivity. Qed.

Lemma intents_kept (sid : string) (l : list string) f s st :
  (forall s0, intents (f s0) = intents s0) ->
  intents <$> memory st !! sid = Some l -> memory st !! sid = Some s ->
  intents <$> memory {| memory := <[sid := f s]> (memory st); calls := calls st |} !! sid
  = Some l.
Proof.
  intros Hf H Hs. cbn [memory]. rewrite lookup_own. rewrite Hs in H.
  cbn in *. rewrite Hf. exact H.
Qed.

Lemma answered_keeps_intents sid l m intent :
  keeps (fun st => intents <$> memory st !! sid = Some l) (answered sid m intent).
Proof.
  apply (keeps_answered sid (fun f => forall s0, intents (f s0) = intents s0)).
  - intros f s st Hf. apply intents_kept. exact Hf.
  - reflexivity.
Qed.

Lemma execute_keeps_intents w sid l query intent :
  keeps (fun st => intents <$> memory st !! sid = Some l)
        (execute key tkey w sid query intent).
Proof.
  apply (keeps_execute sid (fun f => forall s0, intents (f s0) = intents s0)).
  - intros f s st Hf. apply intents_kept. exact Hf.
  - auto.
  - reflexivity.
  - reflexivity.
Qed.

(** The part of the [try] block that follows the views pushes the intent,
    and nothing after that push touches the intent history. *)
Lemma classify_intents w sid query st s :
  memory st !! sid = Some s ->
  intents <$> memory (snd (classify_and_answer key tkey w sid query st)) !! sid
  = Some (push_capped (intents s)
            (Classifier.analyzeQueryIntent key (classifier_reply w) query)).
Proof.
  intros Hs. unfold classify_and_answer. cbv zeta.
  set (intent := Classifier.analyzeQueryIntent key (classifier_reply w) query).
  rewrite (bind_update sid (store_intent intent) _ st s Hs). cbv beta.
  apply (keeps_snd (fun st' => intents <$> memory st' !! sid
                               = Some (push_capped (intents s) intent))).
  - repeat first
      [ apply answered_keeps_intents | apply execute_keeps_intents
      | apply keeps_ret
      | match goal with
        | |- keeps _ (if ?b then _ else _) => destruct b
        | |- keeps _ (match ?x with _ => _ end) => destruct x
        | |- keeps _ (let '(_, _) := ?x in _) => destruct x
        end ].
  - cbn [memory]. rewrite lookup_own. reflexivity.
Qed.

Lemma pipeline_intents w sid query st s :
  memory st !! sid = Some s ->
  intents <$> memory (snd (pipeline key tkey w sid query st)) !! sid
  = Some (if classified key w query
          then push_capped (intents s) (intent_of key w query)
          else intents s).
Proof.
  intros Hs.
  assert (Ha : forall m i,
             intents <$> memory (snd (answered sid m i st)) !! sid = Some (intents s)).
  { intros m i.
    apply (keeps_snd (fun st' => intents <$> memory st' !! sid = Some (intents s)));
      [apply answered_keeps_intents | rewrite Hs; reflexivity]. }
  pose proof (classify_intents w sid (Normalizer.preprocessQuery key query) st s Hs) as Hc.
  unfold pipeline, classified, intent_of. cbv zeta.
  destruct (String.eqb _ "show most recently updated task");
    [destruct (most_recent_task w); [apply Ha | exact Hc]|].
  destruct (String.eqb _ "show project status");
    [destruct (status_overview w); [apply Ha | exact Hc]|].
  destruct (_ || _); [destruct (project_timeline w); [apply Ha | exact Hc]|].
  destruct (String.eqb _ "show team workload");
    [destruct (team_workload w); [apply Ha | exact Hc]|].
  exact Hc.
Qed.

(** What one request does to the intent history of its session. *)
Lemma handler_intents (w : World) (mem : gmap string Session) (req : Request) :
  query req <> EmptyString ->
  intents <$> memory (snd (handler key tkey w mem req)) !! session_id req
  = match mem !! session_id req with
    | Some s =>
        Some (if classified key w (query req)
              then push_capped (intents s) (intent_of key w (query req))
              else intents s)
    | None =>
        if inherited_in mem (session_id req) then None
        else Some (if classified key w (query req)
                   then [intent_of key w (query req)] else [])
    end.
Proof.
  intros Hq. unfold handler. fold (session_id req).
  destruct (String.eqb_spec (query req) EmptyString) as [E|_]; [contradiction|].
  unfold open_session.
  destruct (mem !! session_id req) as [s|] eqn:Es;
    [|destruct (inherited_in mem (session_id req));
      [cbn [snd memory]; rewrite Es; reflexivity|]];
    match goal with
    | |- context [pipeline key tkey w ?sid0 ?q {| memory := <[_ := ?s0]> _; calls := _ |}] =>
        pose proof (pipeline_intents w sid0 q
                      {| memory := <[sid0 := s0]> mem; calls := [] |} s0
                      (lookup_own mem sid0 s0)) as Hp;
        destruct (pipeline key tkey w sid0 q {| memory := <[sid0 := s0]> mem; calls := [] |})
          as [[r|] st]
    end;
    exact Hp.
Qed.

(** C8.  After any sequence of requests served from the empty store, every
    stored query history and intent history has at most ten entries; more
    generally a request keeps that bound when the store has it.  A request
    pushes its query on the query history of its session and, when no
    aggregate view answers it, the intent of its normalized query on the
    intent history, each through the capped push; a request answered by a
    view leaves the intent history as it is.  On a history of ten entries
    that push drops the first, the oldest, and puts the new entry last. *)
Theorem histories_capped (w : World) (mem : gmap string Session) (req : Request) :
  (forall requests, capped (serve key tkey requests ∅))
  /\ (capped mem -> capped (memory (snd (handler key tkey w mem req))))
  /\ (forall s oldest rest,
        query req <> EmptyString ->
        mem !! session_id req = Some s ->
        queries s = oldest :: rest -> length (queries s) = 10 ->
        queries <$> memory (snd (handler key tkey w mem req)) !! session_id req
        = Some (rest ++ [query req]))
  /\ (forall s oldest rest,
        query req <> EmptyString ->
        mem !! session_id req = Some s ->
        classified key w (query req) = true ->
        intents s = oldest :: rest -> length (intents s) = 10 ->
        intents <$> memory (snd (handler key tkey w mem req)) !! session_id req
        = Some (rest ++ [intent_of key w (query req)]))
  /\ (forall s,
        query req <> EmptyString ->
        mem !! session_id req = Some s ->
        queries <$> memory (snd (handler key tkey w mem req)) !! session_id req
        = Some (push_capped (queries s) (query req))
        /\ intents <$> memory (snd (handler key tkey w mem req)) !! session_id req
           = Some (if classified key w (query req)
                   then push_capped (intents s) (intent_of key w (query req))
                   else intents s))
  /\ (query req <> EmptyString ->
      mem !! session_id req = None -> inherited_in mem (session_id req) = false ->
      queries <$> memory (snd (handler key tkey w mem req)) !! session_id req
      = Some [query req]
      /\ intents <$> memory (snd (handler key tkey w mem req)) !! session_id req
         = Some (if classified key w (query req)
                 then [intent_of key w (query req)] else []))
  /\ (forall oldest l x, length (oldest :: l) = 10 ->
        push_capped (oldest :: l) x = l ++ [x]
        /\ length (push_capped (oldest :: l) x) = 10).
Proof.
  assert (Hsend : query req <> EmptyString -> sends_to (session_id req) req = true).
  { intros Hq. unfold sends_to. rewrite String.eqb_refl.
    destruct (String.eqb_spec (query req) EmptyString); [contradiction | reflexivity]. }
  split; [|split; [|split; [|split; [|split; [|split]]]]].
  - intros requests. apply serve_capped. intros sid s H.
    rewrite lookup_empty in H. discriminate.
  - apply handler_capped.
  - intros s oldest rest Hq Hs Hqs Hlen.
    rewrite handler_history, (Hsend Hq), Hs. f_equal.
    rewrite Hqs in *. apply push_capped_evicts. exact Hlen.
  - intros s oldest rest Hq Hs Hc Hi Hlen.
    rewrite (handler_intents w mem req Hq), Hs, Hc. f_equal.
    rewrite Hi in *. apply push_capped_evicts. exact Hlen.
  - intros s Hq Hs. split.
    + rewrite handler_history, (Hsend Hq), Hs. reflexivity.
    + rewrite (handler_intents w mem req Hq), Hs. reflexivity.
  - intros Hq Hs Hi. split.
    + rewrite handler_history, (Hsend Hq), Hs, Hi. reflexivity.
    + rewrite (handler_intents w mem req Hq), Hs, Hi. reflexivity.
  - intros oldest l x H. split; [apply push_capped_evicts; exact H|].
    rewrite push_capped_evicts by exact H. rewrite length_app. simpl in *. lia.
Qed.

(** *** Reset, then ask *)

Lemma reset_own mem sessionId mem1 :
  Reset.reset_conversation mem sessionId = Some mem1 ->
  let sid := session_id {| query := EmptyString; sessionId := sessionId |} in
  (forall sid', sid' <> sid -> mem1 !! sid' = mem !! sid')
  /\ (mem1 !! sid = Some fresh
      \/ mem1 !! sid = None /\ inherited_in mem1 sid = false).
Proof.
  unfold Reset.reset_conversation, session_id. cbn [Handler.sessionId].
  set (sid := match sessionId with Some s => s | None => "default" end).
  destruct (mem !! sid) as [s|] eqn:Es;
    [|destruct (inherited_in mem sid) eqn:Ei]; intros H; injection H as <-; cbn zeta.
  - split; [intros sid' Hne; apply lookup_insert_ne; congruence|].
    left. apply lookup_own.
  - split; [intros sid' Hne; apply lookup_insert_ne; congruence|].
    left. apply lookup_own.
  - split; [reflexivity|]. right. split; [exact Es | exact Ei].
Qed.

(** X22.  After a reset, the next request for that session is served (also when
    the session identifier is the name of an inherited property, which the
    handler rejects on a store that has no such session) and the session's
    query history is that one query; the reset leaves the other sessions
    as they are. *)
Theorem reset_then_query (w : World) (mem mem1 : gmap string Session)
    (sessionId : option string) (q : string) :
  Reset.reset_conversation mem sessionId = Some mem1 ->
  q <> EmptyString ->
  let req := {| query := q; sessionId := sessionId |} in
  fst (handler key tkey w mem1 req) <> Rejected
  /\ queries <$> memory (snd (handler key tkey w mem1 req)) !! session_id req = Some [q]
  /\ (forall sid', sid' <> session_id req -> mem1 !! sid' = mem !! sid')
  /\ (capped mem -> capped mem1).
Proof.
  intros Hr Hq req. destruct (reset_own _ _ _ Hr) as [Hiso Hown].
  change (session_id {| query := EmptyString; sessionId := sessionId |})
    with (session_id req) in *.
  split; [|split; [|split]].
  - unfold handler. fold (session_id req). cbn [query req].
    destruct (String.eqb_spec q EmptyString) as [E|_]; [contradiction|].
    unfold open_session. destruct Hown as [->|[-> ->]];
      destruct (pipeline _ _ _ _ _ _) as [[r|] st]; discriminate.
  - rewrite handler_history. unfold sends_to. rewrite String.eqb_refl. cbn [query req].
    destruct (String.eqb_spec q EmptyString) as [E|_]; [contradiction|]. cbn [negb andb].
    destruct Hown as [->|[-> ->]]; reflexivity.
  - exact Hiso.
  - intros Hc sid' s' Hs'. destruct (decide (sid' = session_id req)) as [->|Hne].
    + destruct Hown as [Ho|[Ho _]]; rewrite Ho in Hs'; [|discriminate].
      injection Hs' as <-. split; cbn; lia.
    + rewrite Hiso in Hs' by exact Hne. exact (Hc _ _ Hs').
Qed.

End Invariants.

(** ** The intent that is sent *)

Section IntentSent.
Import Handler.
Variables key tkey : string.

Lemma analyzeQueryIntent_offline (query : string) :
  Classifier.is_intent (Classifier.analyzeQueryIntent key None query) = true.
Proof.
  unfold Classifier.analyzeQueryIntent, Classifier.keyword_fallback.
  repeat match goal with
         | |- context [if ?b then _ else _] => destruct b
         end; reflexivity.
Qed.

Lemma enumerated_json m raw intent jql :
  Classifier.is_intent intent = true -> enumerated (json m raw (Some intent) jql).
Proof. intros H i E. cbn in E. injection E as <-. exact H. Qed.

Lemma returns_enumerated_answered sid m intent :
  Classifier.is_intent intent = true -> returns enumerated (answered sid m intent).
Proof.
  intros H. apply returns_bind. intros _. apply returns_ret. apply enumerated_json. exact H.
Qed.

Lemma returns_enumerated_execute w sid query intent :
  Classifier.is_intent intent = true ->
  returns enumerated (execute key tkey w sid query intent).
Proof.
  intros H. unfold execute. destruct (String.eqb _ _).
  - apply returns_ret. intros i E. discriminate E.
  - repeat (apply returns_bind; intros). apply returns_ret. apply enumerated_json. exact H.
Qed.

Lemma returns_enumerated_classify w sid query :
  classifier_reply w = None ->
  returns enumerated (classify_and_answer key tkey w sid query).
Proof.
  intros Hw. unfold classify_and_answer. rewrite Hw.
  pose proof (analyzeQueryIntent_offline query) as Hi.
  generalize dependent (Classifier.analyzeQueryIntent key None query). intros intent Hi.
  apply returns_bind. intros _.
  repeat match goal with
         | |- returns _ (if ?b then _ else _) => destruct b
         | |- returns _ (match ?x with _ => _ end) => destruct x
         | |- returns _ (let '(_, _) := ?x in _) => destruct x
         end;
    first [ apply returns_enumerated_answered; first [exact Hi | reflexivity]
          | apply returns_enumerated_execute; exact Hi
          | apply returns_ret; apply enumerated_json; reflexivity ].
Qed.

Lemma returns_enumerated_pipeline w sid query :
  classifier_reply w = None ->
  returns enumerated (pipeline key tkey w sid query).
Proof.
  intros Hw. unfold pipeline.
  repeat match goal with
         | |- returns _ (if ?b then _ else _) => destruct b
         | |- returns _ (match ?x with _ => _ end) => destruct x
         end;
    first [ apply returns_enumerated_answered; reflexivity
          | apply returns_enumerated_classify; exact Hw ].
Qed.

(** X23.  When the chat completion of the classifier fails, the intent that a
    response carries is a member of the enumeration, whichever way the
    request is answered. *)
Theorem intent_sent_is_enumerated (w : World) (mem : gmap string Session) (req : Request)
    (r : Response) (st : State) (i : string) :
  classifier_reply w = None ->
  handler key tkey w mem req = (Sent r, st) ->
  meta_intent r = Some i ->
  Classifier.is_intent i = true.
Proof.
  intros Hw. unfold handler.
  destruct (String.eqb _ _); [intros H; injection H as <- _; discriminate|].
  destruct (open_session _ _ _) as [mem'|]; [|discriminate].
  destruct (pipeline _ _ _ _ _ _) as [[r'|] st'] eqn:Hp; intros H; injection H as <- _.
  - exact (returns_enumerated_pipeline _ _ _ Hw _ _ _ Hp i).
  - unfold last_resort. destruct (basic_search w) as [[[t [[|i0 l]|]]|]|];
      intros E; injection E as <-; reflexivity.
Qed.

End IntentSent.

Lemma intent_sent_is_enumerated_witness : Classifier.is_intent "GENERAL" = true.
Proof.
  apply (intent_sent_is_enumerated "NIHK" "NIHK" all_down ∅ (ask "foo bar")
           (Handler.last_resort all_down)
           (snd (Handler.handler "NIHK" "NIHK" all_down ∅ (ask "foo bar"))) "GENERAL").
  - reflexivity.
  - vm_compute. reflexivity.
  - reflexivity.
Defined.

(** ** Requests on which the generative model has no influence *)

Section ModelFree.
Import Normalizer Classifier Synthesizer Handler.

Lemma standardized_intent_fixed (key : string) (reply reply' : option string)
    (query : string) :
  first_match (queryMappings key (Js.toLowerCase (Js.trim query)))
              (Js.toLowerCase (Js.trim query)) <> None ->
  test (issue_request key) (Js.toLowerCase (Js.trim query)) = false ->
  analyzeQueryIntent key reply (preprocessQuery key query)
  = analyzeQueryIntent key reply' (preprocessQuery key query).
Proof.
  intros Hm Hreq. pose proof (standardized_in_phrases key query Hm Hreq) as Hin.
  apply in_map_iff in Hin as (e & He & Hin).
  pose proof (classify_phrases key reply) as H1. rewrite List.Forall_forall in H1.
  pose proof (classify_phrases key reply') as H2. rewrite List.Forall_forall in H2.
  rewrite <- He, (H1 e Hin), (H2 e Hin). reflexivity.
Qed.

Lemma standardized_jql_fixed (key tkey : string) (reply reply' : option string)
    (query intent intent' : string) :
  first_match (queryMappings key (Js.toLowerCase (Js.trim query)))
              (Js.toLowerCase (Js.trim query)) <> None ->
  test (issue_request key) (Js.toLowerCase (Js.trim query)) = false ->
  generateJQL key tkey reply (preprocessQuery key query) intent
  = generateJQL key tkey reply' (preprocessQuery key query) intent'.
Proof.
  intros Hm Hreq.
  assert (H : lookup_canonical tkey (preprocessQuery key query) <> None).
  { unfold preprocessQuery.
    destruct (first_match _ _) as [m|] eqn:E; [clear Hm | contradiction Hm; reflexivity].
    unfold first_match, queryMappings in E. cbn [List.find regex_of] in E.
    rewrite Hreq in E.
    repeat match type of E with
           | context [if ?b then _ else _] =>
               destruct b;
               [injection E as <-; cbn [standardized]; vm_compute; discriminate |]
           end.
    discriminate. }
  unfold generateJQL. destruct (lookup_canonical tkey _); [reflexivity | contradiction H; reflexivity].
Qed.

(** X24.  For a question that the normalizer maps to one of its standardized
    phrases, what the generative model replies to the classifier and to the
    synthesizer has no influence on the request: the response sent, the
    searches issued and the store afterwards are the same for any two such
    replies. *)
Theorem standardized_request_ignores_model (key tkey : string) (w : World)
    (mem : gmap string Session) (req : Request) (c c' s s' : option string) :
  first_match (queryMappings key (Js.toLowerCase (Js.trim (query req))))
              (Js.toLowerCase (Js.trim (query req))) <> None ->
  test (issue_request key) (Js.toLowerCase (Js.trim (query req))) = false ->
  handler key tkey (with_replies w c s) mem req
  = handler key tkey (with_replies w c' s') mem req.
Proof.
  intros Hm Hreq.
  pose proof (fun i i' => standardized_jql_fixed key tkey s s' (query req) i i' Hm Hreq) as Hj.
  pose proof (standardized_intent_fixed key c c' (query req) Hm Hreq) as Hi.
  unfold handler, pipeline, classify_and_answer, execute, run_search, render,
    plain_fallback, last_resort.
  cbn [with_replies most_recent_task status_overview project_timeline team_workload
       classifier_reply sprint_view issue_view recent_search conversation_reply
       synthesizer_reply search retry_search rendered basic_search greeting_draw
       conversation_draw opening_draw recent_draw friendly_draw].
  rewrite Hi.
  rewrite (Hj (analyzeQueryIntent key c' (Normalizer.preprocessQuery key (query req)))
              (analyzeQueryIntent key c' (Normalizer.preprocessQuery key (query req)))).
  reflexivity.
Qed.

Lemma standardized_request_ignores_model_witness :
  handler "NIHK" "NIHK" (with_replies retry_up (Some "GENERAL") (Some "status = Open"))
          ∅ (ask "Any blockers?")
  = handler "NIHK" "NIHK" (with_replies retry_up None None) ∅ (ask "Any blockers?").
Proof.
  apply standardized_request_ignores_model.
  - apply first_match_found. vm_compute. reflexivity.
  - vm_compute. reflexivity.
Defined.

End ModelFree.

(** ** The grouping of the fallback rendering *)

Section Grouping.
Import Handler.

Lemma dict_get_some (d : dict) (k : string) (g : list Issue) :
  dict_get d k = Some g -> In (k, g) d.
Proof.
  unfold dict_get. destruct (List.find _ d) as [[k' g']|] eqn:E; [|discriminate].
  intros H. injection H as <-. apply List.find_some in E as [Hin Hk].
  cbn [fst] in Hk. apply String.eqb_eq in Hk. subst k'. exact Hin.
Qed.

(** What a push leaves in the dictionary: the entries it had, one of them
    with the issue at its end, or a new entry for the issue alone. *)
Lemma dict_push_entries (d : dict) (k : string) (i : Issue) (k' : string)
    (g : list Issue) :
  In (k', g) (dict_push d k i) ->
  In (k', g) d \/ (k' = k /\ (g = [i] \/ exists g0, In (k, g0) d /\ g = g0 ++ [i])).
Proof.
  induction d as [|[k0 g0] rest IH]; cbn [dict_push].
  - intros [H|[]]. injection H as <- <-. right. split; [reflexivity | left; reflexivity].
  - destruct (String.eqb_spec k0 k) as [->|Hne].
    + intros [H|H].
      * injection H as <- <-. right. split; [reflexivity|]. right.
        exists g0. split; [left; reflexivity | reflexivity].
      * left. right. exact H.
    + assert (Hrec : In (k', g) ((k0, g0) :: dict_push rest k i) ->
                     In (k', g) ((k0, g0) :: rest)
                     \/ (k' = k /\ (g = [i] \/ exists g1, In (k, g1) ((k0, g0) :: rest)
                                                          /\ g = g1 ++ [i]))).
      { intros [H|H]; [left; left; exact H|].
        destruct (IH H) as [H'|(-> & [->|(g1 & H1 & ->)])].
        - left. right. exact H'.
        - right. split; [reflexivity | left; reflexivity].
        - right. split; [reflexivity|]. right. exists g1. split; [right; exact H1 | reflexivity]. }
      assert (Hnew : In (k', g) ((k, [i]) :: (k0, g0) :: rest) ->
                     In (k', g) ((k0, g0) :: rest)
                     \/ (k' = k /\ (g = [i] \/ exists g1, In (k, g1) ((k0, g0) :: rest)
                                                          /\ g = g1 ++ [i]))).
      { intros [H|H]; [|left; exact H]. injection H as <- <-.
        right. split; [reflexivity | left; reflexivity]. }
      destruct (Js.array_index k) as [n|]; [|exact Hrec].
      destruct (Js.array_index k0) as [n0|]; [|exact Hnew].
      destruct (n <? n0)%N; [exact Hnew | exact Hrec].
Qed.

Lemma dict_push_size (d : dict) (k : string) (i : Issue) :
  length (concat (map snd (dict_push d k i))) = S (length (concat (map snd d))).
Proof.
  induction d as [|[k0 g0] rest IH]; cbn [dict_push]; [reflexivity|].
  assert (Hrec : length (concat (map snd ((k0, g0) :: dict_push rest k i)))
                 = S (length (concat (map snd ((k0, g0) :: rest))))).
  { cbn [map snd concat]. rewrite !length_app, IH. lia. }
  destruct (String.eqb k0 k).
  - cbn [map snd concat]. rewrite !length_app. cbn [length]. lia.
  - destruct (Js.array_index k) as [n|]; [|exact Hrec].
    destruct (Js.array_index k0) as [n0|]; [|reflexivity].
    destruct (n <? n0)%N; [reflexivity | exact Hrec].
Qed.

(** The issue pushed is in the group of its key afterwards. *)
Lemma dict_push_member (d : dict) (k : string) (i : Issue) :
  exists g, In (k, g) (dict_push d k i) /\ In i g.
Proof.
  induction d as [|[k0 g0] rest (g & Hg & Hi)]; cbn [dict_push].
  - exists [i]. split; left; reflexivity.
  - assert (Hrec : exists g1, In (k, g1) ((k0, g0) :: dict_push rest k i) /\ In i g1)
      by (exists g; split; [right; exact Hg | exact Hi]).
    assert (Hnew : exists g1, In (k, g1) ((k, [i]) :: (k0, g0) :: rest) /\ In i g1)
      by (exists [i]; split; left; reflexivity).
    destruct (String.eqb_spec k0 k) as [->|Hne].
    + exists (g0 ++ [i]). split; [left; reflexivity|].
      apply in_or_app. right. left. reflexivity.
    + destruct (Js.array_index k) as [n|]; [|exact Hrec].
      destruct (Js.array_index k0) as [n0|]; [|exact Hnew].
      destruct (n <? n0)%N; [exact Hnew | exact Hrec].
Qed.

(** The groups of a dictionary grow: a member stays a member of the group
    of its key. *)
Lemma dict_push_keeps (d : dict) (k : string) (i : Issue) (k' : string)
    (g : list Issue) (j : Issue) :
  In (k', g) d -> In j g ->
  exists g', In (k', g') (dict_push d k i) /\ In j g'.
Proof.
  induction d as [|[k0 g0] rest IH]; [contradiction|]. intros Hin Hj. cbn [dict_push].
  assert (Hsame : exists g', In (k', g') ((k0, g0) :: rest) /\ In j g')
    by (exists g; split; assumption).
  assert (Hnew : exists g', In (k', g') ((k, [i]) :: (k0, g0) :: rest) /\ In j g')
    by (exists g; split; [right; exact Hin | exact Hj]).
  assert (Hrec : exists g', In (k', g') ((k0, g0) :: dict_push rest k i) /\ In j g').
  { destruct Hin as [H|H].
    - injection H as -> ->. exists g. split; [left; reflexivity | exact Hj].
    - destruct (IH H Hj) as (g' & Hg' & Hj'). exists g'. split; [right; exact Hg' | exact Hj']. }
  destruct (String.eqb_spec k0 k) as [->|Hne].
  - destruct Hin as [H|H].
    + injection H as -> ->. exists (g ++ [i]). split; [left; reflexivity|].
      apply in_or_app. left. exact Hj.
    + exists g. split; [right; exact H | exact Hj].
  - destruct (Js.array_index k) as [n|]; [|exact Hrec].
    destruct (Js.array_index k0) as [n0|]; [|exact Hnew].
    destruct (n <? n0)%N; [exact Hnew | exact Hrec].
Qed.

(** The grouping from any dictionary whose groups are sound. *)
Lemma group_by_from (f : Issue -> string) (l : list Issue) :
  forall d d',
    (forall k g i, In (k, g) d -> In i g -> f i = k) ->
    (forall k g, In (k, g) d -> Js.inherited k = false) ->
    (group_by f l d = Throw <-> existsb (fun i => Js.inherited (f i)) l = true)
    /\ (group_by f l d = Return d' ->
        length (concat (map snd d')) = length (concat (map snd d)) + length l
        /\ (forall k g i, In (k, g) d' -> In i g ->
              f i = k /\ (In i l \/ exists g0, In (k, g0) d /\ In i g0))
        /\ (forall i, In i l -> exists g, In (f i, g) d' /\ In i g)
        /\ (forall k g i, In (k, g) d -> In i g -> exists g', In (k, g') d' /\ In i g')).
Proof.
  induction l as [|i rest IH]; intros d d' Hsound Hown; cbn [group_by existsb].
  - split; [split; discriminate|]. intros H. injection H as <-.
    split; [cbn [length]; lia | split; [|split]].
    + intros k g j Hin Hj. split; [exact (Hsound _ _ _ Hin Hj)|].
      right. exists g. split; assumption.
    + intros j [].
    + intros k g j Hin Hj. exists g. split; assumption.
  - assert (Hpush_sound : forall k g j, In (k, g) (dict_push d (f i) i) -> In j g -> f j = k).
    { intros k g j Hin Hj. apply dict_push_entries in Hin as [Hin|(-> & [->|(g0 & Hg0 & ->)])].
      - exact (Hsound _ _ _ Hin Hj).
      - destruct Hj as [<-|[]]. reflexivity.
      - apply in_app_or in Hj as [Hj|[<-|[]]]; [exact (Hsound _ _ _ Hg0 Hj) | reflexivity]. }
    assert (Hgo : Js.inherited (f i) = false ->
              (group_by f rest (dict_push d (f i) i) = Throw
               <-> Js.inherited (f i) || existsb (fun i0 => Js.inherited (f i0)) rest = true)
              /\ (group_by f rest (dict_push d (f i) i) = Return d' ->
                  length (concat (map snd d')) = length (concat (map snd d)) + length (i :: rest)
                  /\ (forall k g j, In (k, g) d' -> In j g ->
                        f j = k /\ (In j (i :: rest) \/ exists g0, In (k, g0) d /\ In j g0))
                  /\ (forall j, In j (i :: rest) -> exists g, In (f j, g) d' /\ In j g)
                  /\ (forall k g j, In (k, g) d -> In j g ->
                        exists g', In (k, g') d' /\ In j g'))).
    { intros Hi. rewrite Hi. cbn [orb].
      assert (Hpush_own : forall k g, In (k, g) (dict_push d (f i) i) -> Js.inherited k = false).
      { intros k g Hin. apply dict_push_entries in Hin as [Hin|(-> & _)];
          [exact (Hown _ _ Hin) | exact Hi]. }
      destruct (IH (dict_push d (f i) i) d' Hpush_sound Hpush_own) as [Hthrow Hret].
      split; [exact Hthrow|]. intros H.
      destruct (Hret H) as (Hlen & Hmem & Hcov & Hkeep).
      split; [rewrite Hlen, dict_push_size; cbn [length]; lia | split; [|split]].
      - intros k g j Hin Hj. destruct (Hmem k g j Hin Hj) as [Hf [Hr|(g0 & Hg0 & Hj0)]].
        + split; [exact Hf | left; right; exact Hr].
        + split; [exact Hf|].
          apply dict_push_entries in Hg0 as [Hg0|(-> & [->|(g1 & Hg1 & ->)])].
          * right. exists g0. split; assumption.
          * destruct Hj0 as [<-|[]]. left. left. reflexivity.
          * apply in_app_or in Hj0 as [Hj0|[<-|[]]].
            -- right. exists g1. split; assumption.
            -- left. left. reflexivity.
      - intros j [<-|Hj]; [|exact (Hcov j Hj)].
        destruct (dict_push_member d (f i) i) as (g & Hg & Hig).
        exact (Hkeep _ _ _ Hg Hig).
      - intros k g j Hin Hj.
        destruct (dict_push_keeps d (f i) i k g j Hin Hj) as (g' & Hg' & Hj').
        exact (Hkeep _ _ _ Hg' Hj'). }
    destruct (dict_get d (f i)) as [g0|] eqn:Eg.
    + apply Hgo. apply dict_get_some in Eg. exact (Hown _ _ Eg).
    + destruct (Js.inherited (f i)) eqn:Ei; [|apply Hgo; reflexivity].
      cbn [orb]. split; [split; reflexivity | discriminate].
Qed.

(** X25.  The grouping of the fallback rendering.  It throws exactly when the
    name under which some issue is filed (its status, or its assignee) is
    the name of an inherited property.  Otherwise no issue is lost or
    repeated in the count, every issue is in the group of its own name, and
    every group holds only issues of the result set that go by its name. *)
Theorem group_by_partition (f : Issue -> string) (l : list Issue) (d : dict) :
  (group_by f l [] = Throw <-> existsb (fun i => Js.inherited (f i)) l = true)
  /\ (group_by f l [] = Return d ->
      length (concat (map snd d)) = length l
      /\ (forall k g i, In (k, g) d -> In i g -> f i = k /\ In i l)
      /\ (forall i, In i l -> exists g, In (f i, g) d /\ In i g)).
Proof.
  destruct (group_by_from f l [] d) as [Hthrow Hret]; try (intros k g; contradiction).
  split; [exact Hthrow|]. intros H. destruct (Hret H) as (Hlen & Hmem & Hcov & _).
  split; [exact Hlen | split; [|exact Hcov]].
  intros k g i Hin Hi. destruct (Hmem k g i Hin Hi) as [Hf [Hl|(g0 & [] & _)]].
  split; assumption.
Qed.

End Grouping.

(** ** The scope step, and queries that are never empty *)

Section SanitizerSummary.
Import Sanitizer Synthesizer Handler.

(** X26.  The scope step of the sanitizer, taken alone, does what the
    sanitizer is meant to ensure: whatever the text, its result holds the
    project clause of the configured key, bare or quoted, and applying the
    step to its own result changes nothing. *)
Theorem scope_step_ensures_clause (key s : string) :
  (Js.includes (ensure_project key s) (scope key) = true
   \/ Js.includes (ensure_project key s) (scope_quoted key) = true)
  /\ ensure_project key (ensure_project key s) = ensure_project key s.
Proof. split; [apply ensure_project_scoped | apply ensure_project_idempotent]. Qed.

(** X27.  Neither the sanitizer nor the synthesizer ever returns the empty
    string, whatever the generative model answers; so steps 2 to 5 never
    produce the reply [Failed to generate a valid query.], which the handler
    keeps for an empty structured query. *)
Theorem structured_query_never_empty (key tkey : string) (jql reply : option string)
    (query intent : string) :
  sanitizeJQL key jql <> EmptyString
  /\ generateJQL key tkey reply query intent <> EmptyString
  /\ forall w sid st,
       fst (execute key tkey w sid query intent st)
       <> Return (error_json 400 "Failed to generate a valid query.").
Proof.
  split; [apply sanitizeJQL_nonempty | split; [apply generateJQL_nonempty|]].
  intros w sid st H.
  destruct (execute key tkey w sid query intent st) as [res st'] eqn:E.
  cbn [fst] in H. subst res. apply returns_execute in E. discriminate E.
Qed.

End SanitizerSummary.

(** ** The invariants on concrete requests *)

Section FurtherExamples.
Import Handler.

Lemma handler_status_codes_witness :
  (query (ask "foo bar") <> EmptyString /\ status (last_resort all_down) = 200)
  \/ (query (ask "foo bar") = EmptyString
      /\ last_resort all_down = error_json 400 "Query is required"
      /\ snd (handler "NIHK" "NIHK" all_down ∅ (ask "foo bar"))
         = {| memory := ∅; calls := [] |}).
Proof.
  apply (handler_status_codes "NIHK" "NIHK" all_down ∅ (ask "foo bar")).
  vm_compute. reflexivity.
Defined.

Lemma handler_rejects_inherited_session_witness :
  handler "NIHK" "NIHK" all_down ∅ {| query := "foo bar"; sessionId := Some "toString" |}
  = (Rejected, {| memory := ∅; calls := [] |}).
Proof.
  apply handler_rejects_inherited_session;
    [discriminate | apply lookup_empty | reflexivity].
Defined.

Lemma handler_session_isolation_witness :
  memory (snd (handler "NIHK" "NIHK" all_down {[ "alice" := full_session ]}
                       (ask "foo bar"))) !! "alice"
  = Some full_session.
Proof.
  destruct (handler_session_isolation "NIHK" "NIHK" all_down
              {[ "alice" := full_session ]} (ask "foo bar") "alice") as [H _].
  rewrite H; [vm_compute; reflexivity | vm_compute; discriminate].
Defined.

Lemma note_never_persists_witness :
  no_note (memory (snd (handler "NIHK" "NIHK" retry_up ∅ (ask "foo bar")))).
Proof.
  destruct (note_never_persists "NIHK" "NIHK" retry_up ∅ (ask "foo bar")) as [_ H].
  apply H. intros sid s Hs. rewrite lookup_empty in Hs. discriminate.
Defined.

Lemma histories_capped_witness :
  capped (memory (snd (handler "NIHK" "NIHK" all_down {[ "default" := full_histories ]}
                               (ask "foo bar"))))
  /\ queries <$> memory (snd (handler "NIHK" "NIHK" all_down
                                      {[ "default" := full_histories ]} (ask "foo bar")))
                 !! "default"
     = Some ["q1"; "q2"; "q3"; "q4"; "q5"; "q6"; "q7"; "q8"; "q9"; "foo bar"]
  /\ intents <$> memory (snd (handler "NIHK" "NIHK" all_down
                                      {[ "default" := full_histories ]} (ask "foo bar")))
                 !! "default"
     = Some ["TASK_LIST"; "SPRINT"; "TIMELINE"; "BLOCKERS"; "WORKLOAD"; "COMMENTS";
             "PROJECT_STATUS"; "ASSIGNED_TASKS"; "CONVERSATION"; "GENERAL"].
Proof.
  assert (Hc : capped {[ "default" := full_histories ]}).
  { intros sid s H. apply lookup_singleton_Some in H as [_ <-]. split; simpl; lia. }
  destruct (histories_capped "NIHK" "NIHK" all_down
              {[ "default" := full_histories ]} (ask "foo bar"))
    as (_ & H1 & H2 & H3 & _).
  split; [exact (H1 Hc)|split].
  - apply (H2 full_histories "q0"
              ["q1"; "q2"; "q3"; "q4"; "q5"; "q6"; "q7"; "q8"; "q9"]);
      try reflexivity.
    discriminate.
  - apply (H3 full_histories "GREETING"
              ["TASK_LIST"; "SPRINT"; "TIMELINE"; "BLOCKERS"; "WORKLOAD"; "COMMENTS";
               "PROJECT_STATUS"; "ASSIGNED_TASKS"; "CONVERSATION"]);
      try reflexivity.
    discriminate.
Defined.

Lemma reset_then_query_witness :
  fst (handler "NIHK" "NIHK" all_down (<["constructor" := fresh]> ∅)
               {| query := "foo bar"; sessionId := Some "constructor" |}) <> Rejected
  /\ queries <$> memory (snd (handler "NIHK" "NIHK" all_down
                                      (<["constructor" := fresh]> ∅)
                                      {| query := "foo bar";
                                         sessionId := Some "constructor" |}))
                 !! "constructor"
     = Some ["foo bar"].
Proof.
  destruct (reset_then_query "NIHK" "NIHK" all_down ∅ (<["constructor" := fresh]> ∅)
              (Some "constructor") "foo bar") as (H1 & H2 & _).
  - vm_compute. reflexivity.
  - discriminate.
  - split; [exact H1 | exact H2].
Defined.

Lemma group_by_partition_witness :
  length (concat (map snd [("Open", [login_issue])])) = length [login_issue].
Proof.
  destruct (group_by_partition status_of [login_issue] [("Open", [login_issue])])
    as [_ H].
  destruct (H eq_refl) as [Hlen _]. exact Hlen.
Defined.

End FurtherExamples.
